(** * nengo_ocl: ragged-array nonlinearity kernels ([clra_nonlinearities.py])

    A shallow embedding of [plan_lif] and [_plan_template]: the LIF update
    body, the classification of parameters, the layout resolution of the
    variables, the work size, the argument binding, and the two kernels
    that the template renders (one work item per element of a 2-D grid when
    [n_elements = 0], a flattened 1-D grid of [n_elements]-element runs
    otherwise).

    Conventions.
    - Where the contents of a Python dictionary matter and its order does
      not, it is a [gmap string _], and [items()] is [map_to_list]: the
      parameters of the kernel and the arrays then meet by name.  The
      order in which CPython yields the items, which decides how the
      arguments meet the parameters by position, is modelled apart, in
      [PyDict] and [Ordered].
    - In the kernel semantics the device scalars are exact rationals
      ([Q]): rounding, overflow, infinities and NaN are left out, and a
      quotient by zero is 0 there.  The LIF body is modelled a second time
      in IEEE 754 arithmetic ([LifFloat]), where the device differs.
      Kernel integers are mathematical integers: sizes are taken to fit.
    - A C array is a list; an access outside it is undefined behaviour and
      is the fault [None] of the kernel semantics.
    - Work items run one after the other, in the order of their ids.
    - Every variable is bound to a buffer of its own: two names never
      denote the same device buffer.
    - The build of the rendered source (line 240) is taken to succeed: the
      update-rule text enters by its meaning, not as text. *)

From Stdlib Require Import ZArith QArith Qround Lia Lqa SpecFloat.
From stdpp Require Import gmap strings list fin_maps.

Local Open Scope Z_scope.

(** ** Exceptions and faults *)

Inductive pyerr : Type :=
  | TypeError
  | ValueError
  | AssertionError
  | IndexError
  | KeyError
  | ZeroDivisionError.

Inductive result (A : Type) : Type :=
  | Ok (a : A)
  | Raise (e : pyerr).
Arguments Ok {A} a.
Arguments Raise {A} e.

Definition rbind {A B} (r : result A) (k : A → result B) : result B :=
  match r with
  | Ok a => k a
  | Raise e => Raise e
  end.

Notation "x ← r ;;; k" := (rbind r (λ x, k))
  (at level 20, r at level 100, k at level 200, right associativity,
   only parsing).

Definition assert (b : bool) : result unit :=
  if b then Ok tt else Raise AssertionError.

Definition is_ok {A} (r : result A) : bool :=
  match r with Ok _ => true | Raise _ => false end.

(** The local variables of a work item: the C identifiers in scope and
    their current values.  An identifier that was declared and never
    assigned is absent. *)
Abbreviation env := (gmap string Q).

Definition rd (e : env) (x : string) : Q := default 0%Q (e !! x).

(** Statements of the update-rule text, as functions on the local
    variables: [x = rhs;], sequencing, [if (b) s1 else s2] and the empty
    statement. *)
Definition stmt : Type := env → env.

Definition assign (x : string) (rhs : env → Q) : stmt :=
  λ e, <[x := rhs e]> e.

Definition seq_stmt (s1 s2 : stmt) : stmt := λ e, s2 (s1 e).

Definition ifte (b : env → bool) (s1 s2 : stmt) : stmt :=
  λ e, if b e then s1 e else s2 e.

Definition skip : stmt := λ e, e.

Notation "x ::= rhs" := (assign x rhs) (at level 60, no associativity).
Notation "s1 >> s2" := (seq_stmt s1 s2) (at level 61, left associativity).

(** A statement leaves variable [x] alone, and keeps [x] assigned once it
    is. *)
Definition preserves (x : string) (s : stmt) : Prop :=
  ∀ e, s e !! x = e !! x.

Definition keeps (x : string) (s : stmt) : Prop :=
  ∀ e, is_Some (e !! x) → is_Some (s e !! x).

Definition assigns (x : string) (s : stmt) : Prop :=
  ∀ e, is_Some (s e !! x).

(** ** The LIF update body ([plan_lif], lines 12-54) *)

Module Lif.

Local Open Scope Q_scope.

(** [a > b] and [a < b] of the kernel language, on exact rationals. *)
Definition Qgt_bool (a b : Q) : bool := negb (Qle_bool a b).
Definition Qlt_bool (a b : Q) : bool := negb (Qle_bool b a).

(** [textconf = dict(dt=dt, dt_inv=1. / dt, V_threshold=1.)]; the division
    raises for [dt = 0], in which case no body is rendered. *)
Record textconf : Type := {
  dt : Q;
  dt_inv : Q;
  V_threshold : Q
}.

Definition lif_textconf (dt0 : Q) : result textconf :=
  if Qeq_bool dt0 0 then Raise ZeroDivisionError
  else Ok {| dt := dt0; dt_inv := 1 / dt0; V_threshold := 1 |}.

(** The rendered body, statement by statement.  [j v w] hold the values
    read for the element and [tau ref] the parameters; [ov ow os] are
    written back afterwards. *)
Definition lif_text (c : textconf) : stmt :=
  "spiked" ::= (λ _, 0) >>
  "dV" ::= (λ e, (dt c / rd e "tau") * (rd e "j" - rd e "v")) >>
  "v" ::= (λ e, rd e "v" + rd e "dV") >>
  ifte (λ e, Qlt_bool (rd e "v") 0 || Qgt_bool (rd e "w") (2 * dt c))
    ("v" ::= (λ _, 0))
    (ifte (λ e, Qgt_bool (rd e "w") (dt c))
       ("v" ::= (λ e, rd e "v" * (1 - (rd e "w" - dt c) * dt_inv c)))
       skip) >>
  "spiked" ::= (λ e, if Qgt_bool (rd e "v") (V_threshold c) then 1 else 0) >>
  ifte (λ e, Qgt_bool (rd e "v") (V_threshold c))
    ("overshoot" ::= (λ e, dt c * (rd e "v" - V_threshold c) / rd e "dV") >>
     "w" ::= (λ e, rd e "ref" - rd e "overshoot" + dt c) >>
     "v" ::= (λ _, 0))
    ("w" ::= (λ e, rd e "w" - dt c)) >>
  "ov" ::= (λ e, rd e "v") >>
  "ow" ::= (λ e, rd e "w") >>
  "os" ::= (λ e, if Qeq_bool (rd e "spiked") 0 then 0 else 1).

(** The triple a work item writes back after the body ran. *)
Definition lif_outputs (e : env) : Q * Q * Q :=
  (rd e "ov", rd e "ow", rd e "os").

(** The update law as the specification words it. *)
Definition spec_lif (dt tau ref j v w : Q) : Q * Q * Q :=
  let dV := (dt / tau) * (j - v) in
  let v' := v + dV in
  let v' :=
    if Qlt_bool v' 0 || Qgt_bool w (2 * dt) then 0
    else if Qgt_bool w dt then v' * (1 - (w - dt) / dt)
    else v' in
  let spiked := Qgt_bool v' 1 in
  if spiked then
    let overshoot := dt * (v' - 1) / dV in
    (0, ref - overshoot + dt, 1)
  else (v', w - dt, 0).

(** The voltage change and the voltage before the spike test, as the law
    has them. *)
Definition law_dV (dt tau j v : Q) : Q := (dt / tau) * (j - v).

Definition law_v (dt tau j v w : Q) : Q :=
  let v' := v + law_dV dt tau j v in
  if Qlt_bool v' 0 || Qgt_bool w (2 * dt) then 0
  else if Qgt_bool w dt then v' * (1 - (w - dt) / dt)
  else v'.

(** No division of the law is by zero: [tau] is not zero, and the voltage
    change of a neuron that spikes is not zero.  Only then is the exact
    quotient the number that the quotient of the device rounds. *)
Definition divisors_nonzero (dt tau j v w : Q) : Prop :=
  ¬ tau == 0
  ∧ (Qgt_bool (law_v dt tau j v w) 1 = true → ¬ law_dV dt tau j v == 0).

(** Componentwise rational equality of output triples. *)
Definition out_eq (a b : Q * Q * Q) : Prop :=
  a.1.1 == b.1.1 ∧ a.1.2 == b.1.2 ∧ a.2 == b.2.

End Lif.

(** ** The LIF update body in floating point *)

(** The body of [plan_lif] (lines 26-49) as the device runs it: the
    scalars are IEEE 754 binary floating-point numbers of one format, the
    scalar type [Vtype] of the arrays ([float] is binary32: precision 24,
    exponent bound 128), and every operation rounds to nearest, ties to
    even.  A numeric literal denotes a number of that format.  Infinities
    and NaN arise and propagate as the standard says; a comparison with
    NaN is false. *)
Module LifFloat.

Record format : Type := { prec : Z; emax : Z }.

Definition binary32 : format := {| prec := 24; emax := 128 |}.

(** The value of a local variable: a scalar, or the [char] of [spiked]. *)
Inductive cvalue : Type :=
  | CFloat (x : spec_float)
  | CChar (b : Z).

Abbreviation fenv := (gmap string cvalue).

Definition zero : spec_float := S754_zero false.

Definition rdf (e : fenv) (x : string) : spec_float :=
  match e !! x with Some (CFloat f) => f | _ => zero end.

Definition rdc (e : fenv) (x : string) : Z :=
  match e !! x with Some (CChar b) => b | _ => 0 end.

(** [x = rhs;] for a scalar and for a [char]. *)
Definition set_float (x : string) (rhs : fenv → spec_float) : fenv → fenv :=
  λ e, <[x := CFloat (rhs e)]> e.

Definition set_char (x : string) (rhs : fenv → Z) : fenv → fenv :=
  λ e, <[x := CChar (rhs e)]> e.

Definition then_ (s1 s2 : fenv → fenv) : fenv → fenv := λ e, s2 (s1 e).

Definition cond (b : fenv → bool) (s1 s2 : fenv → fenv) : fenv → fenv :=
  λ e, if b e then s1 e else s2 e.

(** What [textconf] renders to: the numbers that the literals [${dt}],
    [${dt_inv}] and [${V_threshold}] denote in the kernel. *)
Record textconf : Type := {
  dt : spec_float;
  dt_inv : spec_float;
  V_threshold : spec_float
}.

Section Body.

Variable fmt : format.

(** The literals [1.0] and [2]. *)
Definition one : spec_float :=
  S754_finite false (Z.to_pos (2 ^ (prec fmt - 1))) (1 - prec fmt).

Definition two : spec_float :=
  S754_finite false (Z.to_pos (2 ^ (prec fmt - 1))) (2 - prec fmt).

(** An integer as a scalar. *)
Definition of_Z (z : Z) : spec_float :=
  binary_normalize (prec fmt) (emax fmt) z 0 false.

Definition add : spec_float → spec_float → spec_float :=
  SFadd (prec fmt) (emax fmt).
Definition sub : spec_float → spec_float → spec_float :=
  SFsub (prec fmt) (emax fmt).
Definition mul : spec_float → spec_float → spec_float :=
  SFmul (prec fmt) (emax fmt).
Definition div : spec_float → spec_float → spec_float :=
  SFdiv (prec fmt) (emax fmt).
Definition lt (a b : spec_float) : bool := SFltb a b.
Definition gt (a b : spec_float) : bool := SFltb b a.

(** [V_threshold=1.] *)
Definition lif_textconf (dt0 dt_inv0 : spec_float) : textconf :=
  {| dt := dt0; dt_inv := dt_inv0; V_threshold := one |}.

(** The rendered body, statement by statement. *)
Definition lif_text (c : textconf) : fenv → fenv :=
  then_ (set_char "spiked" (λ _, 0)) (
  then_ (set_float "dV"
           (λ e, mul (div (dt c) (rdf e "tau"))
                   (sub (rdf e "j") (rdf e "v")))) (
  then_ (set_float "v" (λ e, add (rdf e "v") (rdf e "dV"))) (
  then_ (cond (λ e, lt (rdf e "v") zero || gt (rdf e "w") (mul two (dt c)))
           (set_float "v" (λ _, zero))
           (cond (λ e, gt (rdf e "w") (dt c))
              (set_float "v"
                 (λ e, mul (rdf e "v")
                         (sub one (mul (sub (rdf e "w") (dt c)) (dt_inv c)))))
              (λ e, e))) (
  then_ (set_char "spiked"
           (λ e, if gt (rdf e "v") (V_threshold c) then 1 else 0)) (
  then_ (cond (λ e, gt (rdf e "v") (V_threshold c))
           (then_ (set_float "overshoot"
                     (λ e, div (mul (dt c) (sub (rdf e "v") (V_threshold c)))
                             (rdf e "dV"))) (
            then_ (set_float "w"
                     (λ e, add (sub (rdf e "ref") (rdf e "overshoot"))
                             (dt c)))
                  (set_float "v" (λ _, zero))))
           (set_float "w" (λ e, sub (rdf e "w") (dt c)))) (
  then_ (set_float "ov" (λ e, rdf e "v")) (
  then_ (set_float "ow" (λ e, rdf e "w"))
        (set_float "os" (λ e, if rdc e "spiked" =? 0 then zero else one))
  ))))))).

(** The triple a work item writes back after the body ran. *)
Definition lif_outputs (e : fenv) : spec_float * spec_float * spec_float :=
  (rdf e "ov", rdf e "ow", rdf e "os").

(** The update law as the specification words it, each operation in the
    format. *)
Definition spec_lif (dt tau ref j v w : spec_float)
    : spec_float * spec_float * spec_float :=
  let dV := mul (div dt tau) (sub j v) in
  let v' := add v dV in
  let v' :=
    if lt v' zero || gt w (mul two dt) then zero
    else if gt w dt then mul v' (sub one (div (sub w dt) dt))
    else v' in
  let spiked := gt v' one in
  if spiked then
    let overshoot := div (mul dt (sub v' one)) dV in
    (zero, add (sub ref overshoot) dt, one)
  else (v', sub w dt, zero).

(** The same law with the refractory factor as the body has it:
    [(w - dt)] is multiplied by the rendered reciprocal [dt_inv], not
    divided by [dt]. *)
Definition body_law (c : textconf) (tau ref j v w : spec_float)
    : spec_float * spec_float * spec_float :=
  let dV := mul (div (dt c) tau) (sub j v) in
  let v' := add v dV in
  let v' :=
    if lt v' zero || gt w (mul two (dt c)) then zero
    else if gt w (dt c)
         then mul v' (sub one (mul (sub w (dt c)) (dt_inv c)))
    else v' in
  let spiked := gt v' (V_threshold c) in
  if spiked then
    let overshoot := div (mul (dt c) (sub v' (V_threshold c))) dV in
    (zero, add (sub ref overshoot) (dt c), one)
  else (v', sub w (dt c), zero).

End Body.

End LifFloat.

(** ** Ragged arrays *)

(** Modelled from the spec: the ragged-array container ([clraggedarray.py]
    is not among the sources).  Per group [i]: the element count
    [shape0s[i]], the declared row length [shape1s[i]] and the offset
    [starts[i]] of the group in the flat buffer [buf]; [ocldtype] names the
    scalar type.  [cl_shape0s], [cl_starts] and [cl_buf] are the device
    copies of the same tables. *)
Record CLRaggedArray : Type := {
  shape0s : list Z;
  shape1s : list Z;
  starts : list Z;
  buf : list Q;
  ocldtype : string
}.

(** [len(v)]: the number of groups. *)
Definition ra_len (a : CLRaggedArray) : nat := length (shape0s a).

(** Modelled from the spec: the layout contract of the container.  Every
    group has a length, none negative, and a start offset; a group that
    holds elements lies within the flat buffer, and two such groups do not
    overlap.  The groups may lie in the buffer in any order.  A group is
    given as the pair of its length and its start. *)
Definition group_within (buflen : Z) (g : Z * Z) : bool :=
  (0 <=? g.1) && ((g.1 =? 0) || ((0 <=? g.2) && (g.2 + g.1 <=? buflen))).

Definition groups_apart (g h : Z * Z) : bool :=
  (g.1 =? 0) || (h.1 =? 0) || (g.2 + g.1 <=? h.2) || (h.2 + h.1 <=? g.2).

Fixpoint pairwise_apart (gs : list (Z * Z)) : bool :=
  match gs with
  | [] => true
  | g :: gs' => forallb (groups_apart g) gs' && pairwise_apart gs'
  end.

Definition layout_ok (sizes sts : list Z) (buflen : Z) : bool :=
  bool_decide (length sts = length sizes)
  && forallb (group_within buflen) (zip sizes sts)
  && pairwise_apart (zip sizes sts).

(** The groups of an array obey the contract in its own buffer. *)
Definition ragged_wf (a : CLRaggedArray) : bool :=
  layout_ok (shape0s a) (starts a) (Z.of_nat (length (buf a))).

(** [equal_arrays(a, b)] on two tables, and on a table and a scalar. *)
Definition equal_arrays (a b : list Z) : bool := bool_decide (a = b).
Definition equal_arrays_scalar (a : list Z) (b : Z) : bool :=
  forallb (Z.eqb b) a.

(** ** Python values and dictionaries *)

(** A parameter value: a ragged array, a number ([float(v)] succeeds), or
    an object on which [float(v)] raises ([TypeError] for [None] or a list,
    [ValueError] for a string that is not a number). *)
Inductive pyvalue : Type :=
  | PyRagged (a : CLRaggedArray)
  | PyNumber (x : Q)
  | PyNoFloat (e : pyerr).

Definition py_float (v : pyvalue) : result Q :=
  match v with
  | PyNumber x => Ok x
  | PyNoFloat e => Raise e
  | PyRagged _ => Raise TypeError
  end.

Definition isinstance_ragged (v : pyvalue) : bool :=
  match v with PyRagged _ => true | _ => false end.

(** [dict(pairs)]: a later pair overrides an earlier one. *)
Definition py_dict {A} (pairs : list (string * A)) : gmap string A :=
  fold_left (λ m kv, <[kv.1 := kv.2]> m) pairs ∅.

(** ** [_plan_template], host side *)

Module Template.

(** Lines 92-102: the split of the parameters. *)
Definition classify_step
    (acc : result (gmap string (string * Q) * gmap string CLRaggedArray))
    (kv : string * pyvalue)
    : result (gmap string (string * Q) * gmap string CLRaggedArray) :=
  su ← acc ;;;
  match kv.2 with
  | PyRagged a => Ok (su.1, <[kv.1 := a]> su.2)
  | v => x ← py_float v ;;; Ok (<[kv.1 := ("float"%string, x)]> su.1, su.2)
  end.

Definition classify_list (items : list (string * pyvalue))
    : result (gmap string (string * Q) * gmap string CLRaggedArray) :=
  fold_left classify_step items (Ok (∅, ∅)).

Definition classify (parameters : gmap string pyvalue)
    : result (gmap string (string * Q) * gmap string CLRaggedArray) :=
  classify_list (map_to_list parameters).

(** Lines 108-119: one round of the loop over [avars]. *)
Definition resolve_step (N : nat) (base : CLRaggedArray)
    (acc : result (gmap string (string * string)))
    (kv : string * CLRaggedArray) : result (gmap string (string * string)) :=
  variables ← acc ;;;
  _ ← assert (bool_decide (variables !! kv.1 = None)) ;;;
  _ ← assert (bool_decide (ra_len kv.2 = N)) ;;;
  _ ← assert (equal_arrays (shape0s kv.2) (shape0s base)) ;;;
  _ ← assert (equal_arrays_scalar (shape1s kv.2) 1) ;;;
  Ok (<[kv.1 := (ocldtype kv.2, kv.1 +:+ "_starts[n]")]> variables).

Definition resolve (N : nat) (base : CLRaggedArray)
    (avars : list (string * CLRaggedArray))
    : result (gmap string (string * string)) :=
  fold_left (resolve_step N base) avars (Ok ∅).

(** [dict((k, variables[k]) for k in d.keys())]. *)
Definition restrict_list {A B} (variables : gmap string A)
    (items : list (string * B)) : result (gmap string A) :=
  fold_left
    (λ acc kv,
       m ← acc ;;;
       match variables !! kv.1 with
       | Some x => Ok (<[kv.1 := x]> m)
       | None => Raise KeyError
       end)
    items (Ok ∅).

Definition restrict_to {A B} (variables : gmap string A) (d : gmap string B)
    : result (gmap string A) :=
  restrict_list variables (map_to_list d).

(** Lines 235-238: the work size. *)
Definition np_max (l : list Z) : result Z :=
  match l with
  | [] => Raise ValueError
  | x :: l' => Ok (fold_left Z.max l' x)
  end.

Definition np_sum (l : list Z) : Z := fold_left Z.add l 0.

Definition gsize (n_elements : Z) (base : CLRaggedArray) : result (list Z) :=
  if 0 <? n_elements then
    Ok [Qceiling (inject_Z (np_sum (shape0s base)) / inject_Z n_elements)]
  else
    mx ← np_max (shape0s base) ;;;
    Ok [mx; Z.of_nat (ra_len base)].

(** The entry point [fn] (lines 131-141): one parameter per line of the
    rendered signature. *)
Inductive kparam : Type :=
  | PStarts (name : string)              (* __global const int *name_starts *)
  | PData (name : string) (const : bool) (* __global [const] type *in_name *)
  | PLengths.                            (* __global const int *lengths *)

Definition var_params {A} (const : bool) (items : list (string * A))
    : list kparam :=
  flat_map (λ kv, [PStarts kv.1; PData kv.1 const]) items.

Definition kernel_params {A} (ivariables ovariables : gmap string A)
    : list kparam :=
  var_params true (map_to_list ivariables)
  ++ var_params false (map_to_list ovariables)
  ++ [PLengths].

(** Lines 242-246: the arrays handed to [set_args]. *)
Inductive devarr : Type :=
  | DevInt (l : list Z)
  | DevData (l : list Q).

Definition var_args (avars : list (string * CLRaggedArray)) : list devarr :=
  flat_map (λ kv, [DevInt (starts kv.2); DevData (buf kv.2)]) avars.

Definition full_args (avars : list (string * CLRaggedArray))
    (base : CLRaggedArray) : list devarr :=
  var_args avars ++ [DevInt (shape0s base)].

End Template.

(** ** The rendered kernel [fn] *)

Module Kernel.

Import Template.

(** What the rendered source text depends on ([textconf], line 124); the
    update-rule text enters by its meaning on the local variables. *)
Record kernel : Type := {
  kn_N : nat;
  kn_n_elements : Z;
  kn_ivariables : gmap string (string * string);
  kn_ovariables : gmap string (string * string);
  kn_variables : gmap string (string * string);
  kn_sparams : gmap string (string * Q);
  kn_core : env → env
}.

(** Accesses to the length table and to the data buffers, in program
    order. *)
Inductive access : Type :=
  | RdLengths (n : nat)
  | Rd (name : string) (addr : Z)
  | Wr (name : string) (addr : Z).

(** Device memory as [fn] sees it through its arguments: per variable the
    table [name_starts] and the buffer [in_name], and the shared table
    [lengths].  Only the buffers change; [km_log] records the accesses. *)
Record kmem : Type := {
  km_starts : gmap string (list Z);
  km_data : gmap string (list Q);
  km_lengths : list Z;
  km_log : list access
}.

Definition set_data (st : kmem) (d : gmap string (list Q)) : kmem :=
  {| km_starts := km_starts st; km_data := d;
     km_lengths := km_lengths st; km_log := km_log st |}.

Definition set_log (st : kmem) (l : list access) : kmem :=
  {| km_starts := km_starts st; km_data := km_data st;
     km_lengths := km_lengths st; km_log := l |}.

Definition note (a : access) (st : kmem) : kmem :=
  set_log st (km_log st ++ [a]).

(** [l[i]] and [l[i] = x] on a C array. *)
Definition idx {A} (l : list A) (i : Z) : option A :=
  if i <? 0 then None else l !! Z.to_nat i.

Definition upd {A} (l : list A) (i : Z) (x : A) : option (list A) :=
  if (0 <=? i) && (i <? Z.of_nat (length l))
  then Some (<[Z.to_nat i := x]> l) else None.

Definition load (name : string) (addr : Z) (st : kmem) : option (Q * kmem) :=
  l ← km_data st !! name;
  x ← idx l addr;
  Some (x, note (Rd name addr) st).

Definition store (name : string) (addr : Z) (x : Q) (st : kmem)
    : option kmem :=
  l ← km_data st !! name;
  l' ← upd l addr x;
  Some (note (Wr name addr) (set_data st (<[name := l']> (km_data st)))).

(** [name_starts[n]] *)
Definition start_of (st : kmem) (name : string) (n : nat) : option Z :=
  t ← km_starts st !! name;
  t !! n.

(** The offset of element [m] of group [n] in [in_name]. *)
Definition elem_addr (st : kmem) (name : string) (n : nat) (m : Z)
    : option Z :=
  off ← start_of st name n;
  Some (off + m).

Definition read_lengths (n : nat) (st : kmem) : option (Z * kmem) :=
  l ← km_lengths st !! n;
  Some (l, note (RdLengths n) st).

(** [name = <read at addr name>] for each read variable, and
    [<write at addr name> = name] for each write variable. *)
Fixpoint read_vars (names : list string) (addr : string → option Z)
    (e : env) (st : kmem) : option (env * kmem) :=
  match names with
  | [] => Some (e, st)
  | x :: names' =>
      a ← addr x;
      r ← load x a st;
      read_vars names' addr (<[x := r.1]> e) r.2
  end.

Fixpoint write_vars (names : list string) (addr : string → option Z)
    (e : env) (st : kmem) : option kmem :=
  match names with
  | [] => Some st
  | x :: names' =>
      a ← addr x;
      v ← e !! x;
      st' ← store x a v st;
      write_vars names' addr e st'
  end.

Definition keys {A} (d : gmap string A) : list string :=
  (map_to_list d).*1.

(** The [const type name = value;] lines of the static parameters. *)
Definition sparam_env (sparams : gmap string (string * Q)) : env :=
  snd <$> sparams.

(** *** [n_elements = 0]: lines 163-173 and 220-226 *)

Definition blocked_item (k : kernel) (m : Z) (n : nat) (st : kmem)
    : option kmem :=
  (* const int M = lengths[n]; if (m >= M) return; *)
  r ← read_lengths n st;
  if r.1 <=? m then Some r.2
  else
    (* type name = in_name[name_starts[n] + m]; *)
    let addr := λ x, elem_addr st x n m in
    es ← read_vars (keys (kn_ivariables k)) addr ∅ r.2;
    let e := sparam_env (kn_sparams k) ∪ es.1 in
    let e := kn_core k e in
    (* in_name[name_starts[n] + m] = name; *)
    write_vars (keys (kn_ovariables k)) addr e es.2.

(** *** [n_elements > 0]: lines 145-160 and 186-218 *)

(** [while (m >= lengths[n]) { m -= lengths[n]; n++; }] where [rest] is the
    table from index [n] on: reading past its end is the fault. *)
Fixpoint walk (rest : list Z) (m : Z) (n : nat) (log : list access)
    : option (Z * nat * list access) :=
  match rest with
  | [] => None
  | l :: rest' =>
      let log := log ++ [RdLengths n] in
      if l <=? m then walk rest' (m - l) (S n) log
      else Some (m, n, log)
  end.

(** [cur_name = in_name + name_starts[n] + m], as offsets into [in_name]. *)
Fixpoint cur_at (st : kmem) (names : list string) (n : nat) (m : Z)
    : option (gmap string Z) :=
  match names with
  | [] => Some ∅
  | x :: names' =>
      off ← start_of st x n;
      c ← cur_at st names' n m;
      Some (<[x := off + m]> c)
  end.

(** The unrolled iterations [ii = n_elements - left, ...]. *)
Fixpoint flat_loop (k : kernel) (left : nat) (m : Z) (n : nat)
    (cur : gmap string Z) (e : env) (st : kmem) : option kmem :=
  match left with
  | O => Some st
  | S left' =>
      (* name = *cur_name; *)
      es ← read_vars (keys (kn_ivariables k)) (λ x, cur !! x) e st;
      let e := kn_core k es.1 in
      (* *cur_name = name; *)
      st ← write_vars (keys (kn_ovariables k)) (λ x, cur !! x) e es.2;
      match left' with
      | O => Some st
      | S _ =>
          (* m++; if (m >= lengths[n]) *)
          let m := m + 1 in
          r ← read_lengths n st;
          if r.1 <=? m then
            (* n++; m = 0; if (n >= N) return; cur_name = in_name + offset; *)
            let n := S n in
            let m := 0 in
            if bool_decide (kn_N k ≤ n)%nat then Some r.2
            else
              cur ← cur_at r.2 (keys (kn_variables k)) n 0;
              flat_loop k left' m n cur e r.2
          else
            (* cur_name++; *)
            flat_loop k left' m n (Z.succ <$> cur) e r.2
      end
  end.

Definition flat_item (k : kernel) (gid : nat) (st : kmem) : option kmem :=
  (* int m = gid * n_elements, n = 0; while ...; if (n >= N) return; *)
  w ← walk (km_lengths st) (Z.of_nat gid * kn_n_elements k) 0 (km_log st);
  let '(m, n, log) := w in
  let st := set_log st log in
  if bool_decide (kn_N k ≤ n)%nat then Some st
  else
    cur ← cur_at st (keys (kn_ivariables k) ++ keys (kn_ovariables k)) n m;
    flat_loop k (Z.to_nat (kn_n_elements k)) m n cur
      (sparam_env (kn_sparams k)) st.

(** *** Launching the grid *)

Definition run_items {I} (item : I → kmem → option kmem) (ids : list I)
    (st : kmem) : option kmem :=
  fold_left (λ acc i, st ← acc; item i st) ids (Some st).

(** The ids [(m, n)] of a [g0] by [g1] grid. *)
Definition grid (g0 g1 : nat) : list (nat * nat) :=
  n ← seq 0 g1; m ← seq 0 g0; [(m, n)].

Definition launch (k : kernel) (gs : list Z) (st : kmem) : option kmem :=
  if 0 <? kn_n_elements k then
    match gs with
    | [g] => run_items (flat_item k) (seq 0 (Z.to_nat g)) st
    | _ => None
    end
  else
    match gs with
    | [g0; g1] =>
        run_items (λ mn, blocked_item k (Z.of_nat mn.1) mn.2)
          (grid (Z.to_nat g0) (Z.to_nat g1)) st
    | _ => None
    end.

(** [_fn.set_args]: the arguments meet the parameters by position. *)
Fixpoint bind (ps : list kparam) (args : list devarr) (st : kmem)
    : option kmem :=
  match ps, args with
  | [], [] => Some st
  | PStarts x :: ps', DevInt l :: args' =>
      bind ps' args'
        {| km_starts := <[x := l]> (km_starts st); km_data := km_data st;
           km_lengths := km_lengths st; km_log := km_log st |}
  | PData x _ :: ps', DevData l :: args' =>
      bind ps' args' (set_data st (<[x := l]> (km_data st)))
  | PLengths :: ps', DevInt l :: args' =>
      bind ps' args'
        {| km_starts := km_starts st; km_data := km_data st;
           km_lengths := l; km_log := km_log st |}
  | _, _ => None
  end.

(** The effect of binding the pair of one variable. *)
Definition bind_var (st : kmem) (kv : string * CLRaggedArray) : kmem :=
  {| km_starts := <[kv.1 := starts kv.2]> (km_starts st);
     km_data := <[kv.1 := buf kv.2]> (km_data st);
     km_lengths := km_lengths st; km_log := km_log st |}.

(** The tables and the buffer of a variable are bound, and they obey the
    layout contract for the bound length table. *)
Definition var_okb (st : kmem) (name : string) : bool :=
  match km_starts st !! name, km_data st !! name with
  | Some sts, Some b =>
      layout_ok (km_lengths st) sts (Z.of_nat (length b))
  | _, _ => false
  end.

(** The value at an address of a buffer, and a buffer store, as total
    functions (used where the access is known to be in range). *)
Definition peek (d : gmap string (list Q)) (name : string) (a : Z) : Q :=
  default 0%Q (b ← d !! name; idx b a).

Definition poke (d : gmap string (list Q)) (name : string) (a : Z) (v : Q)
    : gmap string (list Q) :=
  match d !! name with
  | Some b => <[name := <[Z.to_nat a := v]> b]> d
  | None => d
  end.

(** A variable is readable at the address [addr] gives it, and writable
    there with a value at hand. *)
Definition readable (d : gmap string (list Q)) (addr : string → option Z)
    (x : string) : Prop :=
  ∃ a b, addr x = Some a ∧ d !! x = Some b ∧ 0 ≤ a < Z.of_nat (length b).

Definition writable (d : gmap string (list Q)) (addr : string → option Z)
    (e : env) (x : string) : Prop :=
  readable d addr x ∧ is_Some (e !! x).

Definition at_addr (addr : string → option Z) (x : string) : Z :=
  default 0 (addr x).

(** *** The update as a function of the element *)

(** The elements [(n, m)] of the groups from group [n] on, in the order of
    the flat index. *)
Fixpoint elems_from (n : nat) (rest : list Z) : list (nat * Z) :=
  match rest with
  | [] => []
  | l :: rest' =>
      ((λ i, (n, Z.of_nat i)) <$> seq 0 (Z.to_nat l))
      ++ elems_from (S n) rest'
  end.

Definition elems (lengths : list Z) : list (nat * Z) := elems_from 0 lengths.

(** The first [cnt] elements of group [n]. *)
Definition row (n : nat) (cnt : nat) : list (nat * Z) :=
  (λ i, (n, Z.of_nat i)) <$> seq 0 cnt.

(** The elements from element [m] of group [n] on; [l] is the length of
    group [n]. *)
Definition elems_at (lengths : list Z) (n : nat) (l m : Z)
    : list (nat * Z) :=
  ((λ i, (n, m + Z.of_nat i)) <$> seq 0 (Z.to_nat (l - m)))
  ++ elems_from (S n) (drop (S n) lengths).

(** The effect on the buffers of updating element [nm]: read the read
    variables there, run the update rule with the constants in scope, write
    the write variables there. *)
Definition visit (k : kernel) (st : kmem) (nm : nat * Z)
    (d : gmap string (list Q)) : gmap string (list Q) :=
  let addr := λ x, elem_addr st x nm.1 nm.2 in
  let e :=
    sparam_env (kn_sparams k)
    ∪ fold_left (λ e x, <[x := peek d x (at_addr addr x)]> e)
        (keys (kn_ivariables k)) ∅ in
  let e := kn_core k e in
  fold_left (λ d y, poke d y (at_addr addr y) (rd e y))
    (keys (kn_ovariables k)) d.

(** The accesses to data buffers in a log. *)
Definition data_accesses (log : list access) : list access :=
  List.filter (λ a, match a with RdLengths _ => false | _ => true end) log.

(** The buffer accesses of the update of element [nm]. *)
Definition elem_accesses (k : kernel) (st : kmem) (nm : nat * Z)
    : list access :=
  let addr := λ x, elem_addr st x nm.1 nm.2 in
  ((λ x, Rd x (at_addr addr x)) <$> keys (kn_ivariables k))
  ++ ((λ x, Wr x (at_addr addr x)) <$> keys (kn_ovariables k)).

Definition visit_all (k : kernel) (st : kmem) (l : list (nat * Z))
    (d : gmap string (list Q)) : gmap string (list Q) :=
  fold_left (λ d nm, visit k st nm d) l d.

(** Two memories with the same tables and buffers of the same sizes. *)
Definition same_shape (st st' : kmem) : Prop :=
  km_starts st' = km_starts st ∧ km_lengths st' = km_lengths st
  ∧ ∀ x, length <$> km_data st' !! x = length <$> km_data st !! x.

(** The update rule assigns every write variable, its results depend on
    the values read and on the constants only, and it leaves the constants
    alone; a constant does not bear the name of a read variable. *)
Definition core_ok (k : kernel) : Prop :=
  (∀ e y, y ∈ keys (kn_ovariables k) → is_Some (kn_core k e !! y))
  ∧ (∀ e e',
       (∀ x, x ∈ keys (kn_ivariables k) → e !! x = e' !! x) →
       (∀ x, is_Some (kn_sparams k !! x) → e !! x = e' !! x) →
       ∀ y, y ∈ keys (kn_ovariables k) →
            kn_core k e !! y = kn_core k e' !! y)
  ∧ (∀ e x, is_Some (kn_sparams k !! x) → kn_core k e !! x = e !! x)
  ∧ (∀ x, x ∈ keys (kn_ivariables k) → kn_sparams k !! x = None).

(** The kernel with another [n_elements]. *)
Definition with_n_elements (k : kernel) (n_elements : Z) : kernel :=
  {| kn_N := kn_N k; kn_n_elements := n_elements;
     kn_ivariables := kn_ivariables k; kn_ovariables := kn_ovariables k;
     kn_variables := kn_variables k; kn_sparams := kn_sparams k;
     kn_core := kn_core k |}.

(** The memory fits the kernel: the table has [N] entries, every variable
    of the kernel is bound and obeys the layout contract, and the read and
    write variables are among the variables. *)
Definition mem_ok (k : kernel) (st : kmem) : Prop :=
  kn_N k = length (km_lengths st)
  ∧ (∀ x, x ∈ keys (kn_variables k) → var_okb st x = true)
  ∧ (∀ x, x ∈ keys (kn_ivariables k) ++ keys (kn_ovariables k) →
          x ∈ keys (kn_variables k)).

Definition empty_mem : kmem :=
  {| km_starts := ∅; km_data := ∅; km_lengths := []; km_log := [] |}.

End Kernel.

(** ** [_plan_template] and [plan_lif] *)

Module Plan.

Import Template Kernel.

(** The [Plan] returned: the built kernel, its work size and the arrays it
    was bound with.  The name the [Plan] is given is left out: by line 249
    the loop of line 243 has rebound [name] to the name of the last
    variable of [avars]. *)
Record plan : Type := {
  plan_tag : option string;
  plan_fn : kernel;
  plan_gsize : list Z;
  plan_full_args : list devarr
}.

(** [inputs.values()[0]]: the input used as reference for the lengths. *)
Definition reference (inputs : gmap string CLRaggedArray)
    : result CLRaggedArray :=
  match map_to_list inputs with
  | [] => Raise IndexError
  | kv :: _ => Ok kv.2
  end.

Definition plan_template (name : string) (core : env → env)
    (tag : option string) (n_elements : Z)
    (inputs outputs : gmap string CLRaggedArray)
    (parameters : gmap string pyvalue) : result plan :=
  base ← reference inputs ;;;
  let N := ra_len base in
  su ← classify parameters ;;;
  let sparams := su.1 in
  let uparams := su.2 in
  let ivars := py_dict (map_to_list inputs ++ map_to_list uparams) in
  let ovars := outputs in
  let avars := map_to_list ivars ++ map_to_list ovars in
  variables ← resolve N base avars ;;;
  ivariables ← restrict_to variables ivars ;;;
  ovariables ← restrict_to variables ovars ;;;
  gs ← gsize n_elements base ;;;
  Ok {| plan_tag := tag;
        plan_fn := {| kn_N := N; kn_n_elements := n_elements;
                      kn_ivariables := ivariables;
                      kn_ovariables := ovariables;
                      kn_variables := variables;
                      kn_sparams := sparams; kn_core := core |};
        plan_gsize := gs;
        plan_full_args := full_args avars base |}.

(** One invocation of the plan; the result is the device memory after all
    work items ran.  The arguments meet the parameters by name here;
    [Ordered.bound] binds them by position, in the order of CPython. *)
Definition bound (p : plan) : option kmem :=
  bind (kernel_params (kn_ivariables (plan_fn p)) (kn_ovariables (plan_fn p)))
    (plan_full_args p) empty_mem.

Definition invoke (p : plan) : option kmem :=
  st ← bound p;
  launch (plan_fn p) (plan_gsize p) st.

(** Build, then invoke once. *)
Definition run (r : result plan) : option kmem :=
  match r with
  | Ok p => invoke p
  | Raise _ => None
  end.

(** [plan_lif]: always built with [n_elements = 0]. *)
Definition plan_lif (J V W OV OW OS : CLRaggedArray) (ref tau : pyvalue)
    (dt0 : Q) (tag : option string) : result plan :=
  let inputs : gmap string CLRaggedArray :=
    py_dict [("j"%string, J); ("v"%string, V); ("w"%string, W)] in
  let outputs : gmap string CLRaggedArray :=
    py_dict [("ov"%string, OV); ("ow"%string, OW); ("os"%string, OS)] in
  let parameters : gmap string pyvalue :=
    py_dict [("tau"%string, tau); ("ref"%string, ref)] in
  c ← Lif.lif_textconf dt0 ;;;
  plan_template "lif_step" (Lif.lif_text c) tag 0 inputs outputs parameters.

(** The memory [fn] sees once the arrays of the variables [avars] and the
    length table of [base] are bound. *)
Definition bound_mem (avars : list (string * CLRaggedArray))
    (base : CLRaggedArray) : kmem :=
  {| km_starts := starts <$> py_dict avars;
     km_data := buf <$> py_dict avars;
     km_lengths := shape0s base;
     km_log := [] |}.

End Plan.

(** ** The iteration order of Python dictionaries *)

(** The order in which a dictionary yields its items decides the order of
    the kernel's parameters and of the arguments bound to them.  This is
    the dictionary of CPython 2.7 ([dictobject.c], [stringobject.c]) with
    string keys, on a platform whose [long] has 64 bits and with hash
    randomisation off, the default: an open-addressing table of 8 slots
    that grows when two thirds are used, iterated in slot order.  No key is
    ever deleted here, so every used slot holds an item. *)
Module PyDict.

Definition word (x : Z) : Z := x mod 2 ^ 64.

Definition ord (a : Ascii.ascii) : Z := Z.of_N (Ascii.N_of_ascii a).

(** [string_hash]: [x = s[0] << 7], then [x = (1000003 * x) ^ c] for each
    character, then [x ^= len(s)]; the result is a [long], read here as an
    unsigned word ([-1] is replaced by [-2]). *)
Definition string_hash (s : string) : Z :=
  match s with
  | EmptyString => 0
  | String a _ =>
      let x := fold_left (λ x c, Z.lxor (word (1000003 * x)) (ord c))
                 (String.list_ascii_of_string s) (Z.shiftl (ord a) 7) in
      let x := Z.lxor x (Z.of_nat (String.length s)) in
      if x =? 2 ^ 64 - 1 then 2 ^ 64 - 2 else x
  end.

(** The table: per slot an item with its key's hash, or nothing. *)
Abbreviation dict A := (list (option (string * Z * A))).

Definition ma_mask {A} (d : dict A) : Z := Z.of_nat (length d) - 1.

Definition ma_used {A} (d : dict A) : Z :=
  Z.of_nat (length (omap id d)).

Definition new_table {A} (size : Z) : dict A :=
  replicate (Z.to_nat size) None.

(** [{}] *)
Definition empty {A} : dict A := new_table 8.

(** [lookdict_string]: the slot that holds [key], or the free slot where
    it goes.  The probe starts at [hash & mask] and goes on with
    [i = (i << 2) + i + perturb + 1], [perturb >>= 5].  A table always
    keeps a free slot and the probe reaches every slot; [fuel] bounds the
    number of probes. *)
Fixpoint probe {A} (fuel : nat) (d : dict A) (key : string) (i perturb : Z)
    : option nat :=
  match fuel with
  | O => None
  | S fuel' =>
      let slot := Z.to_nat (Z.land i (ma_mask d)) in
      match d !! slot with
      | Some None => Some slot
      | Some (Some (k, _, _)) =>
          if String.eqb k key then Some slot
          else probe fuel' d key (word (5 * i + perturb + 1))
                 (Z.shiftr perturb 5)
      | None => None
      end
  end.

Definition lookdict {A} (d : dict A) (key : string) (hash : Z) : option nat :=
  probe (length d + 64) d key (Z.land hash (ma_mask d)) hash.

(** [insertdict]: the value of a key that is present is replaced in its
    slot. *)
Definition insertdict {A} (d : dict A) (key : string) (hash : Z) (value : A)
    : dict A :=
  match lookdict d key hash with
  | Some slot => <[slot := Some (key, hash, value)]> d
  | None => d
  end.

Definition insert_all {A} (items : dict A) (d : dict A) : dict A :=
  fold_left
    (λ t e, match e with
            | Some (k, h, v) => insertdict t k h v
            | None => t
            end)
    items d.

(** [dictresize]: the smallest power of two above [minused], from 8 on;
    the items move to the new table in the order of their slots. *)
Fixpoint grow (fuel : nat) (newsize minused : Z) : Z :=
  match fuel with
  | O => newsize
  | S fuel' =>
      if newsize <=? minused then grow fuel' (2 * newsize) minused
      else newsize
  end.

Definition dictresize {A} (d : dict A) (minused : Z) : dict A :=
  insert_all d (new_table (grow 60 8 minused)).

(** [d[key] = value] ([PyDict_SetItem]). *)
Definition setitem {A} (d : dict A) (key : string) (value : A) : dict A :=
  let n_used := ma_used d in
  let d' := insertdict d key (string_hash key) value in
  if (n_used <? ma_used d') && (2 * (ma_mask d' + 1) <=? 3 * ma_used d')
  then dictresize d' ((if 50000 <? ma_used d' then 2 else 4) * ma_used d')
  else d'.

(** [d.items()], [d.keys()] and [d.values()]: the used slots in order. *)
Definition items {A} (d : dict A) : list (string * A) :=
  omap (λ e, (λ khv : string * Z * A, (khv.1.1, khv.2)) <$> e) d.

Definition keys {A} (d : dict A) : list string := (items d).*1.

Definition values {A} (d : dict A) : list A := (items d).*2.

(** [dict(pairs)] on a sequence of pairs. *)
Definition of_items {A} (pairs : list (string * A)) : dict A :=
  fold_left (λ d kv, setitem d kv.1 kv.2) pairs empty.

(** [a.update(b)] on a dictionary ([PyDict_Merge]): one resize at the
    start, then the items of [b] in the order of their slots. *)
Definition merge {A} (a b : dict A) : dict A :=
  if ma_used b =? 0 then a
  else
    let a :=
      if 2 * (ma_mask a + 1) <=? 3 * (ma_used a + ma_used b)
      then dictresize a (2 * (ma_used a + ma_used b)) else a in
    insert_all b a.

(** [dict(d)] on a dictionary. *)
Definition copy {A} (d : dict A) : dict A := merge empty d.

(** [dict(k1=v1, ..., kn=vn)]: the keyword dictionary of the call is
    filled from the last keyword to the first, and then copied. *)
Definition kwargs {A} (pairs : list (string * A)) : dict A :=
  copy (of_items (rev pairs)).

(** The contents, without the order. *)
Definition contents {A} (d : dict A) : gmap string A := py_dict (items d).

End PyDict.

(** ** [_plan_template]: the order of parameters and arguments *)

(** The lines of [_plan_template] that fix the order of the kernel's
    parameters and of the arguments bound to them, on dictionaries with
    their order of iteration.  The parameters are classified without
    error and the assertions of the layout resolution hold: [variables[k]]
    is the pair of the scalar type of the array named [k] and its offset
    expression. *)
Module Ordered.

Import Template Kernel.

(** Lines 92-102: [uparams]. *)
Definition uparams (parameters : PyDict.dict pyvalue)
    : PyDict.dict CLRaggedArray :=
  fold_left
    (λ u kv, match kv.2 with
             | PyRagged a => PyDict.setitem u kv.1 a
             | _ => u
             end)
    (PyDict.items parameters) PyDict.empty.

(** Line 104: [ivars = dict(inputs.items() + uparams.items())]. *)
Definition ivars (inputs : PyDict.dict CLRaggedArray)
    (parameters : PyDict.dict pyvalue) : PyDict.dict CLRaggedArray :=
  PyDict.of_items (PyDict.items inputs ++ PyDict.items (uparams parameters)).

(** Line 105: [ovars = dict(outputs)]. *)
Definition ovars (outputs : PyDict.dict CLRaggedArray)
    : PyDict.dict CLRaggedArray :=
  PyDict.copy outputs.

(** Line 106: [avars = ivars.items() + ovars.items()]. *)
Definition avars (inputs outputs : PyDict.dict CLRaggedArray)
    (parameters : PyDict.dict pyvalue) : list (string * CLRaggedArray) :=
  PyDict.items (ivars inputs parameters) ++ PyDict.items (ovars outputs).

(** Lines 121-122: [dict((k, variables[k]) for k in d.keys())]. *)
Definition view (d : PyDict.dict CLRaggedArray)
    : PyDict.dict (string * string) :=
  PyDict.of_items
    ((λ kv, (kv.1, (ocldtype kv.2, kv.1 +:+ "_starts[n]")))
       <$> PyDict.items d).

(** Lines 131-141: the parameters of [fn]. *)
Definition signature (inputs outputs : PyDict.dict CLRaggedArray)
    (parameters : PyDict.dict pyvalue) : list kparam :=
  var_params true (PyDict.items (view (ivars inputs parameters)))
  ++ var_params false (PyDict.items (view (ovars outputs)))
  ++ [PLengths].

(** Line 89 and lines 242-246: the arguments. *)
Definition arguments (inputs outputs : PyDict.dict CLRaggedArray)
    (parameters : PyDict.dict pyvalue) : option (list devarr) :=
  base ← head (PyDict.values inputs);
  Some (full_args (avars inputs outputs parameters) base).

(** Line 248: [_fn.set_args]. *)
Definition bound (inputs outputs : PyDict.dict CLRaggedArray)
    (parameters : PyDict.dict pyvalue) : option kmem :=
  args ← arguments inputs outputs parameters;
  bind (signature inputs outputs parameters) args empty_mem.

(** The dictionaries of [plan_lif], lines 15-17. *)
Definition lif_inputs (J V W : CLRaggedArray) : PyDict.dict CLRaggedArray :=
  PyDict.kwargs [("j"%string, J); ("v"%string, V); ("w"%string, W)].

Definition lif_outputs (OV OW OS : CLRaggedArray)
    : PyDict.dict CLRaggedArray :=
  PyDict.kwargs [("ov"%string, OV); ("ow"%string, OW); ("os"%string, OS)].

Definition lif_parameters (tau ref : pyvalue) : PyDict.dict pyvalue :=
  PyDict.kwargs [("tau"%string, tau); ("ref"%string, ref)].

End Ordered.

(** ** The specification's words *)

Module Words.

(** The partition of the parameters: a value that is a ragged collection
    is a dynamic parameter, any other value is a static parameter, the
    floating-point scalar it coerces to. *)
Definition dynamic_of (v : pyvalue) : option CLRaggedArray :=
  match v with PyRagged a => Some a | _ => None end.

Definition static_of (v : pyvalue) : option (string * Q) :=
  match v with PyNumber x => Some ("float"%string, x) | _ => None end.

(** Coercion to a floating-point scalar is impossible. *)
Definition uncoercible (v : pyvalue) : Prop :=
  match v with PyNoFloat _ => True | _ => False end.

(** A variable whose table of element counts, number of groups and row
    lengths agree with the reference collection. *)
Definition valid_var (N : nat) (base a : CLRaggedArray) : Prop :=
  ra_len a = N ∧ shape0s a = shape0s base
  ∧ Forall (λ r, r = 1) (shape1s a).

End Words.

(** ** The update, element by element *)

Module Elementwise.

Import Template Kernel.

(** [nm = (n, m)] is an element of the groups of the given lengths. *)
Definition is_elem (lengths : list Z) (nm : nat * Z) : Prop :=
  ∃ M, lengths !! nm.1 = Some M ∧ 0 ≤ nm.2 < M.

(** The local variables with which the update rule runs at element [nm] of
    the memory [st]: the constants, and every read variable at its value in
    the element. *)
Definition elem_env (k : kernel) (st : kmem) (nm : nat * Z) : env :=
  let addr := λ x, elem_addr st x nm.1 nm.2 in
  sparam_env (kn_sparams k)
  ∪ fold_left (λ e x, <[x := peek (km_data st) x (at_addr addr x)]> e)
      (keys (kn_ivariables k)) ∅.

(** Element [m] of group [n] of a ragged array. *)
Definition elem_value (a : CLRaggedArray) (n : nat) (m : Z) : option Q :=
  off ← starts a !! n; idx (buf a) (off + m).

(** The same element in the buffer bound to [name] in the memory [st]. *)
Definition elem_after (st : kmem) (name : string) (a : CLRaggedArray)
    (n : nat) (m : Z) : option Q :=
  off ← starts a !! n; b ← km_data st !! name; idx b (off + m).

(** The elements updated by the work items [ids] of the 2-D grid, in
    their order: the item [(m, n)] updates element [m] of group [n] when
    [m] is below the length of the group. *)
Definition active (lengths : list Z) (ids : list (nat * nat))
    : list (nat * Z) :=
  flat_map
    (λ mn, match lengths !! mn.2 with
           | Some M =>
               if Z.of_nat mn.1 <? M then [(mn.2, Z.of_nat mn.1)] else []
           | None => []
           end)
    ids.

End Elementwise.

(** ** Sample data *)

Module Sample.

Import Template Kernel Plan.
Local Open Scope Q_scope.

(** A ragged array with contiguous groups of the given lengths. *)
Definition ragged (lengths sts : list Z) (data : list Q) : CLRaggedArray :=
  {| shape0s := lengths; shape1s := (λ _, 1%Z) <$> lengths;
     starts := sts; buf := data; ocldtype := "float" |}.

Definition conf : Lif.textconf :=
  {| Lif.dt := 1 # 1000; Lif.dt_inv := 1000; Lif.V_threshold := 1 |}.

Definition locals : env :=
  py_dict [("j"%string, 1); ("v"%string, 0); ("w"%string, 0);
           ("tau"%string, 1 # 50); ("ref"%string, 1 # 500)].

(** A neuron at the threshold with a strong input current: it spikes. *)
Definition spiking : env :=
  py_dict [("j"%string, 60); ("v"%string, 1); ("w"%string, 0);
           ("tau"%string, 1 # 50); ("ref"%string, 1 # 500)].

Definition lif_parameters : gmap string pyvalue :=
  py_dict [("tau"%string, PyNumber (1 # 50));
           ("ref"%string, PyNumber (1 # 500))].

(** An input and a dynamic parameter of the same name [x]. *)
Definition clash_A : CLRaggedArray := ragged [2%Z] [0%Z] [1; 2].
Definition clash_B : CLRaggedArray := ragged [2%Z] [0%Z] [7; 8].
Definition clash_O : CLRaggedArray := ragged [2%Z] [0%Z] [0; 0].

Definition clash_plan : result plan :=
  plan_template "f" (λ e, e) None 0
    {[ "x"%string := clash_A ]} {[ "y"%string := clash_O ]}
    {[ "x"%string := PyRagged clash_B ]}.

(** A plan with the identity as update rule, built for each strategy. *)
Definition id_in : CLRaggedArray := ragged [1; 0; 2]%Z [0; 1; 1]%Z [1; 2; 3].
Definition id_out : CLRaggedArray := ragged [1; 0; 2]%Z [0; 1; 1]%Z [0; 0; 0].

Definition id_inputs : gmap string CLRaggedArray := {[ "x"%string := id_in ]}.
Definition id_outputs : gmap string CLRaggedArray :=
  {[ "y"%string := id_out ]}.

Definition id_plan (n_elements : Z) : result plan :=
  plan_template "copy" (λ e, <["y"%string := rd e "x"]> e) None n_elements
    id_inputs id_outputs ∅.

(** A plan with one input, one dynamic and one static parameter. *)
Definition gain : CLRaggedArray := ragged [1; 0; 2]%Z [0; 1; 1]%Z [2; 2; 2].

Definition mixed_parameters : gmap string pyvalue :=
  py_dict [("g"%string, PyRagged gain); ("b"%string, PyNumber (1 # 2))].

Definition mixed_plan (n_elements : Z) : result plan :=
  plan_template "affine"
    (λ e, <["y"%string := rd e "g" * rd e "x" + rd e "b"]> e) None n_elements
    id_inputs id_outputs mixed_parameters.

Definition mixed_static : gmap string (string * Q) :=
  {[ "b"%string := ("float"%string, 1 # 2) ]}.
Definition mixed_dynamic : gmap string CLRaggedArray :=
  {[ "g"%string := gain ]}.

(** One group of two elements. *)
Definition single_in : CLRaggedArray := ragged [2%Z] [0%Z] [5; 6].
Definition single_out : CLRaggedArray := ragged [2%Z] [0%Z] [0; 0].

Definition single_plan (n_elements : Z) : result plan :=
  plan_template "copy" (λ e, <["y"%string := rd e "x"]> e) None n_elements
    {[ "x"%string := single_in ]} {[ "y"%string := single_out ]} ∅.

(** The kernel and the bound memory of [id_plan]. *)
Definition id_kernel (n_elements : Z) : kernel :=
  {| kn_N := 3; kn_n_elements := n_elements;
     kn_ivariables := {[ "x"%string := ("float", "x_starts[n]")%string ]};
     kn_ovariables := {[ "y"%string := ("float", "y_starts[n]")%string ]};
     kn_variables :=
       {[ "x"%string := ("float", "x_starts[n]")%string;
          "y"%string := ("float", "y_starts[n]")%string ]};
     kn_sparams := ∅;
     kn_core := λ e, <["y"%string := rd e "x"]> e |}.

Definition id_mem : kmem :=
  bound_mem (map_to_list id_inputs ++ map_to_list id_outputs) id_in.

(** The LIF update on three groups of lengths [1; 0; 2]. *)
Definition lif_J : CLRaggedArray := ragged [1; 0; 2]%Z [0; 1; 1]%Z [1; 1; 1].
Definition lif_Z : CLRaggedArray := ragged [1; 0; 2]%Z [0; 1; 1]%Z [0; 0; 0].

Definition lif_inputs : gmap string CLRaggedArray :=
  py_dict [("j"%string, lif_J); ("v"%string, lif_Z); ("w"%string, lif_Z)].
Definition lif_outputs : gmap string CLRaggedArray :=
  py_dict [("ov"%string, lif_Z); ("ow"%string, lif_Z); ("os"%string, lif_Z)].

Definition lif_plan (n_elements : Z) : result plan :=
  plan_template "lif_step" (Lif.lif_text conf) None n_elements
    lif_inputs lif_outputs lif_parameters.

(** Groups of lengths [3; 0; 5; 1], and groups [2; 0] ending in an empty
    one. *)
Definition roll_in : CLRaggedArray :=
  ragged [3; 0; 5; 1]%Z [0; 3; 3; 8]%Z [1; 2; 3; 4; 5; 6; 7; 8; 9].
Definition roll_out : CLRaggedArray :=
  ragged [3; 0; 5; 1]%Z [0; 3; 3; 8]%Z [0; 0; 0; 0; 0; 0; 0; 0; 0].

Definition roll_plan (n_elements : Z) : result plan :=
  plan_template "copy" (λ e, <["y"%string := rd e "x"]> e) None n_elements
    {[ "x"%string := roll_in ]} {[ "y"%string := roll_out ]} ∅.

Definition tail_in : CLRaggedArray := ragged [2; 0]%Z [0; 2]%Z [1; 2].
Definition tail_out : CLRaggedArray := ragged [2; 0]%Z [0; 2]%Z [0; 0].

Definition tail_plan (n_elements : Z) : result plan :=
  plan_template "copy" (λ e, <["y"%string := rd e "x"]> e) None n_elements
    {[ "x"%string := tail_in ]} {[ "y"%string := tail_out ]} ∅.

(** The LIF update on three non-empty groups of lengths [2; 1; 3]. *)
Definition full_J : CLRaggedArray :=
  ragged [2; 1; 3]%Z [0; 2; 3]%Z [1; 60; 1; 1; 60; 1].
Definition full_V : CLRaggedArray :=
  ragged [2; 1; 3]%Z [0; 2; 3]%Z [0; 1; 0; 0; 1; 0].
Definition full_Z : CLRaggedArray :=
  ragged [2; 1; 3]%Z [0; 2; 3]%Z [0; 0; 0; 0; 0; 0].

Definition full_inputs : gmap string CLRaggedArray :=
  py_dict [("j"%string, full_J); ("v"%string, full_V); ("w"%string, full_Z)].
Definition full_outputs : gmap string CLRaggedArray :=
  py_dict [("ov"%string, full_Z); ("ow"%string, full_Z);
           ("os"%string, full_Z)].

Definition full_plan (n_elements : Z) : result plan :=
  plan_template "lif_step" (Lif.lif_text conf) None n_elements
    full_inputs full_outputs lif_parameters.

Definition lif_static : gmap string (string * Q) :=
  py_dict [("tau"%string, ("float"%string, 1 # 50));
           ("ref"%string, ("float"%string, 1 # 500))].

(** Two groups, both empty. *)
Definition hollow : CLRaggedArray := ragged [0; 0]%Z [0; 0]%Z [].

Definition hollow_plan (n_elements : Z) : result plan :=
  plan_template "copy" (λ e, <["y"%string := rd e "x"]> e) None n_elements
    {[ "x"%string := hollow ]} {[ "y"%string := hollow ]} ∅.

(** Two inputs whose names meet in one slot of a dictionary, and the plan
    that copies [v] to [y]. *)
Definition swap_F : CLRaggedArray := ragged [2%Z] [0%Z] [1; 2].
Definition swap_V : CLRaggedArray := ragged [2%Z] [0%Z] [7; 8].
Definition swap_O : CLRaggedArray := ragged [2%Z] [0%Z] [0; 0].

Definition swap_inputs : PyDict.dict CLRaggedArray :=
  PyDict.of_items [("f"%string, swap_F); ("v"%string, swap_V)].

Definition swap_inputs_rev : PyDict.dict CLRaggedArray :=
  PyDict.of_items [("v"%string, swap_V); ("f"%string, swap_F)].

Definition swap_outputs : PyDict.dict CLRaggedArray :=
  PyDict.of_items [("y"%string, swap_O)].

Definition swap_plan : result plan :=
  plan_template "pick" (λ e, <["y"%string := rd e "v"]> e) None 0
    (PyDict.contents swap_inputs) (PyDict.contents swap_outputs) ∅.

(** The binary32 number nearest to [a / b], the rendering of a step of
    0.001, and a neuron in its refractory period. *)
Definition f32 (a b : Z) : spec_float :=
  LifFloat.div LifFloat.binary32 (LifFloat.of_Z LifFloat.binary32 a)
    (LifFloat.of_Z LifFloat.binary32 b).

Definition conf32 : LifFloat.textconf :=
  LifFloat.lif_textconf LifFloat.binary32 (f32 1 1000) (f32 1000 1).

Definition locals32 : LifFloat.fenv :=
  {[ "j"%string := LifFloat.CFloat (f32 3 2);
     "v"%string := LifFloat.CFloat (f32 1 2);
     "w"%string := LifFloat.CFloat (f32 15 10000);
     "tau"%string := LifFloat.CFloat (f32 1 50);
     "ref"%string := LifFloat.CFloat (f32 1 500) ]}.

End Sample.

(** * Properties *)

(** ** The LIF body *)

Section LifFacts.

Import Lif.
Local Open Scope Q_scope.

Lemma rd_insert_eq (e : env) x q : rd (<[x := q]> e) x = q.
Proof. unfold rd. by rewrite lookup_insert_eq. Qed.

Lemma rd_insert_ne (e : env) x y q : x ≠ y → rd (<[x := q]> e) y = rd e y.
Proof. intros. unfold rd. by rewrite lookup_insert_ne. Qed.

Lemma rd_Some (e : env) x q : e !! x = Some q → rd e x = q.
Proof. intros H. unfold rd. by rewrite H. Qed.

Global Instance Qgt_bool_proper : Proper (Qeq ==> Qeq ==> eq) Qgt_bool.
Proof. intros a b Hab c d Hcd. unfold Qgt_bool. by rewrite Hab, Hcd. Qed.

Global Instance Qlt_bool_proper : Proper (Qeq ==> Qeq ==> eq) Qlt_bool.
Proof. intros a b Hab c d Hcd. unfold Qlt_bool. by rewrite Hab, Hcd. Qed.

Lemma lif_textconf_Ok dt0 c :
  lif_textconf dt0 = Ok c →
  ¬ dt0 == 0 ∧ dt c = dt0 ∧ dt_inv c = 1 / dt0 ∧ V_threshold c = 1.
Proof.
  unfold lif_textconf. destruct (Qeq_bool dt0 0) eqn:E; [done|].
  intros [= <-]. split; [|done].
  intros H. apply Qeq_bool_iff in H. congruence.
Qed.

End LifFacts.


(** Symbolic execution of one assignment: the facts [rd e y = q] at hand
    are carried over to the new local variables. *)
Lemma rd_assign_eq x rhs (e : env) : rd (assign x rhs e) x = rhs e.
Proof. apply rd_insert_eq. Qed.

Lemma rd_assign_ne x y rhs (e : env) :
  x ≠ y → rd (assign x rhs e) y = rd e y.
Proof. apply rd_insert_ne. Qed.

Ltac rd_facts_in e H :=
  repeat match goal with
         | F : rd e _ = _ |- _ => rewrite F in H
         end.

Ltac rd_facts e :=
  repeat match goal with
         | F : rd e _ = _ |- _ => rewrite F
         end.

Ltac rd_all :=
  repeat match goal with
         | F : rd _ _ = _ |- _ => rewrite F
         end.

Ltac exec_assign :=
  match goal with
  | |- context [assign ?x ?rhs ?e] =>
      is_var e;
      let Hx := fresh "Hx" in
      pose proof (rd_assign_eq x rhs e) as Hx;
      cbv beta in Hx; rd_facts_in e Hx;
      repeat match goal with
             | F : rd e ?y = ?q |- _ =>
                 first
                   [ let Hn := fresh "Hn" in
                     pose proof (rd_assign_ne x y rhs e
                                   ltac:(intros ?; discriminate)) as Hn;
                     rewrite F in Hn; clear F
                   | clear F ]
             end;
      let e' := fresh "e" in
      generalize dependent (assign x rhs e); intros e'; intros
  end.

Lemma ifte_eq b s1 s2 (e : env) :
  ifte b s1 s2 e = if b e then s1 e else s2 e.
Proof. reflexivity. Qed.

Ltac exec_ifte :=
  match goal with
  | |- context [ifte ?b ?s1 ?s2 ?e] =>
      is_var e; rewrite !(ifte_eq b s1 s2 e); cbv beta; rd_facts e
  end.


(** ** Python dictionaries *)

Section DictFacts.

Context {A : Type}.

Lemma py_dict_snoc (l : list (string * A)) k x :
  py_dict (l ++ [(k, x)]) = <[k := x]> (py_dict l).
Proof. unfold py_dict. by rewrite fold_left_app. Qed.

Lemma py_dict_rev (l : list (string * A)) :
  py_dict l = list_to_map (reverse l).
Proof.
  induction l as [|[k x] l IH] using rev_ind; [done|].
  by rewrite py_dict_snoc, reverse_snoc, IH.
Qed.

Lemma py_dict_items (m : gmap string A) : py_dict (map_to_list m) = m.
Proof.
  rewrite py_dict_rev.
  rewrite <- (list_to_map_to_list m) at 2.
  apply list_to_map_proper.
  - rewrite fmap_reverse, reverse_Permutation.
    apply NoDup_fst_map_to_list.
  - apply reverse_Permutation.
Qed.

Lemma py_dict_app (l1 l2 : list (string * A)) :
  py_dict (l1 ++ l2) = py_dict l2 ∪ py_dict l1.
Proof. by rewrite !py_dict_rev, reverse_app, list_to_map_app. Qed.

Lemma py_dict_merge (m1 m2 : gmap string A) :
  py_dict (map_to_list m1 ++ map_to_list m2) = m2 ∪ m1.
Proof. by rewrite py_dict_app, !py_dict_items. Qed.

End DictFacts.

(** In the model by name, two maps with the same keys list them in the
    same order. *)
Lemma keys_same_dom {A B} (m1 : gmap string A) (m2 : gmap string B) :
  dom m1 = dom m2 → Kernel.keys m1 = Kernel.keys m2.
Proof.
  intros Hdom. unfold Kernel.keys.
  assert (H : (λ _, ()) <$> m1 = (λ _, ()) <$> m2).
  { apply map_eq; intros i. rewrite !lookup_fmap.
    destruct (m1 !! i) eqn:E1, (m2 !! i) eqn:E2; try done.
    - apply not_elem_of_dom in E2. rewrite <- Hdom in E2.
      by apply not_elem_of_dom in E2; simplify_eq.
    - apply not_elem_of_dom in E1. rewrite Hdom in E1.
      by apply not_elem_of_dom in E1; simplify_eq. }
  apply (f_equal map_to_list) in H. rewrite !map_to_list_fmap in H.
  apply (f_equal (fmap fst)) in H.
  rewrite <- !list_fmap_compose in H.
  exact H.
Qed.

(** ** Classification of the parameters *)

Section ClassifyFacts.

Import Template Words.

Lemma classify_list_snoc l kv :
  classify_list (l ++ [kv]) = classify_step (classify_list l) kv.
Proof. unfold classify_list. by rewrite fold_left_app. Qed.

Lemma classify_list_spec (l : list (string * pyvalue)) :
  NoDup l.*1 →
  match classify_list l with
  | Ok su =>
      su.1 = omap static_of (list_to_map l : gmap string pyvalue)
      ∧ su.2 = omap dynamic_of (list_to_map l : gmap string pyvalue)
      ∧ Forall (λ kv, ¬ uncoercible kv.2) l
  | Raise _ => Exists (λ kv, uncoercible kv.2) l
  end.
Proof.
  induction l as [|[k v] l IH] using rev_ind; intros Hnd.
  { cbn. by rewrite !omap_empty. }
  rewrite fmap_app in Hnd. apply NoDup_app in Hnd as (Hnd & Hk & _).
  assert (Hfresh : k ∉ l.*1).
  { intros Hin. apply (Hk k Hin). cbn. left. }
  specialize (IH Hnd). rewrite classify_list_snoc.
  destruct (classify_list l) as [[sp up]|err]; cbn.
  - destruct IH as (Hsp & Hup & Hall). cbn in Hsp, Hup.
    assert (Hnone : (list_to_map l : gmap string pyvalue) !! k = None)
      by by apply not_elem_of_list_to_map.
    rewrite list_to_map_snoc by done.
    destruct v as [a|x|err]; cbn.
    + rewrite (omap_insert_Some dynamic_of _ k (PyRagged a) a) by done.
      rewrite (omap_insert_None static_of) by done.
      rewrite delete_id by (by rewrite lookup_omap, Hnone).
      subst. split_and!; try done.
      apply Forall_app; split; [done|]. apply Forall_singleton. cbn. tauto.
    + rewrite (omap_insert_Some static_of _ k (PyNumber x) ("float"%string, x))
        by done.
      rewrite (omap_insert_None dynamic_of) by done.
      rewrite delete_id by (by rewrite lookup_omap, Hnone).
      subst. split_and!; try done.
      apply Forall_app; split; [done|]. apply Forall_singleton. cbn. tauto.
    + apply Exists_app. right. by constructor.
  - apply Exists_app. by left.
Qed.

Lemma classify_spec (parameters : gmap string pyvalue) :
  match classify parameters with
  | Ok su =>
      su.1 = omap static_of parameters
      ∧ su.2 = omap dynamic_of parameters
      ∧ ∀ k v, parameters !! k = Some v → ¬ uncoercible v
  | Raise _ => ∃ k v, parameters !! k = Some v ∧ uncoercible v
  end.
Proof.
  pose proof (classify_list_spec (map_to_list parameters)
                (NoDup_fst_map_to_list _)) as H.
  unfold classify.
  destruct (classify_list (map_to_list parameters)) as [su|err].
  - rewrite list_to_map_to_list in H. destruct H as (? & ? & Hall).
    split_and!; try done. intros k v Hkv.
    rewrite Forall_forall in Hall.
    apply (Hall (k, v)). by apply elem_of_map_to_list.
  - apply Exists_exists in H as ([k v] & Hin & Hbad).
    exists k, v. split; [|done]. by apply elem_of_map_to_list.
Qed.

End ClassifyFacts.


(** ** Layout resolution *)

Section ResolveFacts.

Import Template Words.

Lemma equal_arrays_scalar_spec (l : list Z) :
  equal_arrays_scalar l 1 = true ↔ Forall (λ r, r = 1) l.
Proof.
  unfold equal_arrays_scalar.
  rewrite List.forallb_forall, Forall_forall.
  split; intros H r Hr.
  - apply list_elem_of_In, H, Z.eqb_eq in Hr. done.
  - apply list_elem_of_In, H in Hr. by apply Z.eqb_eq.
Qed.

Lemma resolve_snoc N base l kv :
  resolve N base (l ++ [kv]) = resolve_step N base (resolve N base l) kv.
Proof. unfold resolve. by rewrite fold_left_app. Qed.

(** The loop succeeds exactly on clash-free lists of valid variables, and
    then maps each name to its type and offset expression; it fails with
    an assertion error otherwise. *)
Lemma resolve_spec N base (l : list (string * CLRaggedArray)) :
  match resolve N base l with
  | Ok variables =>
      NoDup l.*1 ∧ Forall (λ kv, valid_var N base kv.2) l
      ∧ ∀ k, variables !! k =
             (λ a, (ocldtype a, k +:+ "_starts[n]")) <$>
               (list_to_map l : gmap string CLRaggedArray) !! k
  | Raise err =>
      err = AssertionError
      ∧ ¬ (NoDup l.*1 ∧ Forall (λ kv, valid_var N base kv.2) l)
  end.
Proof.
  induction l as [|[k a] l IH] using rev_ind.
  { cbn. split_and!; [constructor|constructor|]. intros k.
    by rewrite !lookup_empty. }
  rewrite resolve_snoc.
  destruct (resolve N base l) as [vars|err]; cbn.
  - destruct IH as (Hnd & Hall & Hvars).
    assert (Hin : vars !! k = None ↔ k ∉ l.*1).
    { rewrite Hvars, fmap_None. symmetry. apply not_elem_of_list_to_map. }
    assert (Hsnoc : NoDup (l ++ [(k, a)]).*1 ↔ k ∉ l.*1).
    { rewrite fmap_app, NoDup_app. cbn. split.
      - intros (_ & H & _) Hk. apply (H k Hk). left.
      - intros Hk. split_and!; [done| |apply NoDup_singleton].
        intros x Hx ->%list_elem_of_singleton. done. }
    unfold assert.
    case_bool_decide as Hfree; cbn.
    2:{ split; [done|]. intros [Hnd' _]. apply Hfree, Hin, Hsnoc, Hnd'. }
    case_bool_decide as Hlen; cbn.
    2:{ split; [done|]. intros [_ Hall'].
        apply Forall_app in Hall' as [_ Ha]. rewrite Forall_singleton in Ha.
        apply Hlen, Ha. }
    unfold equal_arrays. case_bool_decide as Hs0; cbn.
    2:{ split; [done|]. intros [_ Hall'].
        apply Forall_app in Hall' as [_ Ha]. rewrite Forall_singleton in Ha.
        apply Hs0, Ha. }
    destruct (equal_arrays_scalar (shape1s a) 1) eqn:Hs1; cbn.
    2:{ split; [done|]. intros [_ Hall'].
        apply Forall_app in Hall' as [_ Ha]. rewrite Forall_singleton in Ha.
        destruct Ha as (_ & _ & Ha). apply equal_arrays_scalar_spec in Ha.
        cbn in Ha. rewrite Ha in Hs1. discriminate. }
    apply equal_arrays_scalar_spec in Hs1.
    apply Hin in Hfree.
    split_and!.
    + by apply Hsnoc.
    + apply Forall_app. split; [done|]. by apply Forall_singleton.
    + intros k'. rewrite list_to_map_snoc by done.
      destruct (decide (k = k')) as [<-|Hne].
      * by rewrite !lookup_insert_eq.
      * by rewrite !lookup_insert_ne.
  - destruct IH as (-> & Hbad). split; [done|]. intros [Hnd Hall].
    apply Hbad. rewrite fmap_app in Hnd.
    apply NoDup_app in Hnd as (? & _ & _).
    apply Forall_app in Hall as [? _]. done.
Qed.

End ResolveFacts.

(** C4 (as the code behaves at an input and a dynamic parameter that share
    the name [x]).  The build succeeds: no error is raised, the parameter
    silently replaces the input, and the kernel is bound to the parameter's
    buffer [7; 8] in place of the input's [1; 2]. *)
Theorem name_clash_input_parameter_accepted :
  is_ok Sample.clash_plan = true
  ∧ (Plan.plan_full_args <$>
       match Sample.clash_plan with Ok p => Some p | Raise _ => None end)
    = Some [Template.DevInt [0]; Template.DevData [7%Q; 8%Q];
            Template.DevInt [0]; Template.DevData [0%Q; 0%Q];
            Template.DevInt [2]].
Proof. split; vm_compute; reflexivity. Qed.

(** ** The plan as a whole *)

Section PlanFacts.

Import Template Kernel Plan Words.

Lemma rbind_Ok {A B} (r : result A) (k : A → result B) b :
  rbind r k = Ok b → ∃ a, r = Ok a ∧ k a = Ok b.
Proof. destruct r as [a|]; cbn; [eauto|done]. Qed.

Lemma restrict_list_spec {A B} (variables : gmap string A)
    (l : list (string * B)) :
  Forall (λ kv, is_Some (variables !! kv.1)) l →
  ∃ m, restrict_list variables l = Ok m
       ∧ ∀ k, m !! k = if decide (k ∈ l.*1) then variables !! k else None.
Proof.
  induction l as [|[k b] l IH] using rev_ind; intros Hall.
  { exists ∅. split; [done|]. intros k. rewrite lookup_empty.
    case_decide as H; [|done]. by apply elem_of_nil in H. }
  apply Forall_app in Hall as [Hl Hk]. rewrite Forall_singleton in Hk.
  destruct (IH Hl) as (m & Hm & Hlook). destruct Hk as [x Hx]. cbn in Hx.
  exists (<[k := x]> m). split.
  - unfold restrict_list in *. rewrite fold_left_app, Hm. cbn. by rewrite Hx.
  - intros k'. rewrite fmap_app. cbn.
    destruct (decide (k = k')) as [<-|Hne].
    + rewrite lookup_insert_eq. rewrite decide_True; [done|].
      apply elem_of_app. right. left.
    + rewrite lookup_insert_ne, Hlook by done.
      repeat case_decide; try done.
      * exfalso. apply H0. apply elem_of_app. by left.
      * exfalso. apply elem_of_app in H0 as [?|Hin]; [done|].
        apply list_elem_of_singleton in Hin. done.
Qed.

Lemma restrict_to_spec {A B} (variables : gmap string A) (d : gmap string B) :
  (∀ k, is_Some (d !! k) → is_Some (variables !! k)) →
  ∃ m, restrict_to variables d = Ok m
       ∧ dom m = dom d
       ∧ ∀ k, is_Some (d !! k) → m !! k = variables !! k.
Proof.
  intros Hsub.
  destruct (restrict_list_spec variables (map_to_list d)) as (m & Hm & Hlook).
  { apply Forall_forall. intros [k b] Hin. apply Hsub.
    apply elem_of_map_to_list in Hin. by exists b. }
  assert (Hkeys : ∀ k, k ∈ (map_to_list d).*1 ↔ is_Some (d !! k)).
  { intros k. rewrite list_elem_of_fmap. split.
    - intros ([k' b] & -> & Hin). apply elem_of_map_to_list in Hin.
      by exists b.
    - intros [b Hb]. exists (k, b). split; [done|].
      by apply elem_of_map_to_list. }
  exists m. split; [exact Hm|]. split.
  - apply set_eq. intros k. rewrite !elem_of_dom, Hlook.
    case_decide as Hin.
    + apply Hkeys in Hin. split; [done|]. intros _. by apply Hsub.
    + split; [by intros []|]. intros Hs. by apply Hkeys in Hs.
  - intros k Hk. rewrite Hlook. apply Hkeys in Hk. by rewrite decide_True.
Qed.

End PlanFacts.

Section PlanShape.

Import Template Kernel Plan Words.

(** What a successful build went through. *)
Lemma plan_template_Ok name core tag n inputs outputs parameters p :
  plan_template name core tag n inputs outputs parameters = Ok p →
  ∃ base su variables ivariables ovariables gs,
    reference inputs = Ok base
    ∧ classify parameters = Ok su
    ∧ resolve (ra_len base) base
        (map_to_list (su.2 ∪ inputs) ++ map_to_list outputs) = Ok variables
    ∧ restrict_to variables (su.2 ∪ inputs) = Ok ivariables
    ∧ restrict_to variables outputs = Ok ovariables
    ∧ gsize n base = Ok gs
    ∧ p = {| plan_tag := tag;
             plan_fn := {| kn_N := ra_len base; kn_n_elements := n;
                           kn_ivariables := ivariables;
                           kn_ovariables := ovariables;
                           kn_variables := variables;
                           kn_sparams := su.1; kn_core := core |};
             plan_gsize := gs;
             plan_full_args :=
               full_args (map_to_list (su.2 ∪ inputs) ++ map_to_list outputs)
                 base |}.
Proof.
  unfold plan_template. intros H.
  apply rbind_Ok in H as (base & Hbase & H).
  apply rbind_Ok in H as (su & Hsu & H).
  rewrite py_dict_merge in H.
  apply rbind_Ok in H as (variables & Hvars & H).
  apply rbind_Ok in H as (ivariables & Hiv & H).
  apply rbind_Ok in H as (ovariables & Hov & H).
  apply rbind_Ok in H as (gs & Hgs & H).
  injection H as <-.
  exists base, su, variables, ivariables, ovariables, gs. done.
Qed.

(** Conversely, the steps of a build put together. *)
Lemma plan_template_build name core tag n inputs outputs parameters
    base su variables ivariables ovariables gs :
  reference inputs = Ok base →
  classify parameters = Ok su →
  resolve (ra_len base) base
    (map_to_list (su.2 ∪ inputs) ++ map_to_list outputs) = Ok variables →
  restrict_to variables (su.2 ∪ inputs) = Ok ivariables →
  restrict_to variables outputs = Ok ovariables →
  gsize n base = Ok gs →
  plan_template name core tag n inputs outputs parameters
  = Ok {| plan_tag := tag;
          plan_fn := {| kn_N := ra_len base; kn_n_elements := n;
                        kn_ivariables := ivariables;
                        kn_ovariables := ovariables;
                        kn_variables := variables;
                        kn_sparams := su.1; kn_core := core |};
          plan_gsize := gs;
          plan_full_args :=
            full_args (map_to_list (su.2 ∪ inputs) ++ map_to_list outputs)
              base |}.
Proof.
  intros Hbase Hsu Hvars Hiv Hov Hgs. unfold plan_template.
  rewrite Hbase. cbn. rewrite Hsu. cbn. rewrite py_dict_merge, Hvars. cbn.
  rewrite Hiv. cbn. rewrite Hov. cbn. rewrite Hgs. done.
Qed.

Lemma fold_add_shift (l : list Z) (a b : Z) :
  fold_left Z.add l (a + b) = a + fold_left Z.add l b.
Proof.
  revert b. induction l as [|x l IH]; intros b; cbn [fold_left]; [done|].
  rewrite <- Z.add_assoc. apply IH.
Qed.

Lemma np_sum_acc (l : list Z) (a : Z) : fold_left Z.add l a = a + np_sum l.
Proof. unfold np_sum. rewrite <- fold_add_shift. by rewrite Z.add_0_r. Qed.

Lemma np_sum_cons (x : Z) (l : list Z) : np_sum (x :: l) = x + np_sum l.
Proof. unfold np_sum at 1. cbn [fold_left]. apply np_sum_acc. Qed.

Lemma np_max_spec (l : list Z) mx :
  np_max l = Ok mx → mx ∈ l ∧ Forall (λ x, x ≤ mx) l.
Proof.
  destruct l as [|x l]; [done|]. cbn. intros [= <-].
  assert (H : ∀ l a, (fold_left Z.max l a = a ∨ fold_left Z.max l a ∈ l)
                     ∧ a ≤ fold_left Z.max l a
                     ∧ Forall (λ x, x ≤ fold_left Z.max l a) l).
  { clear. induction l as [|y l IH]; intros a; cbn.
    - split_and!; [by left|lia|constructor].
    - destruct (IH (Z.max a y)) as (Hin & Hle & Hall). split_and!.
      + destruct Hin as [Heq|Hin]; [|right; by right].
        rewrite Heq. destruct (Z.max_spec a y) as [[_ ->]|[_ ->]];
          [right; left|by left].
      + lia.
      + constructor; [lia|done]. }
  destruct (H l x) as (Hin & Hle & Hall). split.
  - destruct Hin as [->|Hin]; [left|by right].
  - by constructor.
Qed.

Lemma Qceiling_div (a n : Z) :
  0 < n →
  (Qceiling (inject_Z a / inject_Z n) - 1) * n < a
  ∧ a ≤ Qceiling (inject_Z a / inject_Z n) * n.
Proof.
  intros Hn. destruct n as [|p|p]; try lia.
  unfold Qceiling, Qfloor, Qdiv, Qinv, Qmult, Qopp, inject_Z. cbn.
  rewrite Z.mul_1_r, Pos.mul_1_l.
  pose proof (Z.div_mod (- a) (Z.pos p) ltac:(lia)) as Hdm.
  pose proof (Z.mod_pos_bound (- a) (Z.pos p) ltac:(lia)) as Hb.
  set (q := (- a) `div` Z.pos p) in *.
  set (r := (- a) `mod` Z.pos p) in *.
  nia.
Qed.

End PlanShape.

(** C6. The work size of a built plan follows the strategy.  With
    [n_elements = 0] it is the pair of the largest group length of the
    reference collection and the number of groups (the reference has at
    least one group, or the build fails).  With [n_elements >= 1] it is the
    single number [g] with [(g - 1) * n_elements < total <= g * n_elements],
    the ceiling of the total element count over [n_elements]. *)
Theorem gsize_by_strategy name core tag n inputs outputs parameters p base :
  Plan.plan_template name core tag n inputs outputs parameters = Ok p →
  Plan.reference inputs = Ok base →
  (n = 0 →
     ∃ mx, Plan.plan_gsize p = [mx; Z.of_nat (length (shape0s base))]
           ∧ mx ∈ shape0s base ∧ Forall (λ l, l ≤ mx) (shape0s base))
  ∧ (1 ≤ n →
     ∃ g, Plan.plan_gsize p = [g]
          ∧ (g - 1) * n < Template.np_sum (shape0s base) ≤ g * n).
Proof.
  intros Hp Hbase.
  apply plan_template_Ok in Hp
    as (base' & su & vars & iv & ov & gs & Hbase' & _ & _ & _ & _ & Hgs & ->).
  rewrite Hbase in Hbase'. injection Hbase' as <-. cbn.
  unfold Template.gsize in Hgs. split.
  - intros ->. cbn in Hgs. apply rbind_Ok in Hgs as (mx & Hmx & [= <-]).
    exists mx. split; [done|]. by apply np_max_spec.
  - intros Hn. destruct (0 <? n) eqn:E; [|lia]. injection Hgs as <-.
    eexists. split; [done|]. apply Qceiling_div. lia.
Qed.

Lemma gsize_by_strategy_witness :
  ∃ p, Sample.id_plan 3 = Ok p
       ∧ Plan.reference Sample.id_inputs = Ok Sample.id_in
       ∧ (3 = 0 →
            ∃ mx, Plan.plan_gsize p
                  = [mx; Z.of_nat (length (shape0s Sample.id_in))]
                  ∧ mx ∈ shape0s Sample.id_in
                  ∧ Forall (λ l, l ≤ mx) (shape0s Sample.id_in))
       ∧ (1 ≤ 3 →
            ∃ g, Plan.plan_gsize p = [g]
                 ∧ (g - 1) * 3 < Template.np_sum (shape0s Sample.id_in)
                   ≤ g * 3).
Proof.
  assert (H : ∃ p, Sample.id_plan 3 = Ok p).
  { eexists. unfold Sample.id_plan.
    eapply plan_template_build; vm_compute; reflexivity. }
  destruct H as [p Hp]. exists p. split; [exact Hp|].
  split; [vm_compute; reflexivity|].
  apply (gsize_by_strategy "copy" _ None 3 Sample.id_inputs
           Sample.id_outputs ∅ p Sample.id_in Hp).
  vm_compute; reflexivity.
Defined.

(** ** Argument binding *)

Section BindFacts.

Import Template Kernel Plan.

Lemma bind_vars c (l : list (string * CLRaggedArray)) ps args st :
  bind (var_params c l ++ ps) (var_args l ++ args) st
  = bind ps args (fold_left bind_var l st).
Proof.
  revert st. induction l as [|[k a] l IH]; intros st; [done|].
  cbn. rewrite IH. done.
Qed.

Lemma fold_bind_var l st :
  fold_left bind_var l st
  = {| km_starts :=
         fold_left (λ m kv, <[kv.1 := starts kv.2]> m) l (km_starts st);
       km_data := fold_left (λ m kv, <[kv.1 := buf kv.2]> m) l (km_data st);
       km_lengths := km_lengths st; km_log := km_log st |}.
Proof.
  revert st. induction l as [|kv l IH]; intros st; cbn.
  - by destruct st.
  - by rewrite IH.
Qed.

Lemma fmap_py_dict {A B} (f : A → B) (l : list (string * A)) :
  f <$> py_dict l = fold_left (λ m kv, <[kv.1 := f kv.2]> m) l ∅.
Proof.
  induction l as [|[k a] l IH] using rev_ind.
  - cbn. apply fmap_empty.
  - rewrite py_dict_snoc, fmap_insert, fold_left_app, IH. done.
Qed.

Lemma bind_full_args ivars ovars base :
  bind (var_params true ivars ++ var_params false ovars ++ [PLengths])
    (full_args (ivars ++ ovars) base) empty_mem
  = Some (bound_mem (ivars ++ ovars) base).
Proof.
  unfold full_args, var_args. rewrite flat_map_app.
  fold (var_args ivars). fold (var_args ovars).
  rewrite <- !app_assoc, !bind_vars. cbn.
  rewrite <- fold_left_app, fold_bind_var. cbn.
  unfold bound_mem. by rewrite !fmap_py_dict.
Qed.

End BindFacts.

Section SignatureFacts.

Import Template Kernel Plan.

Lemma var_params_keys {A} c (l : list (string * A)) :
  var_params c l = flat_map (λ k, [PStarts k; PData k c]) l.*1.
Proof.
  unfold var_params. induction l as [|kv l IH]; [done|].
  cbn. by rewrite IH.
Qed.

Lemma var_params_same_dom {A B} c (m1 : gmap string A) (m2 : gmap string B) :
  dom m1 = dom m2 →
  var_params c (map_to_list m1) = var_params c (map_to_list m2).
Proof.
  intros Hdom. rewrite !var_params_keys.
  pose proof (keys_same_dom m1 m2 Hdom) as H. unfold keys in H.
  by rewrite H.
Qed.

Lemma elem_of_keys {A} (m : gmap string A) k :
  k ∈ (map_to_list m).*1 ↔ is_Some (m !! k).
Proof.
  rewrite list_elem_of_fmap. split.
  - intros ([k' b] & -> & Hin). apply elem_of_map_to_list in Hin.
    by exists b.
  - intros [b Hb]. exists (k, b). split; [done|].
    by apply elem_of_map_to_list.
Qed.

Lemma NoDup_items_disjoint {A} (m1 m2 : gmap string A) k :
  NoDup (map_to_list m1 ++ map_to_list m2).*1 →
  is_Some (m1 !! k) → m2 !! k = None.
Proof.
  rewrite fmap_app, NoDup_app. intros (_ & Hdis & _) H1.
  apply elem_of_keys in H1. specialize (Hdis k H1).
  rewrite elem_of_keys in Hdis. by apply eq_None_not_Some.
Qed.

(** After a successful layout resolution every variable has an entry, and
    the read and write views have the keys of the dictionaries they were
    cut from. *)
Lemma resolved_views N base (ivars ovars : gmap string CLRaggedArray)
    variables ivariables ovariables :
  resolve N base (map_to_list ivars ++ map_to_list ovars) = Ok variables →
  restrict_to variables ivars = Ok ivariables →
  restrict_to variables ovars = Ok ovariables →
  NoDup (map_to_list ivars ++ map_to_list ovars).*1
  ∧ dom ivariables = dom ivars ∧ dom ovariables = dom ovars
  ∧ dom variables = dom ivars ∪ dom ovars.
Proof.
  intros Hres Hiv Hov.
  pose proof (resolve_spec N base (map_to_list ivars ++ map_to_list ovars))
    as Hspec.
  rewrite Hres in Hspec. destruct Hspec as (Hnd & _ & Hvars).
  assert (Hsome : ∀ k, is_Some (variables !! k)
                       ↔ is_Some (ivars !! k) ∨ is_Some (ovars !! k)).
  { intros k. rewrite Hvars, fmap_is_Some.
    rewrite <- not_eq_None_Some, <- not_elem_of_list_to_map.
    rewrite fmap_app, elem_of_app, !elem_of_keys.
    split; [|tauto]. intros H.
    destruct (decide (is_Some (ivars !! k))); [by left|].
    destruct (decide (is_Some (ovars !! k))); [by right|]. tauto. }
  destruct (restrict_to_spec variables ivars) as (m1 & Hm1 & Hd1 & _).
  { intros k Hk. apply Hsome. by left. }
  destruct (restrict_to_spec variables ovars) as (m2 & Hm2 & Hd2 & _).
  { intros k Hk. apply Hsome. by right. }
  rewrite Hm1 in Hiv. rewrite Hm2 in Hov. simplify_eq.
  split_and!; try done.
  apply set_eq. intros k. rewrite elem_of_union, !elem_of_dom. apply Hsome.
Qed.

End SignatureFacts.

(** ** Parameters in the built plan *)

(** C5. Classification partitions the parameters: it fails exactly when
    some value that is not a ragged collection cannot be coerced to a
    floating-point scalar; when it succeeds, the dynamic parameters are
    exactly the values that are ragged collections, and the static
    parameters are exactly the other values, each coerced to its scalar and
    tagged [float].  The step is a function of the mapping alone.  In a
    built plan every dynamic parameter is a read variable of the kernel
    that went through the validation of the layout resolution like an
    input, and every static parameter is a constant of the kernel. *)
Theorem classify_partition (parameters : gmap string pyvalue) :
  (is_ok (Template.classify parameters) = false ↔
     ∃ k v, parameters !! k = Some v ∧ isinstance_ragged v = false
            ∧ is_ok (py_float v) = false)
  ∧ (∀ sparams uparams,
       Template.classify parameters = Ok (sparams, uparams) →
       (∀ k a, uparams !! k = Some a ↔ parameters !! k = Some (PyRagged a))
       ∧ (∀ k t x, sparams !! k = Some (t, x) ↔
            t = "float"%string
            ∧ ∃ v, parameters !! k = Some v ∧ isinstance_ragged v = false
                   ∧ py_float v = Ok x))
  ∧ (∀ name core tag n inputs outputs p base,
       Plan.plan_template name core tag n inputs outputs parameters = Ok p →
       Plan.reference inputs = Ok base →
       (∀ k a, parameters !! k = Some (PyRagged a) →
               k ∈ Kernel.keys (Kernel.kn_ivariables (Plan.plan_fn p))
               ∧ Words.valid_var (ra_len base) base a
               ∧ Kernel.kn_variables (Plan.plan_fn p) !! k
                 = Some (ocldtype a, k +:+ "_starts[n]"))
       ∧ (∀ k x, parameters !! k = Some (PyNumber x) →
                 Kernel.kn_sparams (Plan.plan_fn p) !! k
                 = Some ("float"%string, x))).
Proof.
  pose proof (classify_spec parameters) as H.
  split_and!.
  - destruct (Template.classify parameters) as [[sp up]|err]; cbn in *.
    + destruct H as (Hsp & Hup & Hall).
      split; [done|]. intros (k & v & Hkv & Hr & Hf).
      specialize (Hall k v Hkv). by destruct v.
    + split; [|done]. intros _.
      destruct H as (k & v & Hkv & Hbad). exists k, v. by destruct v.
  - intros sparams uparams Hcl. rewrite Hcl in H. cbn in H.
    destruct H as (-> & -> & Hall). split.
    + intros k a. rewrite lookup_omap_Some. split.
      * intros ([] & [= ->] & ?); done.
      * intros ?. by exists (PyRagged a).
    + intros k t x. rewrite lookup_omap_Some. split.
      * intros ([] & [= <- <-] & ?); eauto.
      * intros (-> & [] & ? & ? & [= ->]); try done.
        by exists (PyNumber x).
  - intros name core tag n inputs outputs p base Hp Hbase.
    apply plan_template_Ok in Hp
      as (base' & su & vars & iv & ov & gs & Hbase' & Hsu & Hres & Hiv & Hov
          & _ & ->).
    rewrite Hbase in Hbase'. injection Hbase' as <-.
    rewrite Hsu in H. cbn in H. destruct H as (Hsp & Hup & _).
    destruct (resolved_views _ _ _ _ _ _ _ Hres Hiv Hov)
      as (_ & Hdi & _ & _).
    pose proof (resolve_spec (ra_len base) base
                  (map_to_list (su.2 ∪ inputs) ++ map_to_list outputs))
      as Hspec.
    rewrite Hres in Hspec. destruct Hspec as (_ & Hvalid & Hvars).
    cbn [Plan.plan_fn Kernel.kn_ivariables Kernel.kn_variables
         Kernel.kn_sparams].
    split.
    + intros k a Hka.
      assert (Hu : (su.2 ∪ inputs) !! k = Some a).
      { apply lookup_union_Some_l. rewrite Hup, lookup_omap, Hka. done. }
      split_and!.
      * apply elem_of_keys, elem_of_dom. rewrite Hdi.
        apply elem_of_dom. by exists a.
      * rewrite Forall_forall in Hvalid. apply (Hvalid (k, a)).
        apply elem_of_app. left. by apply elem_of_map_to_list.
      * rewrite Hvars, list_to_map_app, !list_to_map_to_list.
        by rewrite (lookup_union_Some_l _ _ _ _ Hu).
    + intros k x Hkx. rewrite Hsp, lookup_omap, Hkx. done.
Qed.

Lemma classify_partition_witness :
  ∃ p, Sample.mixed_plan 4 = Ok p
       ∧ "g"%string ∈ Kernel.keys (Kernel.kn_ivariables (Plan.plan_fn p))
       ∧ Kernel.kn_sparams (Plan.plan_fn p) !! "b"%string
         = Some ("float"%string, (1 # 2)%Q).
Proof.
  assert (H : ∃ p, Sample.mixed_plan 4 = Ok p).
  { eexists. unfold Sample.mixed_plan.
    eapply plan_template_build; vm_compute; reflexivity. }
  destruct H as [p Hp]. exists p. split; [exact Hp|].
  destruct (classify_partition Sample.mixed_parameters) as (_ & _ & Hplan).
  destruct (Hplan "affine"%string _ None 4 Sample.id_inputs Sample.id_outputs
              p Sample.id_in Hp ltac:(vm_compute; reflexivity))
    as (Hdyn & Hstat).
  split.
  - apply (Hdyn "g"%string Sample.gain). vm_compute. reflexivity.
  - apply (Hstat "b"%string (1 # 2)%Q). vm_compute. reflexivity.
Defined.

(** ** The group-resolution walk *)

Section WalkFacts.

Import Template Kernel.

Lemma np_sum_nil : np_sum [] = 0.
Proof. done. Qed.

Lemma np_sum_nonneg (l : list Z) : Forall (λ x, 0 ≤ x) l → 0 ≤ np_sum l.
Proof.
  induction 1 as [|x l Hx _ IH]; [done|]. rewrite np_sum_cons. lia.
Qed.

(** A flat index below the total resolves to the group it falls in; the
    table is read at the indices [n .. n + k] and nowhere else. *)
Lemma walk_resolves (rest : list Z) (m : Z) (n : nat) (log : list access) :
  Forall (λ x, 0 ≤ x) rest → 0 ≤ m → m < np_sum rest →
  ∃ k l m',
    walk rest m n log
    = Some (m', (n + k)%nat, log ++ (RdLengths <$> seq n (S k)))
    ∧ rest !! k = Some l ∧ 0 ≤ m' < l
    ∧ m = np_sum (take k rest) + m'.
Proof.
  intros Hall. revert m n log.
  induction Hall as [|x rest Hx Hall IH]; intros m n log Hm Hlt.
  { rewrite np_sum_nil in Hlt. lia. }
  rewrite np_sum_cons in Hlt. cbn [walk].
  destruct (x <=? m) eqn:E.
  - apply Z.leb_le in E.
    destruct (IH (m - x) (S n) (log ++ [RdLengths n]))
      as (k & l & m' & Hw & Hk & Hm' & Hsum); [lia|lia|].
    exists (S k), l, m'. split; [|split; [done|split; [lia|]]].
    + rewrite Hw. f_equal. f_equal; [f_equal; lia|].
      rewrite <- app_assoc. done.
    + change (take (S k) (x :: rest)) with (x :: take k rest).
      rewrite np_sum_cons. lia.
  - apply Z.leb_gt in E. exists 0%nat, x, m.
    split; [|split; [done|split; [lia|]]].
    + by rewrite Nat.add_0_r.
    + change (take 0 (x :: rest)) with (@nil Z). rewrite np_sum_nil. lia.
Qed.

(** A flat index that is not below the total runs the walk off the end of
    the table. *)
Lemma walk_exhausted (rest : list Z) (m : Z) (n : nat) (log : list access) :
  Forall (λ x, 0 ≤ x) rest → np_sum rest ≤ m → walk rest m n log = None.
Proof.
  intros Hall. revert m n log.
  induction Hall as [|x rest Hx Hall IH]; intros m n log Hm; [done|].
  rewrite np_sum_cons in Hm. cbn [walk].
  pose proof (np_sum_nonneg rest Hall).
  destruct (x <=? m) eqn:E.
  - apply IH. lia.
  - apply Z.leb_gt in E. lia.
Qed.

(** The work items of the flattened grid start below the total. *)
Lemma flattened_start_below_total (base : CLRaggedArray) (n_elements g : Z)
    (gid : nat) :
  0 < n_elements →
  gsize n_elements base = Ok [g] →
  Z.of_nat gid < g →
  Z.of_nat gid * n_elements < np_sum (shape0s base).
Proof.
  intros Hn Hg Hgid. unfold gsize in Hg.
  destruct (0 <? n_elements) eqn:E; [|lia]. injection Hg as <-.
  pose proof (Qceiling_div (np_sum (shape0s base)) n_elements Hn) as [Hlo _].
  nia.
Qed.

End WalkFacts.

(** C10. Every work item of the flattened grid starts at a flat index below
    the total element count; its walk therefore ends in a group [n < N],
    having read the length table at the indices [0 .. n] only, all within
    the table, and the guard [n >= N] after the walk is not taken. *)
Theorem flattened_walk_in_bounds (base : CLRaggedArray) (n_elements g : Z)
    (gid : nat) (log : list Kernel.access) :
  Forall (λ l, 0 ≤ l) (shape0s base) →
  0 < Template.np_sum (shape0s base) →
  1 ≤ n_elements →
  Template.gsize n_elements base = Ok [g] →
  Z.of_nat gid < g →
  Z.of_nat gid * n_elements < Template.np_sum (shape0s base)
  ∧ ∃ m n,
      Kernel.walk (shape0s base) (Z.of_nat gid * n_elements) 0 log
      = Some (m, n, log ++ (Kernel.RdLengths <$> seq 0 (S n)))
      ∧ (n < ra_len base)%nat
      ∧ bool_decide (ra_len base ≤ n)%nat = false.
Proof.
  intros Hall Htot Hn Hg Hgid.
  assert (Hlt : Z.of_nat gid * n_elements < Template.np_sum (shape0s base)).
  { eapply flattened_start_below_total; [lia|done|done]. }
  split; [exact Hlt|].
  destruct (walk_resolves (shape0s base) (Z.of_nat gid * n_elements) 0 log)
    as (k & l & m' & Hw & Hk & _ & _); [done|lia|done|].
  cbn in Hw. exists m', k.
  apply lookup_lt_Some in Hk. unfold ra_len.
  split_and!; [done|done|]. apply bool_decide_eq_false. lia.
Qed.

Lemma flattened_walk_in_bounds_witness :
  Z.of_nat 0 * 3 < Template.np_sum (shape0s Sample.id_in)
  ∧ ∃ m n,
      Kernel.walk (shape0s Sample.id_in) (Z.of_nat 0 * 3) 0 []
      = Some (m, n, [] ++ (Kernel.RdLengths <$> seq 0 (S n)))
      ∧ (n < ra_len Sample.id_in)%nat
      ∧ bool_decide (ra_len Sample.id_in ≤ n)%nat = false.
Proof.
  apply (flattened_walk_in_bounds Sample.id_in 3 1 0 []).
  - repeat constructor; vm_compute; discriminate.
  - vm_compute; reflexivity.
  - lia.
  - vm_compute; reflexivity.
  - lia.
Defined.

(** ** The layout contract *)

Section LayoutFacts.

Lemma layout_ok_length sizes sts len :
  layout_ok sizes sts len = true → length sts = length sizes.
Proof.
  unfold layout_ok. rewrite !andb_true_iff, bool_decide_eq_true.
  by intros [[H _] _].
Qed.

Lemma zip_lookup_Some {A B} (l1 : list A) (l2 : list B) n a b :
  l1 !! n = Some a → l2 !! n = Some b → zip l1 l2 !! n = Some (a, b).
Proof.
  revert l1 l2. induction n as [|n IH]; intros [|x l1] [|y l2]; cbn; try done.
  - by intros [= ->] [= ->].
  - apply IH.
Qed.

Lemma layout_ok_group sizes sts len n M off :
  layout_ok sizes sts len = true →
  sizes !! n = Some M → sts !! n = Some off →
  group_within len (M, off) = true.
Proof.
  unfold layout_ok. rewrite !andb_true_iff. intros [[_ H] _] HM Hoff.
  rewrite forallb_forall in H. apply H, list_elem_of_In.
  eapply list_elem_of_lookup_2, zip_lookup_Some; eauto.
Qed.

Lemma layout_ok_nonneg sizes sts len :
  layout_ok sizes sts len = true → Forall (λ l, 0 ≤ l) sizes.
Proof.
  intros H. apply Forall_lookup. intros n M HM.
  assert (is_Some (sts !! n)) as [off Hoff].
  { apply lookup_lt_is_Some. rewrite (layout_ok_length _ _ _ H).
    by eapply lookup_lt_Some. }
  pose proof (layout_ok_group _ _ _ _ _ _ H HM Hoff) as Hg.
  unfold group_within in Hg. cbn in Hg. apply andb_true_iff in Hg as [Hg _].
  lia.
Qed.

Lemma layout_ok_bounds sizes sts len n M off m :
  layout_ok sizes sts len = true →
  sizes !! n = Some M → sts !! n = Some off → 0 ≤ m < M →
  0 ≤ off + m < len.
Proof.
  intros H HM Hoff Hm.
  pose proof (layout_ok_group _ _ _ _ _ _ H HM Hoff) as Hg.
  unfold group_within in Hg. cbn in Hg.
  rewrite andb_true_iff, orb_true_iff, andb_true_iff in Hg. lia.
Qed.

(** Two groups at distinct indices are apart. *)
Lemma pairwise_apart_lookup gs n n' g h :
  pairwise_apart gs = true → (n < n')%nat →
  gs !! n = Some g → gs !! n' = Some h → groups_apart g h = true.
Proof.
  revert n n'. induction gs as [|g0 gs IH]; intros n n' Hp Hlt Hg Hh;
    [done|].
  cbn in Hp. apply andb_true_iff in Hp as [Hall Hp].
  destruct n' as [|n']; [lia|]. cbn in Hh. destruct n as [|n].
  - cbn in Hg. injection Hg as ->. rewrite forallb_forall in Hall.
    apply Hall, list_elem_of_In. by eapply list_elem_of_lookup_2.
  - cbn in Hg. apply (IH n n'); [done|lia|done|done].
Qed.

(** Distinct elements have distinct addresses. *)
Lemma layout_ok_injective sizes sts len n n' M M' off off' m m' :
  layout_ok sizes sts len = true →
  sizes !! n = Some M → sts !! n = Some off →
  sizes !! n' = Some M' → sts !! n' = Some off' →
  0 ≤ m < M → 0 ≤ m' < M' →
  off + m = off' + m' → n = n' ∧ m = m'.
Proof.
  intros H HM Hoff HM' Hoff' Hm Hm' Heq.
  assert (Hp : pairwise_apart (zip sizes sts) = true).
  { unfold layout_ok in H. by apply andb_true_iff in H as [_ H]. }
  pose proof (zip_lookup_Some _ _ _ _ _ HM Hoff) as Hz.
  pose proof (zip_lookup_Some _ _ _ _ _ HM' Hoff') as Hz'.
  destruct (Nat.lt_trichotomy n n') as [Hlt|[->|Hlt]].
  - pose proof (pairwise_apart_lookup _ _ _ _ _ Hp Hlt Hz Hz') as Ha.
    unfold groups_apart in Ha. cbn in Ha. rewrite !orb_true_iff in Ha. lia.
  - simplify_eq. split; [done|lia].
  - pose proof (pairwise_apart_lookup _ _ _ _ _ Hp Hlt Hz' Hz) as Ha.
    unfold groups_apart in Ha. cbn in Ha. rewrite !orb_true_iff in Ha. lia.
Qed.

End LayoutFacts.

(** ** Buffer accesses *)

Section AccessFacts.

Import Template Kernel.

Lemma idx_in_range {A} (l : list A) (a : Z) :
  0 ≤ a < Z.of_nat (length l) → is_Some (idx l a).
Proof.
  intros Ha. unfold idx. destruct (a <? 0) eqn:E; [lia|].
  apply lookup_lt_is_Some. lia.
Qed.

Lemma upd_in_range {A} (l : list A) (a : Z) (x : A) :
  0 ≤ a < Z.of_nat (length l) → upd l a x = Some (<[Z.to_nat a := x]> l).
Proof.
  intros Ha. unfold upd.
  destruct (0 <=? a) eqn:E1; [|lia].
  destruct (a <? Z.of_nat (length l)) eqn:E2; [done|lia].
Qed.

Lemma read_vars_run names addr (e : env) st :
  Forall (readable (km_data st) addr) names →
  read_vars names addr e st
  = Some (fold_left (λ e x, <[x := peek (km_data st) x (at_addr addr x)]> e)
            names e,
          set_log st (km_log st ++ ((λ x, Rd x (at_addr addr x)) <$> names))).
Proof.
  intros Hall. revert e st Hall.
  induction names as [|x names IH]; intros e st Hall.
  { cbn. rewrite app_nil_r. by destruct st. }
  apply Forall_cons in Hall as [(a & b & Ha & Hb & Hr) Hall].
  cbn [read_vars]. rewrite Ha. cbn.
  destruct (idx_in_range b a Hr) as [v Hv].
  unfold load. rewrite Hb. cbn. rewrite Hv. cbn.
  rewrite IH by done.
  assert (Hat : at_addr addr x = a) by (unfold at_addr; by rewrite Ha).
  assert (Hpeek : peek (km_data st) x a = v).
  { unfold peek. rewrite Hb. cbn. by rewrite Hv. }
  cbn [fold_left fmap list_fmap note set_log km_data km_log km_starts
       km_lengths fst snd].
  rewrite Hat, Hpeek. by rewrite <- app_assoc.
Qed.

Lemma readable_poke d addr x y a v :
  readable d addr x → readable (poke d y a v) addr x.
Proof.
  intros (a' & b & Ha & Hb & Hr). unfold poke.
  destruct (d !! y) as [by'|] eqn:Hy; [|by exists a', b].
  destruct (decide (y = x)) as [->|Hne].
  - rewrite Hy in Hb. injection Hb as ->.
    exists a', (<[Z.to_nat a := v]> b). rewrite lookup_insert_eq.
    split; [done|]. split; [done|]. by rewrite length_insert.
  - exists a', b. by rewrite lookup_insert_ne.
Qed.

Lemma write_vars_run names addr (e : env) st :
  Forall (writable (km_data st) addr e) names →
  write_vars names addr e st
  = Some (set_log
            (set_data st
               (fold_left (λ d x, poke d x (at_addr addr x) (rd e x)) names
                  (km_data st)))
            (km_log st ++ ((λ x, Wr x (at_addr addr x)) <$> names))).
Proof.
  intros Hall. revert st Hall.
  induction names as [|x names IH]; intros st Hall.
  { cbn. rewrite app_nil_r. by destruct st. }
  apply Forall_cons in Hall as [[(a & b & Ha & Hb & Hr) [v Hv]] Hall].
  cbn [write_vars]. rewrite Ha. cbn. rewrite Hv. cbn.
  unfold store. rewrite Hb. cbn. rewrite (upd_in_range b a v Hr). cbn.
  assert (Hpoke : poke (km_data st) x (at_addr addr x) (rd e x)
                  = <[x := <[Z.to_nat a := v]> b]> (km_data st)).
  { unfold poke, at_addr, rd. by rewrite Hb, Ha, Hv. }
  assert (Hat : at_addr addr x = a) by (unfold at_addr; by rewrite Ha).
  rewrite IH.
  - cbn [fold_left fmap list_fmap note set_log set_data km_data km_log
         km_starts km_lengths].
    rewrite Hpoke, Hat. by rewrite <- app_assoc.
  - cbn [note set_log set_data km_data]. rewrite <- Hpoke.
    eapply Forall_impl; [exact Hall|].
    intros y [Hy Hs]. split; [|done]. by apply readable_poke.
Qed.

End AccessFacts.

(** ** The kernel for [n_elements = 0] *)

Section BlockedFacts.

Import Template Kernel.

Lemma var_ok_elem st x n M m :
  var_okb st x = true → km_lengths st !! n = Some M → 0 ≤ m < M →
  ∃ off b, start_of st x n = Some off
           ∧ elem_addr st x n m = Some (off + m)
           ∧ km_data st !! x = Some b
           ∧ 0 ≤ off + m < Z.of_nat (length b).
Proof.
  unfold var_okb, elem_addr, start_of. intros Hok HM Hm.
  destruct (km_starts st !! x) as [sts|]; [|done].
  destruct (km_data st !! x) as [b|]; [|done]. cbn.
  assert (is_Some (sts !! n)) as [off Hoff].
  { apply lookup_lt_is_Some. rewrite (layout_ok_length _ _ _ Hok).
    by eapply lookup_lt_Some. }
  exists off, b. rewrite Hoff. cbn. split_and!; try done;
    eapply (layout_ok_bounds _ _ _ _ _ _ m Hok HM Hoff); lia.
Qed.

Lemma var_ok_readable st x n M m :
  var_okb st x = true → km_lengths st !! n = Some M → 0 ≤ m < M →
  readable (km_data st) (λ y, elem_addr st y n m) x.
Proof.
  intros Hok HM Hm.
  destruct (var_ok_elem st x n M m Hok HM Hm) as (off & b & _ & Ha & Hb & Hr).
  by exists (off + m), b.
Qed.

(** Distinct elements of a variable lie at distinct addresses. *)
Lemma var_ok_injective st x n n' M M' m m' :
  var_okb st x = true →
  km_lengths st !! n = Some M → km_lengths st !! n' = Some M' →
  0 ≤ m < M → 0 ≤ m' < M' →
  elem_addr st x n m = elem_addr st x n' m' → n = n' ∧ m = m'.
Proof.
  intros Hok HM HM' Hm Hm'.
  destruct (var_ok_elem st x n M m Hok HM Hm) as (off & b & Hs & -> & _).
  destruct (var_ok_elem st x n' M' m' Hok HM' Hm')
    as (off' & b' & Hs' & -> & _).
  intros [= Heq]. revert Hok Hs Hs'. unfold var_okb, start_of.
  destruct (km_starts st !! x) as [sts|]; [|done].
  destruct (km_data st !! x) as [d|]; [|done]. cbn. intros Hok Hs Hs'.
  eapply (layout_ok_injective _ _ _ n n' M M' off off' m m'); eauto.
Qed.

End BlockedFacts.

(** ** Empty groups in the flattened kernel *)

(** C2 (as the code behaves at an empty group).  The advance inside a run
    steps into the next group without checking its length.  For groups of
    lengths [1; 0; 2] and [n_elements = 3] the single work item visits the
    addresses 0, 1, 1: the element at address 1 is read and written twice
    (once through the empty group), the element at address 2 never, and
    the output keeps its initial 0 there.  For lengths [3; 0; 5; 1] the
    run of 4 happens to end on the empty group and every address is
    visited once, but with [n_elements = 5] address 3 is visited twice and
    address 4 never.  For lengths [2; 0] and [n_elements = 3] the work item
    reads address 2 of a two-element buffer instead of stopping. *)
Theorem flattened_advance_enters_empty_group :
  (Kernel.data_accesses ∘ Kernel.km_log <$> Plan.run (Sample.id_plan 3))
  = Some [Kernel.Rd "x" 0; Kernel.Wr "y" 0; Kernel.Rd "x" 1;
          Kernel.Wr "y" 1; Kernel.Rd "x" 1; Kernel.Wr "y" 1]
  ∧ (Plan.run (Sample.id_plan 3) ≫= λ st, Kernel.km_data st !! "y"%string)
    = Some [1%Q; 2%Q; 0%Q]
  ∧ (Plan.run (Sample.id_plan 0) ≫= λ st, Kernel.km_data st !! "y"%string)
    = Some [1%Q; 2%Q; 3%Q]
  ∧ (Plan.run (Sample.roll_plan 4)
       ≫= λ st, Kernel.km_data st !! "y"%string)
    = Some [1%Q; 2%Q; 3%Q; 4%Q; 5%Q; 6%Q; 7%Q; 8%Q; 9%Q]
  ∧ (Plan.run (Sample.roll_plan 5)
       ≫= λ st, Kernel.km_data st !! "y"%string)
    = Some [1%Q; 2%Q; 3%Q; 4%Q; 0%Q; 6%Q; 7%Q; 8%Q; 9%Q]
  ∧ Plan.run (Sample.tail_plan 3) = None
  ∧ (Plan.run (Sample.tail_plan 0) ≫= λ st, Kernel.km_data st !! "y"%string)
    = Some [1%Q; 2%Q].
Proof. split_and!; vm_compute; reflexivity. Qed.

(** C1 (as the code behaves with an empty group).  On groups of lengths
    [1; 0; 2], with input current 1 and zero state everywhere, the plan of
    the 2-D grid updates all three elements, the plan of the flattened grid
    with [n_elements = 3] leaves the outputs of the last element at their
    initial 0: the two strategies disagree. *)
Theorem strategies_differ_with_empty_group :
  (Plan.run (Sample.lif_plan 0) ≫= λ st, Kernel.km_data st !! "ov"%string)
  = Some [0.050%Q; 0.050%Q; 0.050%Q]
  ∧ (Plan.run (Sample.lif_plan 3) ≫= λ st, Kernel.km_data st !! "ov"%string)
    = Some [0.050%Q; 0.050%Q; 0%Q]
  ∧ (Plan.run (Sample.lif_plan 0) ≫= λ st, Kernel.km_data st !! "ow"%string)
    = Some [(-0.001)%Q; (-0.001)%Q; (-0.001)%Q]
  ∧ (Plan.run (Sample.lif_plan 3) ≫= λ st, Kernel.km_data st !! "ow"%string)
    = Some [(-0.001)%Q; (-0.001)%Q; 0%Q]
  ∧ (Kernel.km_data <$> Plan.run (Sample.lif_plan 0))
    ≠ (Kernel.km_data <$> Plan.run (Sample.lif_plan 3)).
Proof.
  split_and!; try (vm_compute; reflexivity).
  vm_compute. intros H. discriminate H.
Qed.

(** ** One element, two kernels *)

Section ElementFacts.

Import Template Kernel.

Lemma same_shape_refl st : same_shape st st.
Proof. done. Qed.

Lemma same_shape_trans st1 st2 st3 :
  same_shape st1 st2 → same_shape st2 st3 → same_shape st1 st3.
Proof.
  intros (Hs & Hl & Hd) (Hs' & Hl' & Hd').
  split_and!; first [congruence | intros x; by rewrite Hd', Hd].
Qed.

Lemma same_shape_set_log st log : same_shape st (set_log st log).
Proof. done. Qed.

Lemma same_shape_var_okb st st' x :
  same_shape st st' → var_okb st' x = var_okb st x.
Proof.
  intros (Hs & Hl & Hd). unfold var_okb. rewrite Hs, Hl.
  specialize (Hd x).
  destruct (km_starts st !! x); [|done].
  destruct (km_data st' !! x), (km_data st !! x); simplify_eq/=; try done.
  by rewrite Hd.
Qed.

Lemma same_shape_elem_addr st st' x n m :
  same_shape st st' → elem_addr st' x n m = elem_addr st x n m.
Proof. intros (Hs & _). unfold elem_addr, start_of. by rewrite Hs. Qed.

Lemma same_shape_mem_ok k st st' : same_shape st st' → mem_ok k st → mem_ok k st'.
Proof.
  intros Hsh (HN & Hok & Hcov). split_and!; [|intros x Hx|done].
  - destruct Hsh as (_ & -> & _). done.
  - rewrite (same_shape_var_okb st st' x Hsh). by apply Hok.
Qed.

Lemma poke_length d x a v y :
  length <$> poke d x a v !! y = length <$> d !! y.
Proof.
  unfold poke. destruct (d !! x) as [b|] eqn:Hx; [|done].
  destruct (decide (x = y)) as [<-|Hne].
  - rewrite lookup_insert_eq, Hx. cbn. by rewrite length_insert.
  - by rewrite lookup_insert_ne.
Qed.

Lemma fold_poke_length (f : string → Z) (g : string → Q) names d y :
  length <$> fold_left (λ d x, poke d x (f x) (g x)) names d !! y
  = length <$> d !! y.
Proof.
  revert d. induction names as [|x names IH]; intros d; [done|].
  cbn. by rewrite IH, poke_length.
Qed.

Lemma fold_left_ext_in {A B} (f g : A → B → A) (l : list B) (a : A) :
  (∀ a x, x ∈ l → f a x = g a x) → fold_left f l a = fold_left g l a.
Proof.
  revert a. induction l as [|x l IH]; intros a H; [done|].
  cbn. rewrite H by left. apply IH. intros a' y Hy. apply H. by right.
Qed.

Lemma km_data_set st d l : km_data (set_log (set_data st d) l) = d.
Proof. done. Qed.

Lemma km_log_set st d l : km_log (set_log (set_data st d) l) = l.
Proof. done. Qed.

(** The local variables after the reads. *)
Lemma reads_lookup_in (f : string → Q) names (e : env) x :
  x ∈ names → fold_left (λ e x, <[x := f x]> e) names e !! x = Some (f x).
Proof.
  revert e. induction names as [|y names IH]; intros e Hx.
  { by apply elem_of_nil in Hx. }
  cbn. destruct (decide (x ∈ names)) as [Hin|Hnin]; [by apply IH|].
  apply elem_of_cons in Hx as [->|Hx]; [|done].
  clear IH. revert e. induction names as [|z names IH]; intros e.
  - cbn. apply lookup_insert_eq.
  - cbn. apply not_elem_of_cons in Hnin as [Hne Hnin].
    rewrite insert_insert_ne by done. by apply IH.
Qed.

Lemma reads_lookup_notin (f : string → Q) names (e : env) x :
  x ∉ names → fold_left (λ e x, <[x := f x]> e) names e !! x = e !! x.
Proof.
  revert e. induction names as [|y names IH]; intros e Hx; [done|].
  apply not_elem_of_cons in Hx as [Hne Hx]. cbn.
  rewrite IH by done. by rewrite lookup_insert_ne.
Qed.

Lemma rd_lookup_eq (e e' : env) x : e !! x = e' !! x → rd e x = rd e' x.
Proof. unfold rd. by intros ->. Qed.

(** A variable of a fitting memory is readable at every element. *)
Lemma mem_ok_readable k st n M m x :
  mem_ok k st → km_lengths st !! n = Some M → 0 ≤ m < M →
  x ∈ keys (kn_ivariables k) ++ keys (kn_ovariables k) →
  readable (km_data st) (λ y, elem_addr st y n m) x.
Proof.
  intros (_ & Hok & Hcov) HM Hm Hx.
  eapply var_ok_readable; [|done|done]. by apply Hok, Hcov.
Qed.

(** The iteration of the flattened kernel at element [(n, m)]: with the
    cursors on the element and the constants intact in the local
    variables, its reads, update rule and writes change the buffers as
    [visit] says. *)
Lemma iteration_data k st0 st n M m (cur : gmap string Z) (e : env) :
  core_ok k → mem_ok k st → same_shape st0 st →
  km_lengths st !! n = Some M → 0 ≤ m < M →
  (∀ x, x ∈ keys (kn_ivariables k) ++ keys (kn_ovariables k) →
        cur !! x = elem_addr st0 x n m) →
  (∀ x, is_Some (kn_sparams k !! x) →
        e !! x = sparam_env (kn_sparams k) !! x) →
  ∃ e' st',
    read_vars (keys (kn_ivariables k)) (λ x, cur !! x) e st
    = Some (e', set_log st (km_log st ++ ((λ x, Rd x (at_addr (λ y, elem_addr st0 y n m) x)) <$> keys (kn_ivariables k))))
    ∧ write_vars (keys (kn_ovariables k)) (λ x, cur !! x) (kn_core k e')
        (set_log st (km_log st ++ ((λ x, Rd x (at_addr (λ y, elem_addr st0 y n m) x)) <$> keys (kn_ivariables k))))
      = Some st'
    ∧ same_shape st st'
    ∧ km_data st' = visit k st0 (n, m) (km_data st)
    ∧ km_log st'
      = km_log st
        ++ ((λ x, Rd x (at_addr (λ y, elem_addr st0 y n m) x))
              <$> keys (kn_ivariables k))
        ++ ((λ x, Wr x (at_addr (λ y, elem_addr st0 y n m) x))
              <$> keys (kn_ovariables k))
    ∧ (∀ x, is_Some (kn_sparams k !! x) →
            kn_core k e' !! x = sparam_env (kn_sparams k) !! x).
Proof.
  intros (Hset & Hloc & Hconst & Hdisj) Hmem Hsh HM Hm Hcur He.
  pose proof Hmem as (_ & _ & Hcov).
  set (addr0 := λ y, elem_addr st0 y n m).
  assert (Haddr : ∀ x, x ∈ keys (kn_ivariables k) ++ keys (kn_ovariables k) →
                       cur !! x = addr0 x).
  { intros x Hx. by apply Hcur. }
  assert (Hrd : ∀ x, x ∈ keys (kn_ivariables k) ++ keys (kn_ovariables k) →
                     readable (km_data st) (λ y, cur !! y) x).
  { intros x Hx.
    destruct (mem_ok_readable k st n M m x Hmem HM Hm Hx)
      as (a & b & Ha & Hb & Hr).
    exists a, b. rewrite (Haddr x Hx). unfold addr0.
    rewrite <- (same_shape_elem_addr st0 st x n m Hsh). done. }
  assert (Hat : ∀ x, x ∈ keys (kn_ivariables k) ++ keys (kn_ovariables k) →
                     at_addr (λ y, cur !! y) x = at_addr addr0 x).
  { intros x Hx. unfold at_addr. by rewrite (Haddr x Hx). }
  assert (Hlog1 : (λ x, Rd x (at_addr (λ y, cur !! y) x))
                    <$> keys (kn_ivariables k)
                  = (λ x, Rd x (at_addr addr0 x)) <$> keys (kn_ivariables k)).
  { apply list_fmap_ext. intros i x Hx. f_equal. apply Hat, elem_of_app.
    left. by eapply list_elem_of_lookup_2. }
  pose proof (read_vars_run (keys (kn_ivariables k)) (λ x, cur !! x) e st)
    as Hread.
  rewrite Hlog1 in Hread.
  set (eF := fold_left
               (λ e x, <[x := peek (km_data st) x
                                (at_addr (λ y, cur !! y) x)]> e)
               (keys (kn_ivariables k)) e) in *.
  set (st1 := set_log st
                (km_log st
                 ++ ((λ x, Rd x (at_addr addr0 x))
                       <$> keys (kn_ivariables k)))) in *.
  exists eF.
  pose proof (write_vars_run (keys (kn_ovariables k)) (λ x, cur !! x)
                (kn_core k eF) st1) as Hwrite.
  eexists. split.
  { apply Hread. apply Forall_forall. intros x Hx.
    apply Hrd, elem_of_app. by left. }
  split.
  { apply Hwrite. apply Forall_forall. intros x Hx.
    split; [|by apply Hset]. apply Hrd, elem_of_app. by right. }
  clear Hread Hwrite.
  set (eB := sparam_env (kn_sparams k)
             ∪ fold_left (λ e x, <[x := peek (km_data st) x (at_addr addr0 x)]> e)
                 (keys (kn_ivariables k)) ∅).
  assert (HeF : ∀ x, x ∈ keys (kn_ivariables k) →
                     eF !! x = Some (peek (km_data st) x (at_addr addr0 x))).
  { intros x Hx. unfold eF.
    rewrite (reads_lookup_in
               (λ x, peek (km_data st) x (at_addr (λ y, cur !! y) x)))
      by done.
    f_equal. f_equal. apply Hat, elem_of_app. by left. }
  assert (Hcore : ∀ y, y ∈ keys (kn_ovariables k) →
                       kn_core k eF !! y = kn_core k eB !! y).
  { apply Hloc.
    - intros x Hx. rewrite (HeF x Hx). unfold eB.
      rewrite lookup_union_r by (unfold sparam_env;
                                 by rewrite lookup_fmap, (Hdisj x Hx)).
      by rewrite (reads_lookup_in
                    (λ x, peek (km_data st) x (at_addr addr0 x))).
    - intros x Hx. unfold eF, eB.
      assert (Hnin : x ∉ keys (kn_ivariables k)).
      { intros Hin. apply Hdisj in Hin. destruct Hx as [? Hx]. congruence. }
      rewrite reads_lookup_notin by done. rewrite (He x Hx).
      destruct Hx as [v Hx].
      assert (Hsp : sparam_env (kn_sparams k) !! x = Some v.2).
      { unfold sparam_env. by rewrite lookup_fmap, Hx. }
      rewrite Hsp. symmetry. by apply lookup_union_Some_l. }
  split_and!.
  - split_and!; try done. intros x. rewrite km_data_set.
    apply fold_poke_length.
  - rewrite km_data_set. unfold visit. cbn [fst snd]. fold addr0. fold eB.
    apply fold_left_ext_in. intros d y Hy.
    rewrite Hat by (apply elem_of_app; by right).
    f_equal. apply rd_lookup_eq. by apply Hcore.
  - rewrite km_log_set. unfold st1. cbn [km_log set_log].
    rewrite <- app_assoc. f_equal. f_equal.
    apply list_fmap_ext. intros i x Hx. f_equal. apply Hat, elem_of_app.
    right. by eapply list_elem_of_lookup_2.
  - intros x Hx. rewrite Hconst by done. unfold eF.
    assert (Hnin : x ∉ keys (kn_ivariables k)).
    { intros Hin. apply Hdisj in Hin. destruct Hx as [? Hx]. congruence. }
    rewrite reads_lookup_notin by done. by apply He.
Qed.

End ElementFacts.

(** ** The 2-D grid, element by element *)

Section GridFacts.

Import Template Kernel.

Lemma data_accesses_app l1 l2 :
  data_accesses (l1 ++ l2) = data_accesses l1 ++ data_accesses l2.
Proof. unfold data_accesses. apply List.filter_app. Qed.

Lemma data_accesses_elem k st nm :
  data_accesses (elem_accesses k st nm) = elem_accesses k st nm.
Proof.
  unfold elem_accesses. rewrite data_accesses_app. f_equal.
  - induction (keys (kn_ivariables k)) as [|x l IH]; [done|].
    cbn. f_equal. apply IH.
  - induction (keys (kn_ovariables k)) as [|x l IH]; [done|].
    cbn. f_equal. apply IH.
Qed.

Lemma data_accesses_lengths (ns : list nat) :
  data_accesses (RdLengths <$> ns) = [].
Proof. induction ns as [|n ns IH]; [done|]. cbn. apply IH. Qed.

Lemma run_items_nil {I} (item : I → kmem → option kmem) st :
  run_items item [] st = Some st.
Proof. done. Qed.

Lemma run_items_None {I} (item : I → kmem → option kmem) ids :
  fold_left (λ acc i, st ← acc; item i st) ids None = None.
Proof. induction ids as [|i ids IH]; [done|]. cbn. apply IH. Qed.

Lemma run_items_cons {I} (item : I → kmem → option kmem) i ids st :
  run_items item (i :: ids) st = item i st ≫= run_items item ids.
Proof.
  unfold run_items. cbn. destruct (item i st); [done|]. apply run_items_None.
Qed.

Lemma run_items_app {I} (item : I → kmem → option kmem) ids1 ids2 st :
  run_items item (ids1 ++ ids2) st
  = run_items item ids1 st ≫= run_items item ids2.
Proof.
  revert st. induction ids1 as [|i ids1 IH]; intros st; [done|].
  cbn [app]. rewrite !run_items_cons. destruct (item i st); cbn; [|done].
  apply IH.
Qed.

(** A work item of the grid: the update of its element if it has one. *)
Lemma blocked_item_data k st0 st m n M :
  core_ok k → mem_ok k st0 → same_shape st0 st →
  0 ≤ m → km_lengths st0 !! n = Some M →
  ∃ st',
    blocked_item k m n st = Some st' ∧ same_shape st0 st'
    ∧ km_data st'
      = (if decide (m < M) then visit k st0 (n, m) (km_data st)
         else km_data st)
    ∧ data_accesses (km_log st')
      = data_accesses (km_log st)
        ++ (if decide (m < M) then elem_accesses k st0 (n, m) else []).
Proof.
  intros Hcore Hmem0 Hsh Hm HM.
  pose proof (same_shape_mem_ok k st0 st Hsh Hmem0) as Hmem.
  pose proof Hsh as (Hs & Hl & _).
  unfold blocked_item, read_lengths. rewrite Hl, HM. cbn.
  destruct (M <=? m) eqn:E.
  { apply Z.leb_le in E. rewrite !decide_False by lia.
    eexists. split; [done|]. split; [exact Hsh|]. split; [done|].
    cbn. rewrite data_accesses_app. cbn. by rewrite !app_nil_r. }
  apply Z.leb_gt in E. rewrite !decide_True by lia.
  unfold elem_addr, start_of. rewrite Hs.
  fold (start_of st0). 
  change (λ x, start_of st0 x n ≫= (λ off, Some (off + m)))
    with (λ x, elem_addr st0 x n m).
  set (st1 := note (RdLengths n) st).
  assert (Hsh1 : same_shape st0 st1) by exact Hsh.
  pose proof (same_shape_mem_ok k st0 st1 Hsh1 Hmem0) as Hmem1.
  assert (HM1 : km_lengths st1 !! n = Some M) by (cbn; by rewrite Hl).
  pose proof Hcore as (Hset & _).
  assert (Hrd : ∀ x, x ∈ keys (kn_ivariables k) ++ keys (kn_ovariables k) →
                     readable (km_data st1) (λ y, elem_addr st0 y n m) x).
  { intros x Hx.
    destruct (mem_ok_readable k st1 n M m x Hmem1 HM1 ltac:(lia) Hx)
      as (a & b & Ha & Hb & Hr).
    exists a, b. by rewrite <- (same_shape_elem_addr st0 st1 x n m Hsh1). }
  rewrite (read_vars_run _ (λ y, elem_addr st0 y n m) ∅ st1).
  2:{ apply Forall_forall. intros x Hx. apply Hrd, elem_of_app. by left. }
  cbn [fst snd mbind option_bind].
  rewrite write_vars_run.
  2:{ apply Forall_forall. intros x Hx. split; [|by apply Hset].
      apply Hrd, elem_of_app. by right. }
  eexists. split; [done|]. split_and!.
  - split_and!; try done. intros x. rewrite km_data_set.
    cbn [km_data set_log]. rewrite fold_poke_length.
    destruct Hsh as (_ & _ & Hd). apply Hd.
  - by rewrite km_data_set.
  - rewrite km_log_set. cbn [km_log set_log st1 note].
    rewrite <- !app_assoc, !data_accesses_app. cbn [data_accesses List.filter].
    cbn [app]. f_equal.
    rewrite <- data_accesses_app.
    apply (data_accesses_elem k st0 (n, m)).
Qed.

End GridFacts.

Section GridRun.

Import Template Kernel.

Lemma visit_all_app k st l1 l2 d :
  visit_all k st (l1 ++ l2) d = visit_all k st l2 (visit_all k st l1 d).
Proof. unfold visit_all. apply fold_left_app. Qed.

Lemma elems_from_app n l1 l2 :
  elems_from n (l1 ++ l2)
  = elems_from n l1 ++ elems_from (n + length l1) l2.
Proof.
  revert n. induction l1 as [|l l1 IH]; intros n; cbn.
  - by rewrite Nat.add_0_r.
  - rewrite IH, <- app_assoc. do 3 f_equal. lia.
Qed.

Lemma row_S n cnt : row n (S cnt) = row n cnt ++ [(n, Z.of_nat cnt)].
Proof. unfold row. by rewrite seq_S, fmap_app. Qed.

Lemma elems_take_S lengths n M :
  lengths !! n = Some M →
  elems (take (S n) lengths) = elems (take n lengths) ++ row n (Z.to_nat M).
Proof.
  intros HM. unfold elems. rewrite (take_S_r _ _ _ HM), elems_from_app.
  cbn. rewrite app_nil_r. rewrite length_take.
  apply lookup_lt_Some in HM. by rewrite Nat.min_l by lia.
Qed.

(** The work items [(0, n) .. (g - 1, n)] update the first elements of
    group [n], as many as the group has. *)
Lemma blocked_row k st0 st n M g :
  core_ok k → mem_ok k st0 → same_shape st0 st →
  km_lengths st0 !! n = Some M →
  ∃ st',
    run_items (λ mn, blocked_item k (Z.of_nat mn.1) mn.2)
      ((λ m, (m, n)) <$> seq 0 g) st = Some st'
    ∧ same_shape st0 st'
    ∧ km_data st'
      = visit_all k st0 (row n (min g (Z.to_nat M))) (km_data st)
    ∧ data_accesses (km_log st')
      = data_accesses (km_log st)
        ++ flat_map (elem_accesses k st0) (row n (min g (Z.to_nat M))).
Proof.
  intros Hcore Hmem Hsh HM. induction g as [|g IH].
  { exists st. split_and!; try done. cbn. by rewrite app_nil_r. }
  destruct IH as (st1 & Hrun & Hsh1 & Hd1 & Hl1).
  rewrite seq_S, fmap_app, run_items_app, Hrun. cbn [mbind option_bind].
  cbn [fmap list_fmap Nat.add]. rewrite run_items_cons. cbn [fst snd].
  destruct (blocked_item_data k st0 st1 (Z.of_nat g) n M Hcore Hmem Hsh1
              ltac:(lia) HM) as (st2 & Hitem & Hsh2 & Hd2 & Hl2).
  rewrite Hitem. cbn [mbind option_bind]. rewrite run_items_nil.
  exists st2. split; [done|]. split; [done|].
  rewrite Hd2, Hl2, Hd1, Hl1.
  destruct (decide (Z.of_nat g < M)) as [Hlt|Hge].
  - assert (Hmin : min (S g) (Z.to_nat M) = S (min g (Z.to_nat M))) by lia.
    assert (Hg : min g (Z.to_nat M) = g) by lia.
    rewrite Hmin, row_S, Hg, visit_all_app, flat_map_app, <- app_assoc.
    cbn [visit_all fold_left flat_map]. by rewrite app_nil_r.
  - assert (Hmin : min (S g) (Z.to_nat M) = min g (Z.to_nat M)) by lia.
    rewrite Hmin. by rewrite app_nil_r.
Qed.

Lemma grid_S g0 g1 :
  grid g0 (S g1) = grid g0 g1 ++ ((λ m, (m, g1)) <$> seq 0 g0).
Proof.
  unfold grid. rewrite seq_S, bind_app. f_equal. cbn.
  rewrite app_nil_r. induction (seq 0 g0) as [|m l IH]; [done|].
  cbn. by rewrite IH.
Qed.

(** The whole grid updates every element, group by group. *)
Lemma blocked_grid k st0 st g0 g1 :
  core_ok k → mem_ok k st0 → same_shape st0 st →
  Forall (λ M, M ≤ Z.of_nat g0) (km_lengths st0) →
  (g1 ≤ length (km_lengths st0))%nat →
  ∃ st',
    run_items (λ mn, blocked_item k (Z.of_nat mn.1) mn.2) (grid g0 g1) st
    = Some st'
    ∧ same_shape st0 st'
    ∧ km_data st'
      = visit_all k st0 (elems (take g1 (km_lengths st0))) (km_data st)
    ∧ data_accesses (km_log st')
      = data_accesses (km_log st)
        ++ flat_map (elem_accesses k st0) (elems (take g1 (km_lengths st0))).
Proof.
  intros Hcore Hmem Hsh Hmax. induction g1 as [|g1 IH]; intros Hg1.
  { exists st. split_and!; try done. cbn. by rewrite app_nil_r. }
  destruct IH as (st1 & Hrun & Hsh1 & Hd1 & Hl1); [lia|].
  assert (is_Some (km_lengths st0 !! g1)) as [M HM].
  { apply lookup_lt_is_Some. lia. }
  assert (HMle : M ≤ Z.of_nat g0).
  { rewrite Forall_forall in Hmax. apply Hmax.
    by eapply list_elem_of_lookup_2. }
  rewrite grid_S, run_items_app, Hrun. cbn [mbind option_bind].
  destruct (blocked_row k st0 st1 g1 M g0 Hcore Hmem Hsh1 HM)
    as (st2 & Hrow & Hsh2 & Hd2 & Hl2).
  exists st2. split; [done|]. split; [done|].
  assert (Hmin : min g0 (Z.to_nat M) = Z.to_nat M) by lia.
  rewrite Hmin in Hd2, Hl2.
  rewrite (elems_take_S _ _ _ HM), visit_all_app, flat_map_app.
  rewrite Hd2, Hl2, Hd1, Hl1. by rewrite <- app_assoc.
Qed.

End GridRun.

(** ** The flattened grid, element by element *)

Section RunFacts.

Import Template Kernel.

Lemma elems_at_cons lengths n l m :
  0 ≤ m < l →
  elems_at lengths n l m = (n, m) :: elems_at lengths n l (m + 1).
Proof.
  intros Hm. unfold elems_at.
  replace (Z.to_nat (l - m)) with (S (Z.to_nat (l - (m + 1)))) by lia.
  cbn [seq fmap list_fmap app]. f_equal; [f_equal; lia|]. f_equal.
  rewrite <- fmap_S_seq, <- list_fmap_compose.
  apply list_fmap_ext. intros i j _. cbn. f_equal. lia.
Qed.

Lemma elems_at_end_last lengths n l :
  (length lengths ≤ S n)%nat → elems_at lengths n l l = [].
Proof.
  intros Hn. unfold elems_at. rewrite Z.sub_diag. cbn.
  by rewrite drop_ge.
Qed.

Lemma elems_at_end_next lengths n l l' :
  lengths !! S n = Some l' →
  elems_at lengths n l l = elems_at lengths (S n) l' 0.
Proof.
  intros Hl'. unfold elems_at. rewrite Z.sub_diag. cbn [Z.to_nat seq fmap list_fmap app].
  rewrite (drop_S _ _ _ Hl'). cbn [elems_from]. rewrite Z.sub_0_r.
  f_equal.
Qed.

Lemma cur_at_spec st names n m :
  (∀ x, x ∈ names → is_Some (start_of st x n)) →
  ∃ cur, cur_at st names n m = Some cur
         ∧ ∀ x, x ∈ names → cur !! x = elem_addr st x n m.
Proof.
  induction names as [|y names IH]; intros Hall.
  { exists ∅. split; [done|]. intros x Hx. by apply elem_of_nil in Hx. }
  destruct IH as (c & Hc & Hlook).
  { intros x Hx. apply Hall. by right. }
  destruct (Hall y) as [off Hoff]; [left|].
  exists (<[y := off + m]> c). split.
  - cbn. rewrite Hoff. cbn. by rewrite Hc.
  - intros x Hx. destruct (decide (x = y)) as [->|Hne].
    + rewrite lookup_insert_eq. unfold elem_addr. by rewrite Hoff.
    + rewrite lookup_insert_ne by done. apply Hlook.
      apply elem_of_cons in Hx as [?|?]; done.
Qed.

Lemma mem_ok_start k st n x :
  mem_ok k st → (n < length (km_lengths st))%nat →
  x ∈ keys (kn_variables k) → is_Some (start_of st x n).
Proof.
  intros (_ & Hok & _) Hn Hx. specialize (Hok x Hx).
  unfold var_okb in Hok. unfold start_of.
  destruct (km_starts st !! x) as [sts|]; [|done].
  destruct (km_data st !! x) as [b|]; [|done]. cbn.
  apply lookup_lt_is_Some. by rewrite (layout_ok_length _ _ _ Hok).
Qed.

Lemma elem_addr_succ st x n m :
  Z.succ <$> elem_addr st x n m = elem_addr st x n (m + 1).
Proof.
  unfold elem_addr. destruct (start_of st x n) as [off|]; [|done].
  cbn. f_equal. lia.
Qed.

(** The iterations of a work item that sits on element [(n, m)] update the
    next [left] elements in the order of the flat index, provided no group
    is empty (or there is a single iteration). *)
Lemma flat_loop_data k st0 left :
  core_ok k → mem_ok k st0 →
  (left ≤ 1)%nat ∨ Forall (λ l, 0 < l) (km_lengths st0) →
  ∀ m n l cur (e : env) st,
    same_shape st0 st →
    km_lengths st0 !! n = Some l → 0 ≤ m < l →
    (∀ x, x ∈ keys (kn_ivariables k) ++ keys (kn_ovariables k) →
          cur !! x = elem_addr st0 x n m) →
    (∀ x, is_Some (kn_sparams k !! x) →
          e !! x = sparam_env (kn_sparams k) !! x) →
    ∃ st',
      flat_loop k left m n cur e st = Some st'
      ∧ same_shape st0 st'
      ∧ km_data st'
        = visit_all k st0 (take left (elems_at (km_lengths st0) n l m))
            (km_data st)
      ∧ data_accesses (km_log st')
        = data_accesses (km_log st)
          ++ flat_map (elem_accesses k st0)
               (take left (elems_at (km_lengths st0) n l m)).
Proof.
  intros Hcore Hmem0. induction left as [|left IH];
    intros Hpos m n l cur e st Hsh Hl Hm Hcur He.
  { exists st. split_and!; try done. cbn. by rewrite app_nil_r. }
  pose proof (same_shape_mem_ok k st0 st Hsh Hmem0) as Hmem.
  pose proof Hsh as (Hs & HL & _).
  assert (Hl' : km_lengths st !! n = Some l) by by rewrite HL.
  destruct (iteration_data k st0 st n l m cur e Hcore Hmem Hsh Hl' Hm Hcur He)
    as (e1 & st1 & Hread & Hwrite & Hsh1 & Hd1 & Hlog1 & He1).
  assert (Hsh01 : same_shape st0 st1) by by eapply same_shape_trans.
  assert (Hacc1 : data_accesses (km_log st1)
                  = data_accesses (km_log st) ++ elem_accesses k st0 (n, m)).
  { rewrite Hlog1, data_accesses_app. f_equal.
    apply (data_accesses_elem k st0 (n, m)). }
  cbn [flat_loop]. rewrite Hread. cbn [mbind option_bind fst snd].
  rewrite Hwrite. cbn [mbind option_bind].
  rewrite (elems_at_cons _ _ _ _ Hm). cbn [take].
  destruct left as [|left'].
  { exists st1. split; [done|]. split; [done|]. cbn [take].
    split; [by rewrite Hd1|]. rewrite Hacc1. cbn. by rewrite app_nil_r. }
  destruct Hpos as [Hle|Hpos]; [lia|].
  pose proof Hsh01 as (Hs1 & HL1 & _).
  unfold read_lengths. rewrite HL1, Hl. cbn [mbind option_bind fst snd].
  set (st2 := note (RdLengths n) st1).
  assert (Hsh2 : same_shape st0 st2) by exact Hsh01.
  assert (Hacc2 : data_accesses (km_log st2) = data_accesses (km_log st1)).
  { unfold st2. cbn [km_log note set_log]. rewrite data_accesses_app.
    cbn. by rewrite app_nil_r. }
  assert (Hstep : ∀ st' tl,
    same_shape st0 st' →
    km_data st' = visit_all k st0 tl (km_data st2) →
    data_accesses (km_log st')
    = data_accesses (km_log st2) ++ flat_map (elem_accesses k st0) tl →
    same_shape st0 st'
    ∧ km_data st' = visit_all k st0 ((n, m) :: tl) (km_data st)
    ∧ data_accesses (km_log st')
      = data_accesses (km_log st)
        ++ flat_map (elem_accesses k st0) ((n, m) :: tl)).
  { intros st' tl Hsh' Hd' Hacc'. split; [done|]. split.
    - rewrite Hd'. unfold st2. cbn [km_data note set_log]. rewrite Hd1. done.
    - rewrite Hacc', Hacc2, Hacc1. cbn [flat_map]. by rewrite <- app_assoc. }
  destruct (l <=? m + 1) eqn:E.
  - apply Z.leb_le in E. assert (m + 1 = l) as Heq by lia. rewrite Heq.
    case_bool_decide as HN.
    + exists st2. split; [done|].
      destruct Hmem0 as (HN0 & _). rewrite HN0 in HN.
      rewrite elems_at_end_last by done.
      apply Hstep; [done|by rewrite take_nil|].
      rewrite take_nil. cbn. by rewrite app_nil_r.
    + pose proof Hmem0 as (HN0 & _). rewrite HN0 in HN.
      assert (is_Some (km_lengths st0 !! S n)) as [l2 Hl2].
      { apply lookup_lt_is_Some. lia. }
      assert (Hl2pos : 0 < l2).
      { rewrite Forall_forall in Hpos. apply Hpos.
        by eapply list_elem_of_lookup_2. }
      destruct (cur_at_spec st2 (keys (kn_variables k)) (S n) 0)
        as (cur2 & Hcur2 & Hlook2).
      { intros x Hx. eapply mem_ok_start; [|..|done].
        - by eapply same_shape_mem_ok.
        - destruct Hsh2 as (_ & -> & _). lia. }
      rewrite Hcur2. cbn [mbind option_bind].
      assert (Hc2 : ∀ x, x ∈ keys (kn_ivariables k)
                             ++ keys (kn_ovariables k) →
                         cur2 !! x = elem_addr st0 x (S n) 0).
      { intros x Hx. pose proof Hmem0 as (_ & _ & Hcov).
        rewrite (Hlook2 x (Hcov x Hx)).
        apply (same_shape_elem_addr st0 st2 x (S n) 0 Hsh2). }
      destruct (IH (or_intror Hpos) 0 (S n) l2 cur2 (kn_core k e1) st2
                  Hsh2 Hl2 ltac:(lia) Hc2 He1)
        as (st3 & Hloop & Hsh3 & Hd3 & Hacc3).
      exists st3. split; [done|].
      rewrite (elems_at_end_next _ _ _ _ Hl2). by apply Hstep.
  - apply Z.leb_gt in E.
    assert (Hc2 : ∀ x, x ∈ keys (kn_ivariables k)
                           ++ keys (kn_ovariables k) →
                       (Z.succ <$> cur) !! x = elem_addr st0 x n (m + 1)).
    { intros x Hx. rewrite lookup_fmap, (Hcur x Hx).
      apply elem_addr_succ. }
    destruct (IH (or_intror Hpos) (m + 1) n l (Z.succ <$> cur)
                (kn_core k e1) st2 Hsh2 Hl ltac:(lia) Hc2 He1)
      as (st3 & Hloop & Hsh3 & Hd3 & Hacc3).
    exists st3. split; [done|]. by apply Hstep.
Qed.

End RunFacts.

Section FlatRun.

Import Template Kernel.

Lemma length_elems_from n rest :
  Forall (λ l, 0 ≤ l) rest →
  length (elems_from n rest) = Z.to_nat (np_sum rest).
Proof.
  intros Hall. revert n. induction Hall as [|l rest Hl Hall IH]; intros n.
  { done. }
  cbn [elems_from]. rewrite length_app, length_fmap, length_seq, IH.
  rewrite np_sum_cons. pose proof (np_sum_nonneg rest Hall). lia.
Qed.

Lemma seq_from a n : seq a n = Nat.add a <$> seq 0 n.
Proof. rewrite fmap_add_seq. f_equal. lia. Qed.

(** Where the walk stops, the remaining elements are those from the flat
    index on. *)
Lemma walk_elems rest p n0 log m n log' :
  Forall (λ l, 0 ≤ l) rest → 0 ≤ p →
  walk rest p n0 log = Some (m, n, log') →
  ∃ k l, n = (n0 + k)%nat ∧ rest !! k = Some l ∧ 0 ≤ m < l
         ∧ drop (Z.to_nat p) (elems_from n0 rest)
           = ((λ i, (n, m + Z.of_nat i)) <$> seq 0 (Z.to_nat (l - m)))
             ++ elems_from (S n) (drop (S k) rest)
         ∧ data_accesses log' = data_accesses log.
Proof.
  intros Hall. revert p n0 log.
  induction Hall as [|l rest Hl Hall IH]; intros p n0 log Hp Hw; [done|].
  cbn [walk] in Hw. destruct (l <=? p) eqn:E.
  - apply Z.leb_le in E.
    destruct (IH (p - l) (S n0) _ ltac:(lia) Hw)
      as (k & l2 & -> & Hk & Hm & Hdrop & Hacc).
    exists (S k), l2. split; [lia|]. split; [done|]. split; [done|]. split.
    + cbn [elems_from]. rewrite drop_app_ge by (rewrite length_fmap, length_seq; lia).
      rewrite length_fmap, length_seq.
      replace (Z.to_nat p - Z.to_nat l)%nat with (Z.to_nat (p - l)) by lia.
      rewrite Hdrop. cbn [drop].
      replace (n0 + S k)%nat with (S n0 + k)%nat by lia. done.
    + rewrite Hacc, data_accesses_app. cbn. by rewrite app_nil_r.
  - apply Z.leb_gt in E. injection Hw as <- <- <-.
    exists 0%nat, l. split; [lia|]. split; [done|]. split; [lia|]. split.
    + cbn [elems_from drop]. rewrite drop_app_le by (rewrite length_fmap, length_seq; lia).
      rewrite drop_0. f_equal. rewrite <- fmap_drop, drop_seq.
      replace (Z.to_nat l - Z.to_nat p)%nat with (Z.to_nat (l - p)) by lia.
      rewrite (seq_from (0 + Z.to_nat p)), <- list_fmap_compose.
      apply list_fmap_ext. intros i j _. cbn. f_equal; lia.
    + rewrite data_accesses_app. cbn. by rewrite app_nil_r.
Qed.

(** A work item of the flattened grid updates the elements of its run. *)
Lemma flat_item_data k st0 st gid :
  core_ok k → mem_ok k st0 → same_shape st0 st →
  0 < kn_n_elements k →
  kn_n_elements k = 1 ∨ Forall (λ l, 0 < l) (km_lengths st0) →
  Forall (λ l, 0 ≤ l) (km_lengths st0) →
  Z.of_nat gid * kn_n_elements k < np_sum (km_lengths st0) →
  ∃ st',
    flat_item k gid st = Some st' ∧ same_shape st0 st'
    ∧ km_data st'
      = visit_all k st0
          (take (Z.to_nat (kn_n_elements k))
             (drop (Z.to_nat (Z.of_nat gid * kn_n_elements k))
                (elems (km_lengths st0))))
          (km_data st)
    ∧ data_accesses (km_log st')
      = data_accesses (km_log st)
        ++ flat_map (elem_accesses k st0)
             (take (Z.to_nat (kn_n_elements k))
                (drop (Z.to_nat (Z.of_nat gid * kn_n_elements k))
                   (elems (km_lengths st0)))).
Proof.
  intros Hcore Hmem0 Hsh Hc Hpos Hnn Hlt.
  pose proof Hsh as (Hs & HL & _).
  assert (Hp0 : 0 ≤ Z.of_nat gid * kn_n_elements k) by nia.
  set (p := Z.of_nat gid * kn_n_elements k) in *.
  destruct (walk_resolves (km_lengths st0) p 0 (km_log st) Hnn Hp0 Hlt)
    as (n & l & m & Hw & Hl & Hm & _).
  destruct (walk_elems _ _ _ _ _ _ _ Hnn Hp0 Hw)
    as (n' & l' & Hn' & Hl' & _ & Hdrop & Hacc).
  cbn in Hn'. subst n'. cbn [Nat.add] in Hw, Hdrop.
  rewrite Hl in Hl'. injection Hl' as <-.
  unfold flat_item. rewrite HL. fold p. rewrite Hw.
  cbn [mbind option_bind].
  pose proof Hmem0 as (HN & _).
  pose proof (lookup_lt_Some _ _ _ Hl) as Hn.
  rewrite bool_decide_eq_false_2 by lia.
  set (st1 := set_log st _).
  assert (Hsh1 : same_shape st0 st1) by exact Hsh.
  destruct (cur_at_spec st1
              (keys (kn_ivariables k) ++ keys (kn_ovariables k)) n m)
    as (cur & Hcur & Hlook).
  { intros x Hx. pose proof Hmem0 as (_ & _ & Hcov).
    eapply mem_ok_start; [|..|by apply Hcov].
    - by eapply same_shape_mem_ok.
    - destruct Hsh1 as (_ & -> & _). lia. }
  rewrite Hcur. cbn [mbind option_bind].
  assert (Hc1 : ∀ x, x ∈ keys (kn_ivariables k) ++ keys (kn_ovariables k) →
                     cur !! x = elem_addr st0 x n m).
  { intros x Hx. rewrite (Hlook x Hx).
    apply (same_shape_elem_addr st0 st1 x n m Hsh1). }
  destruct (flat_loop_data k st0 (Z.to_nat (kn_n_elements k)) Hcore Hmem0)
    with (m := m) (n := n) (l := l) (cur := cur)
         (e := sparam_env (kn_sparams k)) (st := st1)
    as (st2 & Hloop & Hsh2 & Hd2 & Hacc2); try done.
  { destruct Hpos as [->|Hpos]; [left; lia|by right]. }
  exists st2. split; [done|]. split; [done|].
  unfold elems. rewrite Hdrop. fold (elems_at (km_lengths st0) n l m).
  split; [done|]. rewrite Hacc2. f_equal. exact Hacc.
Qed.

End FlatRun.

Section LaunchFacts.

Import Template Kernel.

(** The first [g] work items of the flattened grid update the first
    [g * n_elements] elements. *)
Lemma flat_run k st0 st (G : nat) :
  core_ok k → mem_ok k st0 → same_shape st0 st →
  0 < kn_n_elements k →
  kn_n_elements k = 1 ∨ Forall (λ l, 0 < l) (km_lengths st0) →
  Forall (λ l, 0 ≤ l) (km_lengths st0) →
  (Z.of_nat G - 1) * kn_n_elements k < np_sum (km_lengths st0) →
  ∀ g, (g ≤ G)%nat →
    ∃ st',
      run_items (flat_item k) (seq 0 g) st = Some st' ∧ same_shape st0 st'
      ∧ km_data st'
        = visit_all k st0
            (take (g * Z.to_nat (kn_n_elements k)) (elems (km_lengths st0)))
            (km_data st)
      ∧ data_accesses (km_log st')
        = data_accesses (km_log st)
          ++ flat_map (elem_accesses k st0)
               (take (g * Z.to_nat (kn_n_elements k))
                  (elems (km_lengths st0))).
Proof.
  intros Hcore Hmem Hsh Hc Hpos Hnn HG. induction g as [|g IH]; intros Hg.
  { exists st. split_and!; try done. cbn. by rewrite app_nil_r. }
  destruct IH as (st1 & Hrun & Hsh1 & Hd1 & Hacc1); [lia|].
  rewrite seq_S, run_items_app, Hrun. cbn [mbind option_bind Nat.add].
  rewrite run_items_cons.
  destruct (flat_item_data k st0 st1 g Hcore Hmem Hsh1 Hc Hpos Hnn)
    as (st2 & Hitem & Hsh2 & Hd2 & Hacc2); [nia|].
  rewrite Hitem. cbn [mbind option_bind]. rewrite run_items_nil.
  exists st2. split; [done|]. split; [done|].
  assert (Hidx : Z.to_nat (Z.of_nat g * kn_n_elements k)
                 = (g * Z.to_nat (kn_n_elements k))%nat) by nia.
  rewrite Hidx in Hd2, Hacc2.
  assert (Htake : take (S g * Z.to_nat (kn_n_elements k))
                    (elems (km_lengths st0))
                  = take (g * Z.to_nat (kn_n_elements k))
                      (elems (km_lengths st0))
                    ++ take (Z.to_nat (kn_n_elements k))
                         (drop (g * Z.to_nat (kn_n_elements k))
                            (elems (km_lengths st0)))).
  { rewrite take_take_drop. f_equal. lia. }
  rewrite Htake, visit_all_app, flat_map_app, Hd2, Hacc2, Hd1, Hacc1.
  by rewrite <- app_assoc.
Qed.

(** Both launches update every element once, in the order of the flat
    index. *)
Lemma launch_blocked k st g0 g1 :
  kn_n_elements k = 0 →
  core_ok k → mem_ok k st →
  Forall (λ M, 0 ≤ M ≤ g0) (km_lengths st) →
  g1 = Z.of_nat (length (km_lengths st)) →
  ∃ st',
    launch k [g0; g1] st = Some st' ∧ same_shape st st'
    ∧ km_data st' = visit_all k st (elems (km_lengths st)) (km_data st)
    ∧ data_accesses (km_log st')
      = data_accesses (km_log st)
        ++ flat_map (elem_accesses k st) (elems (km_lengths st)).
Proof.
  intros Hn Hcore Hmem Hmax ->. unfold launch. rewrite Hn. cbn [Z.ltb Z.compare].
  rewrite Nat2Z.id.
  destruct (blocked_grid k st st (Z.to_nat g0) (length (km_lengths st)))
    as (st' & Hrun & Hsh & Hd & Hacc); try done.
  { eapply Forall_impl; [exact Hmax|]. intros M HM. cbn in HM. lia. }
  rewrite take_ge in Hd, Hacc by done.
  by exists st'.
Qed.

Lemma launch_flattened k st g :
  0 < kn_n_elements k →
  core_ok k → mem_ok k st →
  kn_n_elements k = 1 ∨ Forall (λ l, 0 < l) (km_lengths st) →
  Forall (λ l, 0 ≤ l) (km_lengths st) →
  (g - 1) * kn_n_elements k < np_sum (km_lengths st) ≤ g * kn_n_elements k →
  ∃ st',
    launch k [g] st = Some st' ∧ same_shape st st'
    ∧ km_data st' = visit_all k st (elems (km_lengths st)) (km_data st)
    ∧ data_accesses (km_log st')
      = data_accesses (km_log st)
        ++ flat_map (elem_accesses k st) (elems (km_lengths st)).
Proof.
  intros Hc Hcore Hmem Hpos Hnn Hg. unfold launch.
  destruct (0 <? kn_n_elements k) eqn:E; [|lia].
  pose proof (np_sum_nonneg _ Hnn) as Htot.
  assert (Hg0 : 0 ≤ g) by nia.
  destruct (flat_run k st st (Z.to_nat g) Hcore Hmem) with (g := Z.to_nat g)
    as (st' & Hrun & Hsh & Hd & Hacc); try done.
  { rewrite Z2Nat.id by done. lia. }
  rewrite take_ge in Hd, Hacc.
  2,3: unfold elems; rewrite length_elems_from by done; nia.
  by exists st'.
Qed.

End LaunchFacts.

(** ** The two strategies on the same plan *)

Section StrategyFacts.

Import Template Kernel Plan Words.

(** The memory a built plan is bound to fits its kernel, provided the
    arrays obey the layout contract of the container. *)
Lemma plan_bound_mem name core tag n inputs outputs parameters p base su :
  plan_template name core tag n inputs outputs parameters = Ok p →
  reference inputs = Ok base →
  classify parameters = Ok su →
  (∀ x a, (su.2 ∪ inputs) !! x = Some a ∨ outputs !! x = Some a →
          ragged_wf a = true) →
  let st := bound_mem
              (map_to_list (su.2 ∪ inputs) ++ map_to_list outputs) base in
  bound p = Some st ∧ mem_ok (plan_fn p) st
  ∧ kn_n_elements (plan_fn p) = n
  ∧ kn_sparams (plan_fn p) = su.1
  ∧ dom (kn_ivariables (plan_fn p)) = dom (su.2 ∪ inputs)
  ∧ dom (kn_ovariables (plan_fn p)) = dom outputs.
Proof.
  intros Hp Hbase Hcl Hwf st.
  apply plan_template_Ok in Hp
    as (base' & su' & vars & iv & ov & gs & Hbase' & Hsu & Hres & Hiv & Hov
        & _ & ->).
  rewrite Hbase in Hbase'. injection Hbase' as <-.
  rewrite Hcl in Hsu. injection Hsu as <-.
  set (ivars := su.2 ∪ inputs) in *.
  destruct (resolved_views _ _ _ _ _ _ _ Hres Hiv Hov)
    as (Hnd & Hdi & Hdo & Hdv).
  pose proof (resolve_spec (ra_len base) base
                (map_to_list ivars ++ map_to_list outputs)) as Hspec.
  rewrite Hres in Hspec. destruct Hspec as (_ & Hvalid & _).
  cbn [plan_fn kn_ivariables kn_ovariables kn_sparams kn_n_elements].
  split_and!; try done.
  - unfold bound. cbn [plan_fn plan_full_args kn_ivariables kn_ovariables].
    unfold kernel_params.
    rewrite (var_params_same_dom true iv ivars Hdi),
            (var_params_same_dom false ov outputs Hdo).
    apply bind_full_args.
  - split_and!.
    + done.
    + intros x Hx. cbn [kn_variables] in Hx.
      apply elem_of_keys, elem_of_dom in Hx. rewrite Hdv in Hx.
      assert (∃ a, (ivars !! x = Some a ∨ outputs !! x = Some a)
                   ∧ (outputs ∪ ivars) !! x = Some a) as (a & Hxa & Hlook).
      { apply elem_of_union in Hx as [Hx|Hx]; apply elem_of_dom in Hx as [a Ha].
        - exists a. split; [by left|]. rewrite lookup_union_r; [done|].
          eapply NoDup_items_disjoint; [exact Hnd|]. by exists a.
        - exists a. split; [by right|]. by apply lookup_union_Some_l. }
      assert (Hva : valid_var (ra_len base) base a).
      { rewrite Forall_forall in Hvalid. apply (Hvalid (x, a)).
        apply elem_of_app.
        destruct Hxa as [Ha|Ha]; [left|right]; by apply elem_of_map_to_list. }
      destruct Hva as (_ & Hs0 & _).
      specialize (Hwf x a Hxa). unfold ragged_wf in Hwf.
      rename Hwf into Hlay.
      unfold var_okb, st, bound_mem. cbn [km_starts km_data km_lengths].
      rewrite !lookup_fmap, py_dict_merge, Hlook. cbn. by rewrite <- Hs0.
    + intros x Hx. cbn [kn_ivariables kn_ovariables kn_variables] in *.
      apply elem_of_keys, elem_of_dom. rewrite Hdv. apply elem_of_union.
      apply elem_of_app in Hx as [Hx|Hx];
        apply elem_of_keys, elem_of_dom in Hx.
      * left. by rewrite <- Hdi.
      * right. by rewrite <- Hdo.
Qed.

(** Two builds that differ in [n_elements] only render the same kernel up
    to [n_elements]. *)
Lemma plan_fn_n_elements name core tag n n' inputs outputs parameters p p' :
  plan_template name core tag n inputs outputs parameters = Ok p →
  plan_template name core tag n' inputs outputs parameters = Ok p' →
  plan_fn p' = with_n_elements (plan_fn p) n'.
Proof.
  intros Hp Hp'.
  apply plan_template_Ok in Hp
    as (base & su & vars & iv & ov & gs & Hbase & Hsu & Hres & Hiv & Hov
        & _ & ->).
  apply plan_template_Ok in Hp'
    as (base' & su' & vars' & iv' & ov' & gs' & Hbase' & Hsu' & Hres' & Hiv'
        & Hov' & _ & ->).
  rewrite Hbase in Hbase'. injection Hbase' as <-.
  rewrite Hsu in Hsu'. injection Hsu' as <-.
  rewrite Hres in Hres'. injection Hres' as <-.
  rewrite Hiv in Hiv'. injection Hiv' as <-.
  rewrite Hov in Hov'. injection Hov' as <-.
  done.
Qed.

(** The work sizes of the two strategies. *)
Lemma plan_gsize_spec name core tag n inputs outputs parameters p base :
  plan_template name core tag n inputs outputs parameters = Ok p →
  reference inputs = Ok base →
  gsize n base = Ok (plan_gsize p).
Proof.
  intros Hp Hbase.
  apply plan_template_Ok in Hp
    as (base' & su & vars & iv & ov & gs & Hbase' & _ & _ & _ & _ & Hgs & ->).
  rewrite Hbase in Hbase'. by injection Hbase' as <-.
Qed.

End StrategyFacts.

Section Agreement.

Import Template Kernel Plan.

Lemma reference_lookup inputs base :
  reference inputs = Ok base → ∃ x, inputs !! x = Some base.
Proof.
  unfold reference. destruct (map_to_list inputs) as [|[x a] l] eqn:E; [done|].
  intros [= <-]. exists x. apply elem_of_map_to_list. rewrite E. left.
Qed.

End Agreement.


(** ** The LIF body as an update rule *)

Section StmtFacts.

Lemma preserves_assign x y rhs : x ≠ y → preserves y (assign x rhs).
Proof. intros Hne e. unfold assign. by rewrite lookup_insert_ne. Qed.

Lemma preserves_seq y s1 s2 :
  preserves y s1 → preserves y s2 → preserves y (s1 >> s2).
Proof. intros H1 H2 e. unfold seq_stmt. by rewrite H2, H1. Qed.

Lemma preserves_ifte y b s1 s2 :
  preserves y s1 → preserves y s2 → preserves y (ifte b s1 s2).
Proof. intros H1 H2 e. unfold ifte. destruct (b e); [apply H1|apply H2]. Qed.

Lemma preserves_skip y : preserves y skip.
Proof. by intros e. Qed.

Lemma keeps_assign x y rhs : keeps y (assign x rhs).
Proof.
  intros e He. unfold assign. destruct (decide (x = y)) as [->|Hne].
  - rewrite lookup_insert_eq. eauto.
  - by rewrite lookup_insert_ne.
Qed.

Lemma keeps_seq y s1 s2 : keeps y s1 → keeps y s2 → keeps y (s1 >> s2).
Proof. intros H1 H2 e He. unfold seq_stmt. by apply H2, H1. Qed.

Lemma keeps_ifte y b s1 s2 : keeps y s1 → keeps y s2 → keeps y (ifte b s1 s2).
Proof.
  intros H1 H2 e He. unfold ifte. destruct (b e); [by apply H1|by apply H2].
Qed.

Lemma keeps_skip y : keeps y skip.
Proof. by intros e He. Qed.

Lemma assigns_assign x rhs : assigns x (assign x rhs).
Proof. intros e. unfold assign. rewrite lookup_insert_eq. eauto. Qed.

Lemma assigns_seq_l y s1 s2 : assigns y s1 → keeps y s2 → assigns y (s1 >> s2).
Proof. intros H1 H2 e. unfold seq_stmt. apply H2, H1. Qed.

Lemma assigns_seq_r y s1 s2 : assigns y s2 → assigns y (s1 >> s2).
Proof. intros H2 e. unfold seq_stmt. apply H2. Qed.

End StmtFacts.

Create HintDb stmt.
#[export] Hint Resolve preserves_seq preserves_ifte preserves_skip
  keeps_assign keeps_seq keeps_ifte keeps_skip
  assigns_assign assigns_seq_l assigns_seq_r : stmt.
#[export] Hint Extern 1 (preserves _ (assign _ _)) =>
  apply preserves_assign; discriminate : stmt.

Section LifRule.

Import Lif.
Local Open Scope Q_scope.

Lemma lif_text_preserves c x :
  x = "tau"%string ∨ x = "ref"%string → preserves x (lif_text c).
Proof. intros [->| ->]; unfold lif_text; auto 20 with stmt. Qed.

Lemma lif_text_assigns c y :
  y ∈ ["ov"; "ow"; "os"]%string → assigns y (lif_text c).
Proof.
  intros Hy. unfold lif_text.
  repeat (apply elem_of_cons in Hy as [->|Hy]); [..|by apply elem_of_nil in Hy];
    auto 20 with stmt.
Qed.

End LifRule.

Ltac exec_if :=
  match goal with
  | |- context [if true then _ else _] => progress cbv iota
  | |- context [if false then _ else _] => progress cbv iota
  | H : ?c = _ |- context [if ?c then _ else _] => rewrite H
  | |- context [if ?c then _ else _] => destruct c eqn:?
  end.

Ltac in_list := repeat first [by left | right].

Section LifLocal.

Import Lif.
Local Open Scope Q_scope.

(** The outputs of the body are a function of [j v w tau ref]. *)
Lemma lif_text_local c (e e' : env) :
  (∀ x, x ∈ ["j"; "v"; "w"; "tau"; "ref"]%string → rd e x = rd e' x) →
  lif_outputs (lif_text c e) = lif_outputs (lif_text c e').
Proof.
  intros H.
  assert (Hj : rd e "j" = rd e' "j") by (apply H; in_list).
  assert (Hv : rd e "v" = rd e' "v") by (apply H; in_list).
  assert (Hw : rd e "w" = rd e' "w") by (apply H; in_list).
  assert (Htau : rd e "tau" = rd e' "tau") by (apply H; in_list).
  assert (Href : rd e "ref" = rd e' "ref") by (apply H; in_list).
  clear H.
  remember (rd e' "j") as j eqn:Hj'. remember (rd e' "v") as v eqn:Hv'.
  remember (rd e' "w") as w eqn:Hw'. remember (rd e' "tau") as tau eqn:Htau'.
  remember (rd e' "ref") as ref eqn:Href'.
  symmetry in Hj', Hv', Hw', Htau', Href'.
  unfold lif_text, lif_outputs, seq_stmt.
  repeat first [exec_ifte | exec_if | progress unfold skip | exec_assign];
    rd_all; repeat exec_if; reflexivity.
Qed.

Lemma rd_lookup_Some (e e' : env) x :
  is_Some (e !! x) → is_Some (e' !! x) → rd e x = rd e' x → e !! x = e' !! x.
Proof. unfold rd. intros [q ->] [q' ->]. cbn. by intros ->. Qed.

(** The LIF body is a well-behaved update rule for a kernel that reads
    [j v w], writes [ov ow os] and has [tau] and [ref] as constants. *)
Lemma lif_core_ok c (k : Kernel.kernel) :
  Kernel.kn_core k = lif_text c →
  (∀ x, x ∈ Kernel.keys (Kernel.kn_ivariables k) →
        x ∈ ["j"; "v"; "w"]%string) →
  (∀ x, x ∈ ["j"; "v"; "w"]%string →
        x ∈ Kernel.keys (Kernel.kn_ivariables k)) →
  (∀ y, y ∈ Kernel.keys (Kernel.kn_ovariables k) →
        y ∈ ["ov"; "ow"; "os"]%string) →
  (∀ x, is_Some (Kernel.kn_sparams k !! x) ↔
        x = "tau"%string ∨ x = "ref"%string) →
  Kernel.core_ok k.
Proof.
  intros Hcore Hiv Hiv' Hov Hsp. unfold Kernel.core_ok. rewrite Hcore.
  split_and!.
  - intros e y Hy. by apply lif_text_assigns, Hov.
  - intros e e' Hin Hconst y Hy. apply Hov in Hy.
    apply rd_lookup_Some; [by apply lif_text_assigns..|].
    assert (Hloc : lif_outputs (lif_text c e) = lif_outputs (lif_text c e')).
    { apply lif_text_local. intros x Hx. apply rd_lookup_eq.
      repeat (apply elem_of_cons in Hx as [->|Hx]);
        [apply Hin, Hiv'; in_list..|apply Hconst, Hsp; tauto
        |apply Hconst, Hsp; tauto|by apply elem_of_nil in Hx]. }
    unfold lif_outputs in Hloc. injection Hloc as H1 H2 H3.
    repeat (apply elem_of_cons in Hy as [->|Hy]); try done.
    by apply elem_of_nil in Hy.
  - intros e x Hx. apply lif_text_preserves. by apply Hsp.
  - intros x Hx. apply Hiv in Hx. apply eq_None_not_Some. intros Hs.
    apply Hsp in Hs.
    repeat (apply elem_of_cons in Hx as [->|Hx]);
      [destruct Hs; discriminate..|by apply elem_of_nil in Hx].
Qed.

End LifLocal.

Section LifInstance.

Import Template Kernel Plan.

Lemma plan_kernel_facts name core tag n inputs outputs parameters p su :
  plan_template name core tag n inputs outputs parameters = Ok p →
  classify parameters = Ok su →
  kn_core (plan_fn p) = core
  ∧ keys (kn_ivariables (plan_fn p)) = keys (su.2 ∪ inputs)
  ∧ keys (kn_ovariables (plan_fn p)) = keys outputs
  ∧ kn_sparams (plan_fn p) = su.1.
Proof.
  intros Hp Hcl.
  apply plan_template_Ok in Hp
    as (base & su' & vars & iv & ov & gs & _ & Hsu & Hres & Hiv & Hov
        & _ & ->).
  rewrite Hcl in Hsu. injection Hsu as <-.
  destruct (resolved_views _ _ _ _ _ _ _ Hres Hiv Hov) as (_ & Hdi & Hdo & _).
  cbn. split_and!; try done; by apply keys_same_dom.
Qed.

Lemma lookup_forallb {A} (P : A → bool) (m : gmap string A) :
  forallb (λ kv, P kv.2) (map_to_list m) = true →
  ∀ x a, m !! x = Some a → P a = true.
Proof.
  rewrite List.forallb_forall. intros H x a Hxa.
  apply (H (x, a)). apply list_elem_of_In. by apply elem_of_map_to_list.
Qed.


End LifInstance.

(** ** The result of a launch, element by element *)

Section PointwiseFacts.

Import Template Kernel Elementwise.

Lemma poke_lookup d y a v z :
  poke d y a v !! z
  = if decide (z = y) then (λ b, <[Z.to_nat a := v]> b) <$> d !! z
    else d !! z.
Proof.
  unfold poke. destruct (d !! y) as [b|] eqn:E.
  - destruct (decide (z = y)) as [->|Hne].
    + by rewrite lookup_insert_eq, E.
    + by rewrite lookup_insert_ne.
  - destruct (decide (z = y)) as [->|Hne]; [by rewrite E|done].
Qed.

Lemma fold_poke_lookup (f : string → Z) (g : string → Q) names d z :
  NoDup names →
  fold_left (λ d y, poke d y (f y) (g y)) names d !! z
  = if decide (z ∈ names)
    then (λ b, <[Z.to_nat (f z) := g z]> b) <$> d !! z
    else d !! z.
Proof.
  intros Hnd. revert d.
  induction Hnd as [|y names Hy Hnd IH]; intros d; cbn [fold_left].
  { destruct (decide (z ∈ [])) as [Hz|_]; [|done].
    apply elem_of_nil in Hz. destruct Hz. }
  rewrite IH, poke_lookup.
  destruct (decide (z = y)) as [->|Hne].
  - rewrite decide_False by done. rewrite decide_True by left. done.
  - destruct (decide (z ∈ names)) as [Hz|Hz].
    + rewrite decide_True by (by right). done.
    + rewrite decide_False; [done|].
      intros Hin. apply elem_of_cons in Hin as [?|?]; done.
Qed.

Lemma idx_insert_eq {A} (l : list A) (a : Z) (x : A) :
  0 ≤ a < Z.of_nat (length l) → idx (<[Z.to_nat a := x]> l) a = Some x.
Proof.
  intros Ha. unfold idx. destruct (a <? 0) eqn:E; [lia|].
  apply list_lookup_insert_eq. lia.
Qed.

Lemma idx_insert_ne {A} (l : list A) (a a' : Z) (x : A) :
  0 ≤ a' → a ≠ a' → idx (<[Z.to_nat a' := x]> l) a = idx l a.
Proof.
  intros Ha' Hne. unfold idx. destruct (a <? 0) eqn:E; [done|].
  apply list_lookup_insert_ne. lia.
Qed.

Lemma elem_of_elems_from n rest nm :
  nm ∈ elems_from n rest
  ↔ ∃ k M, nm.1 = (n + k)%nat ∧ rest !! k = Some M ∧ 0 ≤ nm.2 < M.
Proof.
  revert n. induction rest as [|l rest IH]; intros n; cbn [elems_from].
  { split; [intros H; apply elem_of_nil in H; destruct H|].
    intros (k & M & _ & Hk & _). done. }
  rewrite elem_of_app, IH, list_elem_of_fmap. split.
  - intros [(i & -> & Hi)|(k & M & Hn & Hk & Hm)].
    + apply elem_of_seq in Hi. exists 0%nat, l. cbn. split_and!; lia || done.
    + exists (S k), M. cbn. split_and!; lia || done.
  - intros ([|k] & M & Hn & Hk & Hm).
    + left. cbn in Hk. injection Hk as ->. exists (Z.to_nat nm.2). split.
      * destruct nm as [n' m']; cbn in *. f_equal; lia.
      * apply elem_of_seq. lia.
    + right. exists k, M. cbn in Hk. split_and!; lia || done.
Qed.

Lemma elem_of_elems lengths nm : nm ∈ elems lengths ↔ is_elem lengths nm.
Proof.
  unfold elems, is_elem. rewrite elem_of_elems_from. split.
  - intros (k & M & Hn & Hk & Hm). exists M. cbn in Hn. by rewrite Hn.
  - intros (M & Hn & Hm). exists nm.1, M. done.
Qed.

End PointwiseFacts.

Section Pointwise.

Import Template Kernel Elementwise.

Variable k : kernel.
Variable st : kmem.
Hypothesis Hmem : mem_ok k st.
Hypothesis Hdisj :
  ∀ x, x ∈ keys (kn_ivariables k) → x ∉ keys (kn_ovariables k).

Lemma NoDup_keys {A} (m : gmap string A) : NoDup (keys m).
Proof. apply NoDup_fst_map_to_list. Qed.

Lemma mem_ok_elem x nm :
  x ∈ keys (kn_ivariables k) ++ keys (kn_ovariables k) →
  is_elem (km_lengths st) nm →
  ∃ a b, elem_addr st x nm.1 nm.2 = Some a
         ∧ at_addr (λ y, elem_addr st y nm.1 nm.2) x = a
         ∧ km_data st !! x = Some b ∧ 0 ≤ a < Z.of_nat (length b).
Proof.
  intros Hx (M & Hn & Hm). destruct Hmem as (_ & Hok & Hcov).
  destruct (var_ok_elem st x nm.1 M nm.2 (Hok x (Hcov x Hx)) Hn Hm)
    as (off & b & _ & Ha & Hb & Hr).
  exists (off + nm.2), b. unfold at_addr. rewrite Ha. done.
Qed.

Lemma mem_ok_elem_injective x nm nm' :
  x ∈ keys (kn_ivariables k) ++ keys (kn_ovariables k) →
  is_elem (km_lengths st) nm → is_elem (km_lengths st) nm' →
  at_addr (λ y, elem_addr st y nm.1 nm.2) x
  = at_addr (λ y, elem_addr st y nm'.1 nm'.2) x →
  nm = nm'.
Proof.
  intros Hx Hnm Hnm' Heq.
  destruct (mem_ok_elem x nm Hx Hnm) as (a & b & Ha & Ha' & _).
  destruct (mem_ok_elem x nm' Hx Hnm') as (a' & b' & Hb & Hb' & _).
  destruct Hnm as (M & Hn & Hm). destruct Hnm' as (M' & Hn' & Hm').
  destruct Hmem as (_ & Hok & Hcov).
  destruct (var_ok_injective st x nm.1 nm'.1 M M' nm.2 nm'.2
              (Hok x (Hcov x Hx)) Hn Hn' Hm Hm') as [E1 E2].
  { rewrite Ha, Hb. congruence. }
  destruct nm, nm'; cbn in *. congruence.
Qed.

(** One update, with the read variables still at their initial values. *)
Lemma visit_lookup nm d z :
  (∀ x, x ∈ keys (kn_ivariables k) → d !! x = km_data st !! x) →
  visit k st nm d !! z
  = if decide (z ∈ keys (kn_ovariables k))
    then (λ b, <[Z.to_nat (at_addr (λ y, elem_addr st y nm.1 nm.2) z)
                 := rd (kn_core k (elem_env k st nm)) z]> b) <$> d !! z
    else d !! z.
Proof.
  intros Hin. unfold visit.
  rewrite (fold_poke_lookup
             (λ y, at_addr (λ y0, elem_addr st y0 nm.1 nm.2) y)
             (λ y, rd (kn_core k _) y)) by apply NoDup_keys.
  destruct (decide (z ∈ keys (kn_ovariables k))); [|done].
  do 4 f_equal. unfold elem_env. f_equal.
  apply fold_left_ext_in. intros e0 x Hx. f_equal.
  unfold peek. by rewrite (Hin x Hx).
Qed.


(** The buffers after the updates of the elements [l], in any order and
    with any repetition: a read variable keeps its buffer, a write variable
    holds at each updated element the value the update rule gives for the
    initial values there, and is unchanged elsewhere. *)
Lemma visit_all_inv l :
  Forall (is_elem (km_lengths st)) l →
  let d' := visit_all k st l (km_data st) in
  (∀ x, length <$> d' !! x = length <$> km_data st !! x)
  ∧ (∀ x, x ∉ keys (kn_ovariables k) → d' !! x = km_data st !! x)
  ∧ (∀ y a, y ∈ keys (kn_ovariables k) →
            (∀ nm, nm ∈ l → at_addr (λ y, elem_addr st y nm.1 nm.2) y ≠ a) →
            peek d' y a = peek (km_data st) y a)
  ∧ (∀ y nm, y ∈ keys (kn_ovariables k) → nm ∈ l →
             peek d' y (at_addr (λ y, elem_addr st y nm.1 nm.2) y)
             = rd (kn_core k (elem_env k st nm)) y).
Proof.
  induction l as [|nm l IH] using rev_ind; intros Hl d'.
  { subst d'. cbn. split_and!; try done.
    intros y nm _ Hnm. apply elem_of_nil in Hnm. destruct Hnm. }
  apply Forall_app in Hl as [Hl Hnm]. rewrite Forall_singleton in Hnm.
  destruct (IH Hl) as (I1 & I2 & I3 & I4). clear IH.
  subst d'. rewrite visit_all_app.
  set (d := visit_all k st l (km_data st)) in *.
  change (visit_all k st [nm] d) with (visit k st nm d).
  assert (Hin : ∀ x, x ∈ keys (kn_ivariables k) → d !! x = km_data st !! x).
  { intros x Hx. apply I2. by apply Hdisj. }
  assert (Hstep : ∀ y a, y ∈ keys (kn_ovariables k) →
            at_addr (λ y, elem_addr st y nm.1 nm.2) y ≠ a →
            peek (visit k st nm d) y a = peek d y a).
  { intros y a Hy Hne. unfold peek. rewrite (visit_lookup nm d y Hin).
    rewrite decide_True by done.
    destruct (mem_ok_elem y nm) as (a' & b & _ & Ha' & _ & Hr);
      [apply elem_of_app; by right|done|].
    destruct (d !! y) as [b'|]; [|done].
    cbn [mbind option_bind fmap option_fmap option_map]. f_equal.
    apply idx_insert_ne; [lia|congruence]. }
  split_and!.
  - intros x. rewrite <- I1. unfold visit. apply fold_poke_length.
  - intros x Hx. rewrite (visit_lookup nm d x Hin).
    rewrite decide_False by done. by apply I2.
  - intros y a Hy Hne. rewrite Hstep; [|done|].
    + apply I3; [done|]. intros nm' Hnm'. apply Hne.
      apply elem_of_app. by left.
    + apply Hne. apply elem_of_app. right. by left.
  - intros y nm' Hy Hnm'.
    destruct (decide (at_addr (λ y, elem_addr st y nm.1 nm.2) y
                      = at_addr (λ y, elem_addr st y nm'.1 nm'.2) y))
      as [Heq|Hne].
    + assert (nm = nm') as <-.
      { apply (mem_ok_elem_injective y); [apply elem_of_app; by right|done| |done].
        apply elem_of_app in Hnm' as [Hnm'|Hnm'].
        - rewrite Forall_forall in Hl. by apply Hl.
        - apply list_elem_of_singleton in Hnm' as ->. done. }
      unfold peek. rewrite (visit_lookup nm d y Hin).
      rewrite decide_True by done.
      destruct (mem_ok_elem y nm) as (a' & b & _ & Ha' & Hb & Hr);
        [apply elem_of_app; by right|done|].
      pose proof (I1 y) as Hlen. rewrite Hb in Hlen.
      destruct (d !! y) as [b'|]; [|done].
      cbn [mbind option_bind fmap option_fmap option_map] in Hlen |- *.
      injection Hlen as Hlen. rewrite idx_insert_eq; [done|]. lia.
    + rewrite Hstep by done.
      apply I4; [done|].
      apply elem_of_app in Hnm' as [Hnm'|Hnm']; [done|].
      apply list_elem_of_singleton in Hnm' as ->. done.
Qed.

End Pointwise.

Section PlanRun.

Import Template Kernel Plan Words Elementwise.

(** The lengths of a built plan are not negative, when its arrays obey the
    layout contract. *)
Lemma plan_lengths_nonneg name core tag n inputs outputs parameters p base su :
  plan_template name core tag n inputs outputs parameters = Ok p →
  reference inputs = Ok base →
  classify parameters = Ok su →
  (∀ x a, (su.2 ∪ inputs) !! x = Some a ∨ outputs !! x = Some a →
          ragged_wf a = true) →
  Forall (λ l, 0 ≤ l) (shape0s base).
Proof.
  intros Hp Hbase Hcl Hwf.
  destruct (reference_lookup _ _ Hbase) as [x Hx].
  assert (is_Some ((su.2 ∪ inputs) !! x)) as [a Ha].
  { apply lookup_union_is_Some. right. by exists base. }
  pose proof (Hwf x a (or_introl Ha)) as Hwa.
  unfold ragged_wf in Hwa. rename Hwa into Hlay.
  apply plan_template_Ok in Hp
    as (base' & su' & vars & iv & ov & gs & Hbase' & Hsu & Hres & _).
  rewrite Hbase in Hbase'. injection Hbase' as <-.
  rewrite Hcl in Hsu. injection Hsu as <-.
  pose proof (resolve_spec (ra_len base) base
                (map_to_list (su.2 ∪ inputs) ++ map_to_list outputs))
    as Hspec.
  rewrite Hres in Hspec. destruct Hspec as (_ & Hvalid & _).
  rewrite Forall_forall in Hvalid.
  destruct (Hvalid (x, a)) as (_ & Hs0 & _).
  { apply elem_of_app. left. by apply elem_of_map_to_list. }
  cbn in Hs0. rewrite <- Hs0. by eapply layout_ok_nonneg.
Qed.

(** No write variable of a built plan is also a read variable. *)
Lemma plan_keys_disjoint name core tag n inputs outputs parameters p :
  plan_template name core tag n inputs outputs parameters = Ok p →
  ∀ x, x ∈ keys (kn_ivariables (plan_fn p)) →
       x ∉ keys (kn_ovariables (plan_fn p)).
Proof.
  intros Hp x Hx Hy.
  apply plan_template_Ok in Hp
    as (base & su & vars & iv & ov & gs & _ & _ & Hres & Hiv & Hov & _ & ->).
  destruct (resolved_views _ _ _ _ _ _ _ Hres Hiv Hov)
    as (Hnd & Hdi & Hdo & _).
  cbn [plan_fn kn_ivariables kn_ovariables] in Hx, Hy.
  apply elem_of_keys, elem_of_dom in Hx. apply elem_of_keys, elem_of_dom in Hy.
  rewrite Hdi in Hx. rewrite Hdo in Hy.
  apply elem_of_dom in Hx. apply elem_of_dom in Hy as [a Ha].
  pose proof (NoDup_items_disjoint _ _ x Hnd Hx) as Hnone. congruence.
Qed.

(** One invocation of a built plan updates every element once, in the
    order of the flat index: always on the 2-D grid, and on the flattened
    grid when its runs have one element or no group is empty. *)
Lemma plan_invoke_visit_all
    name core tag n inputs outputs parameters p base su :
  plan_template name core tag n inputs outputs parameters = Ok p →
  reference inputs = Ok base →
  classify parameters = Ok su →
  (∀ x a, (su.2 ∪ inputs) !! x = Some a ∨ outputs !! x = Some a →
          ragged_wf a = true) →
  core_ok (plan_fn p) →
  n = 0 ∨ n = 1 ∨ (1 ≤ n ∧ Forall (λ l, 0 < l) (shape0s base)) →
  let st := bound_mem
              (map_to_list (su.2 ∪ inputs) ++ map_to_list outputs) base in
  ∃ st',
    bound p = Some st ∧ mem_ok (plan_fn p) st
    ∧ invoke p = Some st' ∧ same_shape st st'
    ∧ km_data st'
      = visit_all (plan_fn p) st (elems (shape0s base)) (km_data st)
    ∧ data_accesses (km_log st')
      = flat_map (elem_accesses (plan_fn p) st) (elems (shape0s base)).
Proof.
  intros Hp Hbase Hcl Hwf Hcore Hn st.
  destruct (plan_bound_mem _ _ _ _ _ _ _ _ _ _ Hp Hbase Hcl Hwf)
    as (Hb & Hmem & Hne & _).
  pose proof (plan_gsize_spec _ _ _ _ _ _ _ _ _ Hp Hbase) as Hg.
  pose proof (plan_lengths_nonneg _ _ _ _ _ _ _ _ _ _ Hp Hbase Hcl Hwf)
    as Hnn.
  fold st in Hb, Hmem.
  unfold invoke. rewrite Hb. cbn [mbind option_bind].
  unfold gsize in Hg.
  destruct Hn as [->|Hn].
  - cbn [Z.ltb Z.compare] in Hg.
    destruct (np_max (shape0s base)) as [mx|] eqn:Hmx; [|done].
    cbn in Hg. injection Hg as Hg.
    destruct (np_max_spec _ _ Hmx) as [Hin Hle].
    destruct (launch_blocked (plan_fn p) st mx
                (Z.of_nat (ra_len base)) Hne Hcore Hmem)
      as (st' & Hl & Hsh & Hd & Ha); [|done|].
    { apply Forall_forall. intros M HM. rewrite Forall_forall in Hnn, Hle.
      split; [by apply Hnn|by apply Hle]. }
    exists st'. rewrite <- Hg. split_and!; done.
  - assert (1 ≤ n) as H1 by (destruct Hn as [->|[? _]]; lia).
    destruct (0 <? n) eqn:E; [|lia]. injection Hg as Hg.
    pose proof (Qceiling_div (np_sum (shape0s base)) n ltac:(lia)) as Hceil.
    destruct (launch_flattened (plan_fn p) st
                (Qceiling (inject_Z (np_sum (shape0s base)) / inject_Z n)))
      as (st' & Hl & Hsh & Hd & Ha).
    { rewrite Hne. lia. }
    { exact Hcore. }
    { exact Hmem. }
    { rewrite Hne. destruct Hn as [->|[_ Hpos]]; [by left|by right]. }
    { exact Hnn. }
    { rewrite Hne. exact Hceil. }
    exists st'. rewrite <- Hg. split_and!; done.
Qed.

End PlanRun.

Section SampleFacts.

Import Template Kernel Plan.

(** The LIF body is an update rule in the sense of [core_ok] for the
    variables of the sample plan. *)
Lemma sample_lif_core_ok n p :
  Sample.full_plan n = Ok p → core_ok (plan_fn p).
Proof.
  intros Hp.
  assert (Hcl : classify Sample.lif_parameters = Ok (Sample.lif_static, ∅))
    by (vm_compute; reflexivity).
  destruct (plan_kernel_facts "lif_step" _ _ _ _ _ _ _ _ Hp Hcl)
    as (Hcore & Hki & Hko & Hsp).
  cbn [fst snd] in Hki, Hsp.
  assert (Hki' : keys (kn_ivariables (plan_fn p)) = ["w"; "v"; "j"]%string).
  { rewrite Hki. vm_compute. reflexivity. }
  assert (Hko' : keys (kn_ovariables (plan_fn p)) = ["ow"; "os"; "ov"]%string).
  { rewrite Hko. vm_compute. reflexivity. }
  apply (lif_core_ok Sample.conf); [exact Hcore|..].
  - intros x. rewrite Hki'. intros Hx.
    repeat (apply elem_of_cons in Hx as [->|Hx]); [in_list..|].
    apply elem_of_nil in Hx; destruct Hx.
  - intros x Hx. rewrite Hki'.
    repeat (apply elem_of_cons in Hx as [->|Hx]); [in_list..|].
    apply elem_of_nil in Hx; destruct Hx.
  - intros y. rewrite Hko'. intros Hy.
    repeat (apply elem_of_cons in Hy as [->|Hy]); [in_list..|].
    apply elem_of_nil in Hy; destruct Hy.
  - intros x. rewrite Hsp, <- elem_of_keys.
    assert (Hks : (map_to_list Sample.lif_static).*1 = ["ref"; "tau"]%string)
      by (vm_compute; reflexivity).
    rewrite Hks. split.
    + intros Hx. repeat (apply elem_of_cons in Hx as [->|Hx]); [tauto..|].
      apply elem_of_nil in Hx; destruct Hx.
    + intros [->| ->]; in_list.
Qed.

Lemma sample_wf (m : gmap string CLRaggedArray) :
  forallb (λ kv, ragged_wf kv.2) (map_to_list m) = true →
  ∀ x a, m !! x = Some a → ragged_wf a = true.
Proof. apply (lookup_forallb ragged_wf). Qed.

End SampleFacts.


(** ** The LIF step on the arrays *)

Section LifLaw.

Import Lif.
Local Open Scope Q_scope.

(** The body on any local state that holds [j v w tau ref]. *)
Lemma lif_body_law dt0 c tau ref j v w (e : env) :
  lif_textconf dt0 = Ok c →
  rd e "j" = j → rd e "v" = v → rd e "w" = w →
  rd e "tau" = tau → rd e "ref" = ref →
  out_eq (lif_outputs (lif_text c e)) (spec_lif dt0 tau ref j v w).
Proof.
  intros (Hdt & Hdtc & Hinv & Hth)%lif_textconf_Ok Hj Hv Hw Htau Href.
  subst dt0.
  unfold lif_text, lif_outputs, spec_lif, out_eq, seq_stmt.
  rewrite Hinv, Hth. clear Hinv Hth.
  cbv zeta.
  do 3 exec_assign. exec_ifte.
  set (dV := dt c / tau * (j - v)) in *.
  destruct (Qlt_bool (v + dV) 0 || Qgt_bool w (2 * dt c)) eqn:E1.
  - do 2 exec_assign. exec_ifte.
    assert (Qgt_bool 0 1 = false) as -> by reflexivity.
    do 4 exec_assign. rd_all; simpl; repeat split; reflexivity.
  - exec_ifte. destruct (Qgt_bool w (dt c)) eqn:E2.
    + exec_assign.
      assert (Hs : (v + dV) * (1 - (w - dt c) / dt c) ==
                   (v + dV) * (1 - (w - dt c) * (1 / dt c))).
      { field. done. }
      rewrite (Qgt_bool_proper _ _ Hs 1 1 (Qeq_refl 1)).
      exec_assign. exec_ifte.
      destruct (Qgt_bool _ 1) eqn:E3.
      * do 6 exec_assign. rd_all; simpl; repeat split;
          rewrite ?Hs; reflexivity.
      * do 4 exec_assign. rd_all; simpl; repeat split;
          rewrite ?Hs; reflexivity.
    + unfold skip. exec_assign. exec_ifte.
      destruct (Qgt_bool _ 1) eqn:E3.
      * do 6 exec_assign. rd_all; simpl; repeat split; reflexivity.
      * do 4 exec_assign. rd_all; simpl; repeat split; reflexivity.
Qed.

End LifLaw.

Section ElementValues.

Import Template Kernel Plan Elementwise.

Lemma elem_env_read k st nm x :
  x ∈ keys (kn_ivariables k) → kn_sparams k !! x = None →
  elem_env k st nm !! x
  = Some (peek (km_data st) x (at_addr (λ y, elem_addr st y nm.1 nm.2) x)).
Proof.
  intros Hx Hs. unfold elem_env. rewrite lookup_union_r.
  - by apply (reads_lookup_in
               (λ x, peek (km_data st) x
                       (at_addr (λ y, elem_addr st y nm.1 nm.2) x))).
  - unfold sparam_env. by rewrite lookup_fmap, Hs.
Qed.

Lemma elem_env_const k st nm x t q :
  kn_sparams k !! x = Some (t, q) → elem_env k st nm !! x = Some q.
Proof.
  intros Hs. unfold elem_env. apply lookup_union_Some_l.
  unfold sparam_env. by rewrite lookup_fmap, Hs.
Qed.

Lemma elem_value_peek st x (A : CLRaggedArray) n m a :
  km_starts st !! x = Some (starts A) →
  km_data st !! x = Some (buf A) →
  elem_addr st x n m = Some a →
  0 ≤ a < Z.of_nat (length (buf A)) →
  elem_value A n m = Some (peek (km_data st) x a).
Proof.
  intros Hs Hd Ha Hr. unfold elem_addr, start_of in Ha. rewrite Hs in Ha.
  cbn [mbind option_bind] in Ha. unfold elem_value, peek. rewrite Hd.
  destruct (starts A !! n) as [off|]; [|done].
  cbn [mbind option_bind] in Ha |- *. injection Ha as <-.
  destruct (idx_in_range (buf A) (off + m) Hr) as [q ->]. done.
Qed.

Lemma elem_after_peek st st' x (A : CLRaggedArray) n m a b :
  km_starts st !! x = Some (starts A) →
  elem_addr st x n m = Some a →
  km_data st' !! x = Some b →
  0 ≤ a < Z.of_nat (length b) →
  elem_after st' x A n m = Some (peek (km_data st') x a).
Proof.
  intros Hs Ha Hd Hr. unfold elem_addr, start_of in Ha. rewrite Hs in Ha.
  cbn [mbind option_bind] in Ha. unfold elem_after, peek. rewrite Hd.
  destruct (starts A !! n) as [off|]; [|done].
  cbn [mbind option_bind] in Ha |- *. injection Ha as <-.
  destruct (idx_in_range b (off + m) Hr) as [q ->]. done.
Qed.

End ElementValues.

(** C7. A work item [(m, n)] of the 2-D grid whose [m] is not below
    [lengths[n]] reads that table entry and returns, touching no buffer.
    An active item reads [in_x[x_starts[n] + m]] for each read variable,
    runs the update rule on the constants and the values read, and writes
    the rule's result to [in_y[y_starts[n] + m]], once for each write
    variable; it changes nothing else.  When the groups of a variable do
    not overlap, two distinct active items address distinct locations of
    it. *)
Theorem blocked_item_accesses (k : Kernel.kernel) (st : Kernel.kmem)
    (m : Z) (n : nat) (M : Z) :
  0 ≤ m →
  Kernel.km_lengths st !! n = Some M →
  (∀ x, x ∈ Kernel.keys (Kernel.kn_ivariables k)
            ++ Kernel.keys (Kernel.kn_ovariables k) →
        Kernel.var_okb st x = true) →
  (∀ e x, x ∈ Kernel.keys (Kernel.kn_ovariables k) →
          is_Some (Kernel.kn_core k e !! x)) →
  (M ≤ m →
     Kernel.blocked_item k m n st
     = Some (Kernel.note (Kernel.RdLengths n) st))
  ∧ (m < M →
     ∃ st',
       Kernel.blocked_item k m n st = Some st'
       ∧ Kernel.km_log st'
         = Kernel.km_log st ++ [Kernel.RdLengths n]
           ++ ((λ x, Kernel.Rd x
                       (Kernel.at_addr (λ y, Kernel.elem_addr st y n m) x))
                 <$> Kernel.keys (Kernel.kn_ivariables k))
           ++ ((λ x, Kernel.Wr x
                       (Kernel.at_addr (λ y, Kernel.elem_addr st y n m) x))
                 <$> Kernel.keys (Kernel.kn_ovariables k))
       ∧ NoDup (Kernel.keys (Kernel.kn_ovariables k))
       ∧ (∀ x, x ∈ Kernel.keys (Kernel.kn_ivariables k)
                   ++ Kernel.keys (Kernel.kn_ovariables k) →
               ∃ off, Kernel.start_of st x n = Some off
                      ∧ Kernel.at_addr (λ y, Kernel.elem_addr st y n m) x
                        = off + m)
       ∧ (∀ x, x ∈ Kernel.keys (Kernel.kn_ivariables k) →
               Kernel.kn_sparams k !! x = None →
               ∃ off b q,
                 Kernel.start_of st x n = Some off
                 ∧ Kernel.km_data st !! x = Some b
                 ∧ Kernel.idx b (off + m) = Some q
                 ∧ Elementwise.elem_env k st (n, m) !! x = Some q)
       ∧ (∀ y, y ∈ Kernel.keys (Kernel.kn_ovariables k) →
               ∃ off b q,
                 Kernel.start_of st y n = Some off
                 ∧ Kernel.km_data st !! y = Some b
                 ∧ Kernel.kn_core k (Elementwise.elem_env k st (n, m)) !! y
                   = Some q
                 ∧ Kernel.km_data st' !! y
                   = Some (<[Z.to_nat (off + m) := q]> b))
       ∧ (∀ x, x ∉ Kernel.keys (Kernel.kn_ovariables k) →
               Kernel.km_data st' !! x = Kernel.km_data st !! x)
       ∧ Kernel.km_starts st' = Kernel.km_starts st
       ∧ Kernel.km_lengths st' = Kernel.km_lengths st)
  ∧ (∀ x n' m' M',
       x ∈ Kernel.keys (Kernel.kn_ivariables k)
           ++ Kernel.keys (Kernel.kn_ovariables k) →
       Kernel.km_lengths st !! n' = Some M' →
       m < M → 0 ≤ m' < M' → (n, m) ≠ (n', m') →
       Kernel.elem_addr st x n m ≠ Kernel.elem_addr st x n' m').
Proof.
  intros Hm HM Hok Hcore. split_and!.
  - intros Hidle. unfold Kernel.blocked_item, Kernel.read_lengths.
    rewrite HM. cbn. destruct (M <=? m) eqn:E; [done|lia].
  - intros Hact. unfold Kernel.blocked_item, Kernel.read_lengths.
    rewrite HM. cbn. destruct (M <=? m) eqn:E; [lia|].
    set (st1 := Kernel.note (Kernel.RdLengths n) st).
    set (addr := λ x, Kernel.elem_addr st x n m).
    assert (Hrd : Forall (Kernel.readable (Kernel.km_data st1) addr)
                    (Kernel.keys (Kernel.kn_ivariables k))).
    { apply Forall_forall. intros x Hx.
      apply (var_ok_readable st x n M m); [|done|lia].
      apply Hok, elem_of_app. by left. }
    rewrite (read_vars_run _ addr ∅ st1 Hrd). cbn.
    match goal with
    | |- context [Kernel.write_vars _ _ ?e ?s] =>
        set (e1 := e); set (st2 := s)
    end.
    assert (He1 : e1 = Kernel.kn_core k (Elementwise.elem_env k st (n, m)))
      by reflexivity.
    assert (Hwr : Forall (Kernel.writable (Kernel.km_data st2) addr e1)
                    (Kernel.keys (Kernel.kn_ovariables k))).
    { apply Forall_forall. intros x Hx. split; [|by apply Hcore].
      apply (var_ok_readable st x n M m); [|done|lia].
      apply Hok, elem_of_app. by right. }
    rewrite (write_vars_run _ addr e1 st2 Hwr).
    eexists. split; [done|]. split.
    { cbn. by rewrite <- !app_assoc. }
    split; [apply NoDup_fst_map_to_list|].
    assert (Haddr : ∀ x, x ∈ Kernel.keys (Kernel.kn_ivariables k)
                           ++ Kernel.keys (Kernel.kn_ovariables k) →
              ∃ off b, Kernel.start_of st x n = Some off
                       ∧ Kernel.at_addr addr x = off + m
                       ∧ Kernel.km_data st !! x = Some b
                       ∧ 0 ≤ off + m < Z.of_nat (length b)).
    { intros x Hx.
      destruct (var_ok_elem st x n M m (Hok x Hx) HM ltac:(lia))
        as (off & b & Hs & Ha & Hb & Hr).
      exists off, b. split; [done|]. split; [|done].
      unfold Kernel.at_addr, addr. by rewrite Ha. }
    split.
    { intros x Hx. destruct (Haddr x Hx) as (off & b & Hs & Ha & _).
      by exists off. }
    split.
    { intros x Hx Hsp.
      destruct (Haddr x) as (off & b & Hs & Ha & Hb & Hr);
        [apply elem_of_app; by left|].
      destruct (idx_in_range b (off + m) Hr) as [q Hq].
      exists off, b, q. split; [done|]. split; [done|]. split; [done|].
      rewrite (elem_env_read k st (n, m) x Hx Hsp). cbn [fst snd].
      fold addr. rewrite Ha. unfold Kernel.peek. rewrite Hb. cbn.
      by rewrite Hq. }
    split.
    { intros y Hy.
      destruct (Haddr y) as (off & b & Hs & Ha & Hb & Hr);
        [apply elem_of_app; by right|].
      destruct (Hcore (Elementwise.elem_env k st (n, m)) y Hy) as [q Hq].
      exists off, b, q. split; [done|]. split; [done|]. split; [done|].
      cbn [Kernel.km_data Kernel.set_log Kernel.set_data].
      rewrite (fold_poke_lookup (Kernel.at_addr addr) (rd e1))
        by apply NoDup_keys.
      rewrite decide_True by done.
      change (Kernel.km_data st2) with (Kernel.km_data st).
      rewrite Hb, Ha. cbn. unfold rd. by rewrite He1, Hq. }
    split.
    { intros x Hx. cbn [Kernel.km_data Kernel.set_log Kernel.set_data].
      rewrite (fold_poke_lookup (Kernel.at_addr addr) (rd e1))
        by apply NoDup_keys.
      by rewrite decide_False by done. }
    split; reflexivity.
  - intros x n' m' M' Hx HM' Hact Hm' Hne Heq. apply Hne.
    destruct (var_ok_injective st x n n' M M' m m' (Hok x Hx) HM HM'
                ltac:(lia) Hm' Heq) as [-> ->]. done.
Qed.

Lemma blocked_item_accesses_witness :
  ∃ st',
    Kernel.blocked_item (Sample.id_kernel 0) 1 2 Sample.id_mem = Some st'
    ∧ Kernel.km_log st'
      = [Kernel.RdLengths 2; Kernel.Rd "x" 2; Kernel.Wr "y" 2]
    ∧ Kernel.km_data st' !! "y"%string = Some [0%Q; 0%Q; 3%Q]
    ∧ Kernel.km_data st' !! "x"%string = Some [1%Q; 2%Q; 3%Q].
Proof.
  assert (Hi : Kernel.keys (Kernel.kn_ivariables (Sample.id_kernel 0))
               = ["x"%string]) by (vm_compute; reflexivity).
  assert (Ho : Kernel.keys (Kernel.kn_ovariables (Sample.id_kernel 0))
               = ["y"%string]) by (vm_compute; reflexivity).
  destruct (blocked_item_accesses (Sample.id_kernel 0) Sample.id_mem 1 2 2)
    as (_ & Hact & _).
  - lia.
  - vm_compute; reflexivity.
  - intros x Hx. rewrite Hi, Ho in Hx.
    apply elem_of_cons in Hx as [->|Hx]; [vm_compute; reflexivity|].
    apply list_elem_of_singleton in Hx as ->. vm_compute; reflexivity.
  - intros e x Hx. rewrite Ho in Hx. apply list_elem_of_singleton in Hx as ->.
    cbn [Kernel.kn_core Sample.id_kernel]. rewrite lookup_insert_eq. eauto.
  - destruct (Hact ltac:(lia))
      as (st' & Hrun & Hlog & _ & _ & _ & Hwr & Hoth & _).
    exists st'. split; [exact Hrun|]. split.
    { rewrite Hlog. vm_compute. reflexivity. }
    split.
    + destruct (Hwr "y"%string) as (off & b & q & Hs & Hb & Hq & Hd).
      { rewrite Ho. by left. }
      vm_compute in Hs. vm_compute in Hb. vm_compute in Hq.
      injection Hs as <-. injection Hb as <-. injection Hq as <-.
      rewrite Hd. reflexivity.
    + rewrite Hoth; [vm_compute; reflexivity|].
      rewrite Ho. intros Hin. apply list_elem_of_singleton in Hin.
      discriminate Hin.
Defined.

Section PlanValid.

Import Template Kernel Plan Words.

(** Every variable of a built plan passed the assertions of the layout
    resolution. *)
Lemma plan_vars_valid name core tag n inputs outputs parameters p base su :
  plan_template name core tag n inputs outputs parameters = Ok p →
  reference inputs = Ok base →
  classify parameters = Ok su →
  ∀ x a, (su.2 ∪ inputs) !! x = Some a ∨ outputs !! x = Some a →
         valid_var (ra_len base) base a.
Proof.
  intros Hp Hbase Hcl x a Hx.
  apply plan_template_Ok in Hp
    as (base' & su' & vars & iv & ov & gs & Hbase' & Hsu & Hres & _).
  rewrite Hbase in Hbase'. injection Hbase' as <-.
  rewrite Hcl in Hsu. injection Hsu as <-.
  pose proof (resolve_spec (ra_len base) base
                (map_to_list (su.2 ∪ inputs) ++ map_to_list outputs))
    as Hspec.
  rewrite Hres in Hspec. destruct Hspec as (_ & Hvalid & _).
  rewrite Forall_forall in Hvalid. apply (Hvalid (x, a)).
  apply elem_of_app. destruct Hx as [Hx|Hx]; [left|right];
    by apply elem_of_map_to_list.
Qed.

Lemma plan_lif_Ok J V W OV OW OS ref tau dt0 tag p :
  plan_lif J V W OV OW OS ref tau dt0 tag = Ok p →
  ∃ c, Lif.lif_textconf dt0 = Ok c
       ∧ plan_template "lif_step" (Lif.lif_text c) tag 0
           (py_dict [("j"%string, J); ("v"%string, V); ("w"%string, W)])
           (py_dict [("ov"%string, OV); ("ow"%string, OW); ("os"%string, OS)])
           (py_dict [("tau"%string, tau); ("ref"%string, ref)])
         = Ok p.
Proof.
  unfold plan_lif. destruct (Lif.lif_textconf dt0) as [c|]; [|done].
  intros H. exists c. split; [done|exact H].
Qed.

End PlanValid.

(** X3. A LIF plan with scalar [tau] and [ref], invoked once, never faults
    and steps every neuron: the buffers of [j], [v] and [w] are unchanged,
    and for every element [m] of every group [n] at which no division is
    by zero ([tau] is not zero, and [dV] is not zero if the neuron spikes)
    the values left in [ov], [ow] and [os] are, as rational numbers, the
    update law applied to the values of [j], [v], [w] at the same element.
    The arithmetic is exact: rounding and overflow are left out.  In each of
    the six arrays every group that holds elements must lie within the
    buffer, no two of them overlapping, and each array has a buffer of its
    own. *)
Theorem plan_lif_steps_every_element
    (J V W OV OW OS : CLRaggedArray) (ref tau dt0 : Q) tag p :
  Plan.plan_lif J V W OV OW OS (PyNumber ref) (PyNumber tau) dt0 tag = Ok p →
  Forall (λ a, ragged_wf a = true) [J; V; W; OV; OW; OS] →
  ∃ st',
    Plan.invoke p = Some st'
    ∧ Kernel.km_data st' !! "j"%string = Some (buf J)
    ∧ Kernel.km_data st' !! "v"%string = Some (buf V)
    ∧ Kernel.km_data st' !! "w"%string = Some (buf W)
    ∧ ∀ n m, Elementwise.is_elem (shape0s J) (n, m) →
        ∃ j v w ov ow os,
          Elementwise.elem_value J n m = Some j
          ∧ Elementwise.elem_value V n m = Some v
          ∧ Elementwise.elem_value W n m = Some w
          ∧ Elementwise.elem_after st' "ov" OV n m = Some ov
          ∧ Elementwise.elem_after st' "ow" OW n m = Some ow
          ∧ Elementwise.elem_after st' "os" OS n m = Some os
          ∧ (Lif.divisors_nonzero dt0 tau j v w →
             Lif.out_eq (ov, ow, os) (Lif.spec_lif dt0 tau ref j v w)).
Proof.
  intros Hp Hwf.
  apply plan_lif_Ok in Hp as (c & Hc & Hp).
  set (inputs := py_dict [("j"%string, J); ("v"%string, V); ("w"%string, W)])
    in *.
  set (outputs :=
         py_dict [("ov"%string, OV); ("ow"%string, OW); ("os"%string, OS)])
    in *.
  set (parameters :=
         py_dict [("tau"%string, PyNumber tau); ("ref"%string, PyNumber ref)])
    in *.
  set (sp := py_dict [("tau"%string, ("float"%string, tau));
                      ("ref"%string, ("float"%string, ref))]).
  assert (Hcl : Template.classify parameters = Ok (sp, ∅))
    by (vm_compute; reflexivity).
  assert (Hbase : Plan.reference inputs = Ok W) by (vm_compute; reflexivity).
  assert (Hitems :
            map_to_list ((sp, (∅ : gmap string CLRaggedArray)).2 ∪ inputs)
            ++ map_to_list outputs
            = [("w"%string, W); ("v"%string, V); ("j"%string, J);
               ("ow"%string, OW); ("os"%string, OS); ("ov"%string, OV)])
    by (vm_compute; reflexivity).
  assert (Hvars : ∀ x a,
            ((sp, (∅ : gmap string CLRaggedArray)).2 ∪ inputs) !! x = Some a
            ∨ outputs !! x = Some a →
            (x, a) ∈ [("w"%string, W); ("v"%string, V); ("j"%string, J);
                      ("ow"%string, OW); ("os"%string, OS); ("ov"%string, OV)]).
  { intros x a Hx. rewrite <- Hitems. apply elem_of_app.
    destruct Hx as [Hx|Hx]; [left|right]; by apply elem_of_map_to_list. }
  assert (Hwf' : ∀ x a,
            ((sp, (∅ : gmap string CLRaggedArray)).2 ∪ inputs) !! x = Some a
            ∨ outputs !! x = Some a → ragged_wf a = true).
  { intros x a Hx. apply Hvars in Hx. rewrite Forall_forall in Hwf.
    apply Hwf.
    repeat (apply elem_of_cons in Hx as [[= -> ->]|Hx]); [in_list..|].
    apply elem_of_nil in Hx. destruct Hx. }
  destruct (plan_kernel_facts _ _ _ _ _ _ _ _ _ Hp Hcl)
    as (Hcore & Hki & Hko & Hsp).
  assert (Hki' : Kernel.keys (Kernel.kn_ivariables (Plan.plan_fn p))
                 = ["w"; "v"; "j"]%string).
  { rewrite Hki. vm_compute. reflexivity. }
  assert (Hko' : Kernel.keys (Kernel.kn_ovariables (Plan.plan_fn p))
                 = ["ow"; "os"; "ov"]%string).
  { rewrite Hko. vm_compute. reflexivity. }
  cbn [fst] in Hsp.
  assert (Hok : Kernel.core_ok (Plan.plan_fn p)).
  { apply (lif_core_ok c); [exact Hcore|..].
    - intros x. rewrite Hki'. intros Hx.
      repeat (apply elem_of_cons in Hx as [->|Hx]); [in_list..|].
      apply elem_of_nil in Hx; destruct Hx.
    - intros x Hx. rewrite Hki'.
      repeat (apply elem_of_cons in Hx as [->|Hx]); [in_list..|].
      apply elem_of_nil in Hx; destruct Hx.
    - intros y. rewrite Hko'. intros Hy.
      repeat (apply elem_of_cons in Hy as [->|Hy]); [in_list..|].
      apply elem_of_nil in Hy; destruct Hy.
    - intros x. rewrite Hsp, <- elem_of_keys.
      assert (Hks : (map_to_list sp).*1 = ["ref"; "tau"]%string)
        by (vm_compute; reflexivity).
      rewrite Hks. split.
      + intros Hx. repeat (apply elem_of_cons in Hx as [->|Hx]); [tauto..|].
        apply elem_of_nil in Hx; destruct Hx.
      + intros [->| ->]; in_list. }
  destruct (plan_invoke_visit_all _ _ _ _ _ _ _ _ _ _ Hp Hbase Hcl Hwf' Hok
              (or_introl eq_refl))
    as (st' & Hb & Hmem & Hinv & Hsh & Hd & _).
  set (st := Plan.bound_mem
               (map_to_list ((sp, ∅).2 ∪ inputs) ++ map_to_list outputs) W)
    in *.
  pose proof (plan_keys_disjoint _ _ _ _ _ _ _ _ Hp) as Hdisj.
  assert (Hel : Forall (Elementwise.is_elem (Kernel.km_lengths st))
                  (Kernel.elems (shape0s W))).
  { apply Forall_forall. intros nm Hnm. by apply elem_of_elems. }
  destruct (visit_all_inv _ st Hmem Hdisj _ Hel) as (I1 & I2 & _ & I4).
  rewrite <- Hd in I1, I2, I4. rewrite Hcore in I4.
  assert (HJ : shape0s J = shape0s W).
  { destruct (plan_vars_valid _ _ _ _ _ _ _ _ _ _ Hp Hbase Hcl "j"%string J)
      as (_ & Hs & _); [left; vm_compute; reflexivity|exact Hs]. }
  assert (Hst : ∀ x a, (x, a) ∈ [("w"%string, W); ("v"%string, V);
                                 ("j"%string, J); ("ow"%string, OW);
                                 ("os"%string, OS); ("ov"%string, OV)] →
                       Kernel.km_starts st !! x = Some (starts a)
                       ∧ Kernel.km_data st !! x = Some (buf a)).
  { intros x a Hx.
    repeat (apply elem_of_cons in Hx as [[= -> ->]|Hx]);
      [split; vm_compute; reflexivity..|].
    apply elem_of_nil in Hx. destruct Hx. }
  exists st'. split; [exact Hinv|].
  assert (Hkeep : ∀ x a, (x, a) ∈ [("w"%string, W); ("v"%string, V);
                                   ("j"%string, J)] →
                         Kernel.km_data st' !! x = Some (buf a)).
  { intros x a Hx. rewrite I2.
    - apply Hst. apply list_elem_of_In. apply list_elem_of_In in Hx.
      cbn in Hx |- *. tauto.
    - apply Hdisj. rewrite Hki'.
      repeat (apply elem_of_cons in Hx as [[= -> ->]|Hx]); [in_list..|].
      apply elem_of_nil in Hx. destruct Hx. }
  split; [apply Hkeep; in_list|]. split; [apply Hkeep; in_list|].
  split; [apply Hkeep; in_list|].
  intros n m Hnm. rewrite HJ in Hnm.
  change (shape0s W) with (Kernel.km_lengths st) in Hnm.
  (* the values read *)
  assert (Hread : ∀ x a, (x, a) ∈ [("w"%string, W); ("v"%string, V);
                                   ("j"%string, J)] →
            ∃ q, Elementwise.elem_value a n m = Some q
                 ∧ rd (Elementwise.elem_env (Plan.plan_fn p) st (n, m)) x = q).
  { intros x a Hx.
    assert (Hxi : x ∈ Kernel.keys (Kernel.kn_ivariables (Plan.plan_fn p))).
    { rewrite Hki'.
      repeat (apply elem_of_cons in Hx as [[= -> ->]|Hx]); [in_list..|].
      apply elem_of_nil in Hx. destruct Hx. }
    destruct (mem_ok_elem _ st Hmem x (n, m)) as (ad & b & Ha & Ha' & Hb' & Hr);
      [apply elem_of_app; by left|exact Hnm|].
    destruct (Hst x a) as [Hs Hdt].
    { apply list_elem_of_In. apply list_elem_of_In in Hx.
      cbn in Hx |- *. tauto. }
    rewrite Hdt in Hb'. injection Hb' as <-.
    exists (Kernel.peek (Kernel.km_data st) x ad). split.
    - by apply (elem_value_peek st x a n m ad).
    - apply rd_Some. rewrite elem_env_read, Ha'; [done|exact Hxi|].
      destruct Hok as (_ & _ & _ & Hnone). by apply Hnone. }
  (* the values written *)
  assert (Hwrite : ∀ y a, (y, a) ∈ [("ow"%string, OW); ("os"%string, OS);
                                    ("ov"%string, OV)] →
            Elementwise.elem_after st' y a n m
            = Some (rd (Lif.lif_text c
                          (Elementwise.elem_env (Plan.plan_fn p) st (n, m))) y)).
  { intros y a Hy.
    assert (Hyo : y ∈ Kernel.keys (Kernel.kn_ovariables (Plan.plan_fn p))).
    { rewrite Hko'.
      repeat (apply elem_of_cons in Hy as [[= -> ->]|Hy]); [in_list..|].
      apply elem_of_nil in Hy. destruct Hy. }
    destruct (mem_ok_elem _ st Hmem y (n, m)) as (ad & b & Ha & Ha' & Hb' & Hr);
      [apply elem_of_app; by right|exact Hnm|].
    destruct (Hst y a) as [Hs Hdt].
    { apply list_elem_of_In. apply list_elem_of_In in Hy.
      cbn in Hy |- *. tauto. }
    pose proof (I1 y) as Hlen. rewrite Hb' in Hlen.
    destruct (Kernel.km_data st' !! y) as [b'|] eqn:Eb; [|done].
    cbn in Hlen. injection Hlen as Hlen.
    rewrite (elem_after_peek st st' y a n m ad b' Hs Ha Eb) by lia.
    f_equal. rewrite <- Ha'. apply (I4 y (n, m) Hyo).
    by apply elem_of_elems. }
  destruct (Hread "j"%string J) as (j & Hj & Hrj); [in_list|].
  destruct (Hread "v"%string V) as (v & Hv & Hrv); [in_list|].
  destruct (Hread "w"%string W) as (w & Hw & Hrw); [in_list|].
  set (e := Elementwise.elem_env (Plan.plan_fn p) st (n, m)) in *.
  exists j, v, w, (rd (Lif.lif_text c e) "ov"), (rd (Lif.lif_text c e) "ow"),
    (rd (Lif.lif_text c e) "os").
  split; [exact Hj|]. split; [exact Hv|]. split; [exact Hw|].
  split; [apply Hwrite; in_list|]. split; [apply Hwrite; in_list|].
  split; [apply Hwrite; in_list|].
  intros _. apply (lif_body_law dt0 c tau ref j v w e Hc Hrj Hrv Hrw).
  - apply rd_Some. apply (elem_env_const _ _ _ _ "float"%string).
    rewrite Hsp. vm_compute. reflexivity.
  - apply rd_Some. apply (elem_env_const _ _ _ _ "float"%string).
    rewrite Hsp. vm_compute. reflexivity.
Qed.

Lemma plan_lif_steps_every_element_witness :
  ∃ p, Plan.plan_lif Sample.full_J Sample.full_V Sample.full_Z
         Sample.full_Z Sample.full_Z Sample.full_Z
         (PyNumber (1 # 500)) (PyNumber (1 # 50)) (1 # 1000) None = Ok p
       ∧ ∃ st',
           Plan.invoke p = Some st'
           ∧ Kernel.km_data st' !! "j"%string = Some (buf Sample.full_J)
           ∧ Kernel.km_data st' !! "v"%string = Some (buf Sample.full_V)
           ∧ Kernel.km_data st' !! "w"%string = Some (buf Sample.full_Z)
           ∧ ∀ n m, Elementwise.is_elem (shape0s Sample.full_J) (n, m) →
               ∃ j v w ov ow os,
                 Elementwise.elem_value Sample.full_J n m = Some j
                 ∧ Elementwise.elem_value Sample.full_V n m = Some v
                 ∧ Elementwise.elem_value Sample.full_Z n m = Some w
                 ∧ Elementwise.elem_after st' "ov" Sample.full_Z n m = Some ov
                 ∧ Elementwise.elem_after st' "ow" Sample.full_Z n m = Some ow
                 ∧ Elementwise.elem_after st' "os" Sample.full_Z n m = Some os
                 ∧ (Lif.divisors_nonzero (1 # 1000) (1 # 50) j v w →
                    Lif.out_eq (ov, ow, os)
                      (Lif.spec_lif (1 # 1000) (1 # 50) (1 # 500) j v w)).
Proof.
  assert (H : ∃ p, Plan.plan_lif Sample.full_J Sample.full_V Sample.full_Z
                     Sample.full_Z Sample.full_Z Sample.full_Z
                     (PyNumber (1 # 500)) (PyNumber (1 # 50)) (1 # 1000) None
                   = Ok p).
  { eexists. unfold Plan.plan_lif.
    change (Lif.lif_textconf (1 # 1000))
      with (Ok {| Lif.dt := 1 # 1000; Lif.dt_inv := 1 / (1 # 1000);
                  Lif.V_threshold := 1 |}).
    cbn [rbind].
    eapply plan_template_build; vm_compute; reflexivity. }
  destruct H as [p Hp]. exists p. split; [exact Hp|].
  apply (plan_lif_steps_every_element Sample.full_J Sample.full_V
           Sample.full_Z Sample.full_Z Sample.full_Z Sample.full_Z
           (1 # 500) (1 # 50) (1 # 1000) None p Hp).
  repeat constructor.
Defined.

(** ** The outcome of a build *)

Section BuildOutcome.

Import Template Kernel Plan Words.

Lemma avars_checked N base (ivars outputs : gmap string CLRaggedArray) :
  NoDup (map_to_list ivars ++ map_to_list outputs).*1
  ∧ Forall (λ kv, valid_var N base kv.2)
      (map_to_list ivars ++ map_to_list outputs)
  ↔ (∀ x, is_Some (ivars !! x) → outputs !! x = None)
    ∧ (∀ x a, ivars !! x = Some a ∨ outputs !! x = Some a →
              valid_var N base a).
Proof.
  rewrite fmap_app, NoDup_app, Forall_forall. split.
  - intros ((_ & Hdis & _) & Hval). split.
    + intros x Hx. apply eq_None_not_Some. intros Hy.
      apply elem_of_keys in Hx, Hy. by apply (Hdis x).
    + intros x a Hx. apply (Hval (x, a)). apply elem_of_app.
      destruct Hx as [Hx|Hx]; [left|right]; by apply elem_of_map_to_list.
  - intros (Hdis & Hval). split; [split_and!|].
    + apply NoDup_fst_map_to_list.
    + intros x Hx Hy. apply elem_of_keys in Hx, Hy.
      rewrite (Hdis x Hx) in Hy. by destruct Hy.
    + apply NoDup_fst_map_to_list.
    + intros [x a] Hx. apply (Hval x a).
      apply elem_of_app in Hx as [Hx|Hx]; [left|right];
        by apply elem_of_map_to_list.
Qed.

Lemma resolved_restricts N base (ivars outputs : gmap string CLRaggedArray)
    variables :
  resolve N base (map_to_list ivars ++ map_to_list outputs) = Ok variables →
  ∃ iv ov, restrict_to variables ivars = Ok iv
           ∧ restrict_to variables outputs = Ok ov.
Proof.
  intros Hres.
  pose proof (resolve_spec N base
                (map_to_list ivars ++ map_to_list outputs)) as Hspec.
  rewrite Hres in Hspec. destruct Hspec as (Hnd & _ & Hlook).
  assert (Hdom : ∀ k, is_Some (ivars !! k) ∨ is_Some (outputs !! k) →
                      is_Some (variables !! k)).
  { intros k Hk. rewrite Hlook, list_to_map_app, !list_to_map_to_list.
    rewrite fmap_is_Some. apply lookup_union_is_Some. exact Hk. }
  destruct (restrict_to_spec variables ivars) as (iv & Hiv & _).
  { intros k Hk. apply Hdom. by left. }
  destruct (restrict_to_spec variables outputs) as (ov & Hov & _).
  { intros k Hk. apply Hdom. by right. }
  by exists iv, ov.
Qed.

Lemma gsize_outcome n base :
  match gsize n base with
  | Ok _ => 0 < n ∨ shape0s base ≠ []
  | Raise e => e = ValueError ∧ n ≤ 0 ∧ shape0s base = []
  end.
Proof.
  unfold gsize. destruct (0 <? n) eqn:E; [left; lia|].
  unfold np_max. destruct (shape0s base); cbn; [split_and!; lia || done|].
  by right.
Qed.

(** The build up to the layout resolution, and from it on. *)
Lemma plan_template_stages name core tag n inputs outputs parameters base su :
  reference inputs = Ok base →
  classify parameters = Ok su →
  plan_template name core tag n inputs outputs parameters
  = (variables ← resolve (ra_len base) base
                   (map_to_list (su.2 ∪ inputs) ++ map_to_list outputs) ;;;
     ivariables ← restrict_to variables (su.2 ∪ inputs) ;;;
     ovariables ← restrict_to variables outputs ;;;
     gs ← gsize n base ;;;
     Ok {| plan_tag := tag;
           plan_fn := {| kn_N := ra_len base; kn_n_elements := n;
                         kn_ivariables := ivariables;
                         kn_ovariables := ovariables;
                         kn_variables := variables;
                         kn_sparams := su.1; kn_core := core |};
           plan_gsize := gs;
           plan_full_args :=
             full_args (map_to_list (su.2 ∪ inputs) ++ map_to_list outputs)
               base |}).
Proof.
  intros Hbase Hcl. unfold plan_template. rewrite Hbase, Hcl.
  cbn [rbind]. by rewrite py_dict_merge.
Qed.

End BuildOutcome.

Section ClassifyErrors.

Import Template.

(** The error of a failed classification is the one [float] raised on
    some parameter. *)
Lemma classify_list_Raise (l : list (string * pyvalue)) e :
  classify_list l = Raise e → ∃ k, (k, PyNoFloat e) ∈ l.
Proof.
  induction l as [|[k v] l IH] using rev_ind; [done|].
  rewrite classify_list_snoc. unfold classify_step.
  destruct (classify_list l) as [su|e'] eqn:E; cbn [rbind].
  - destruct v as [a|x|e']; cbn; try done.
    intros [= ->]. exists k. apply elem_of_app. right. left.
  - intros [= ->]. destruct (IH eq_refl) as [k' Hk'].
    exists k'. apply elem_of_app. by left.
Qed.

Lemma classify_Raise (parameters : gmap string pyvalue) e :
  classify parameters = Raise e → ∃ k, parameters !! k = Some (PyNoFloat e).
Proof.
  intros [k Hk]%classify_list_Raise. exists k.
  by apply elem_of_map_to_list.
Qed.

End ClassifyErrors.




(** X8. [plan_lif] divides by the step before it looks at any array: a
    zero step raises [ZeroDivisionError] whatever the other arguments.  A
    LIF plan that is built always uses the 2-D strategy; its work size is
    the largest group length of [J] by the number of groups of [J], and
    each of the six arrays has the number of groups and the table of
    lengths of [J], with rows of length 1. *)
Theorem plan_lif_outcome (J V W OV OW OS : CLRaggedArray) (ref tau : pyvalue)
    (dt0 : Q) tag :
  (dt0 == 0 →
     Plan.plan_lif J V W OV OW OS ref tau dt0 tag = Raise ZeroDivisionError)%Q
  ∧ ∀ p,
      Plan.plan_lif J V W OV OW OS ref tau dt0 tag = Ok p →
      (¬ dt0 == 0)%Q
      ∧ Kernel.kn_n_elements (Plan.plan_fn p) = 0
      ∧ (∃ mx, Plan.plan_gsize p = [mx; Z.of_nat (ra_len J)]
               ∧ mx ∈ shape0s J ∧ Forall (λ l, l ≤ mx) (shape0s J))
      ∧ Forall (Words.valid_var (ra_len J) J) [J; V; W; OV; OW; OS].
Proof.
  split.
  - intros Hdt. unfold Plan.plan_lif, Lif.lif_textconf.
    apply Qeq_bool_iff in Hdt. by rewrite Hdt.
  - intros p Hp. apply plan_lif_Ok in Hp as (c & Hc & Hp).
    apply lif_textconf_Ok in Hc as (Hdt & _).
    set (inputs := py_dict [("j"%string, J); ("v"%string, V);
                            ("w"%string, W)]) in *.
    set (outputs := py_dict [("ov"%string, OV); ("ow"%string, OW);
                             ("os"%string, OS)]) in *.
    set (parameters := py_dict [("tau"%string, tau); ("ref"%string, ref)])
      in *.
    assert (Hbase : Plan.reference inputs = Ok W)
      by (vm_compute; reflexivity).
    pose proof Hp as Hp'.
    apply plan_template_Ok in Hp'
      as (base & su & vars & iv & ov & gs & Hbase' & Hcl & _ & _ & _ & _ & Heq).
    apply (f_equal (λ p, Kernel.kn_n_elements (Plan.plan_fn p))) in Heq.
    cbn [Plan.plan_fn Kernel.kn_n_elements] in Heq.
    rewrite Hbase in Hbase'. injection Hbase' as <-.
    pose proof (classify_spec parameters) as Hsu. rewrite Hcl in Hsu.
    destruct Hsu as (_ & Hdyn & _).
    assert (Hin : ∀ x a, inputs !! x = Some a →
                         (su.2 ∪ inputs) !! x = Some a).
    { intros x a Hx. rewrite lookup_union_r; [exact Hx|].
      rewrite Hdyn, lookup_omap.
      assert (Hnone : parameters !! x = None);
        [|rewrite Hnone; reflexivity].
      apply elem_of_map_to_list in Hx.
      assert (Hl : map_to_list inputs
                   = [("w"%string, W); ("v"%string, V); ("j"%string, J)])
        by (vm_compute; reflexivity).
      rewrite Hl in Hx.
      repeat (apply elem_of_cons in Hx as [[= -> ->]|Hx]);
        [vm_compute; reflexivity..|].
      apply elem_of_nil in Hx. destruct Hx. }
    pose proof (plan_vars_valid _ _ _ _ _ _ _ _ _ _ Hp Hbase Hcl) as Hval.
    destruct (Hval "j"%string J) as (HNJ & HsJ & _).
    { left. apply Hin. vm_compute. reflexivity. }
    assert (Hval' : ∀ x a,
              (su.2 ∪ inputs) !! x = Some a ∨ outputs !! x = Some a →
              Words.valid_var (ra_len J) J a).
    { intros x a Hx. destruct (Hval x a Hx) as (H1 & H2 & H3).
      split; [rewrite H1; symmetry; exact HNJ|].
      split; [rewrite H2; symmetry; exact HsJ|exact H3]. }
    split; [exact Hdt|]. split; [exact Heq|]. split.
    + pose proof (plan_gsize_spec _ _ _ _ _ _ _ _ _ Hp Hbase) as Hg.
      unfold Template.gsize in Hg. cbn [Z.ltb Z.compare] in Hg.
      destruct (Template.np_max (shape0s W)) as [mx|] eqn:Hmx;
        [|discriminate Hg].
      cbn [rbind] in Hg. injection Hg as Hg.
      destruct (np_max_spec _ _ Hmx) as [Hmem Hle].
      exists mx. rewrite <- Hg, HNJ, HsJ.
      split; [reflexivity|]. split; [exact Hmem|exact Hle].
    + repeat apply Forall_cons_2; [..|apply Forall_nil_2].
      * apply (Hval' "j"%string). left. apply Hin. vm_compute. reflexivity.
      * apply (Hval' "v"%string). left. apply Hin. vm_compute. reflexivity.
      * apply (Hval' "w"%string). left. apply Hin. vm_compute. reflexivity.
      * apply (Hval' "ov"%string). right. vm_compute. reflexivity.
      * apply (Hval' "ow"%string). right. vm_compute. reflexivity.
      * apply (Hval' "os"%string). right. vm_compute. reflexivity.
Qed.

Lemma plan_lif_outcome_witness :
  Plan.plan_lif Sample.full_J Sample.full_V Sample.full_Z Sample.full_Z
    Sample.full_Z Sample.full_Z (PyNumber (1 # 500)) (PyNumber (1 # 50)) 0
    None
  = Raise ZeroDivisionError
  ∧ ∃ p, Plan.plan_lif Sample.full_J Sample.full_V Sample.full_Z
           Sample.full_Z Sample.full_Z Sample.full_Z
           (PyNumber (1 # 500)) (PyNumber (1 # 50)) (1 # 1000) None = Ok p
         ∧ Kernel.kn_n_elements (Plan.plan_fn p) = 0
         ∧ ∃ mx, Plan.plan_gsize p = [mx; Z.of_nat (ra_len Sample.full_J)]
                 ∧ mx ∈ shape0s Sample.full_J
                 ∧ Forall (λ l, l ≤ mx) (shape0s Sample.full_J).
Proof.
  split.
  - destruct (plan_lif_outcome Sample.full_J Sample.full_V Sample.full_Z
                Sample.full_Z Sample.full_Z Sample.full_Z
                (PyNumber (1 # 500)) (PyNumber (1 # 50)) 0 None) as [H _].
    apply H. reflexivity.
  - assert (H : ∃ p, Plan.plan_lif Sample.full_J Sample.full_V Sample.full_Z
                       Sample.full_Z Sample.full_Z Sample.full_Z
                       (PyNumber (1 # 500)) (PyNumber (1 # 50)) (1 # 1000)
                       None = Ok p).
    { eexists. unfold Plan.plan_lif.
      change (Lif.lif_textconf (1 # 1000))
        with (Ok {| Lif.dt := 1 # 1000; Lif.dt_inv := 1 / (1 # 1000);
                    Lif.V_threshold := 1 |}).
      cbn [rbind].
      eapply plan_template_build; vm_compute; reflexivity. }
    destruct H as [p Hp]. exists p. split; [exact Hp|].
    destruct (plan_lif_outcome Sample.full_J Sample.full_V Sample.full_Z
                Sample.full_Z Sample.full_Z Sample.full_Z
                (PyNumber (1 # 500)) (PyNumber (1 # 50)) (1 # 1000) None)
      as [_ H].
    destruct (H p Hp) as (_ & Hn & Hg & _). split; [exact Hn|exact Hg].
Defined.

(** X9. A work item of the flattened grid whose first flat index is not
    below the total number of elements faults: its walk reads the length
    table past the last group before the guard [n >= N] is reached.  The
    lengths are those of a ragged array, none negative. *)
Theorem flattened_item_past_total_faults (k : Kernel.kernel)
    (st : Kernel.kmem) (gid : nat) :
  Forall (λ l, 0 ≤ l) (Kernel.km_lengths st) →
  Template.np_sum (Kernel.km_lengths st)
  ≤ Z.of_nat gid * Kernel.kn_n_elements k →
  Kernel.flat_item k gid st = None.
Proof.
  intros Hnn Hge. unfold Kernel.flat_item.
  by rewrite (walk_exhausted _ _ 0 (Kernel.km_log st) Hnn Hge).
Qed.

Lemma flattened_item_past_total_faults_witness :
  Kernel.flat_item (Sample.id_kernel 3) 1 Sample.id_mem = None.
Proof.
  apply (flattened_item_past_total_faults (Sample.id_kernel 3)
           Sample.id_mem 1).
  - vm_compute. repeat constructor; discriminate.
  - vm_compute. discriminate.
Defined.

(** ** The order of the work items *)

Section OrderFacts.

Import Template Kernel Plan Elementwise.

Lemma elem_of_grid g0 g1 m n :
  (m, n) ∈ grid g0 g1 ↔ (m < g0)%nat ∧ (n < g1)%nat.
Proof.
  unfold grid. rewrite list_elem_of_bind. split.
  - intros (n' & Hm & Hn). apply list_elem_of_bind in Hm as (m' & Hm & Hm').
    apply list_elem_of_singleton in Hm. injection Hm as -> ->.
    apply elem_of_seq in Hn, Hm'. lia.
  - intros [Hm Hn]. exists n. split; [|apply elem_of_seq; lia].
    apply list_elem_of_bind. exists m. split; [by left|].
    apply elem_of_seq. lia.
Qed.

Lemma active_cons lengths mn ids :
  active lengths (mn :: ids) = active lengths [mn] ++ active lengths ids.
Proof. unfold active. cbn [flat_map]. by rewrite app_nil_r. Qed.

Lemma elem_of_active lengths ids nm :
  nm ∈ active lengths ids
  ↔ is_elem lengths nm ∧ ∃ m, nm.2 = Z.of_nat m ∧ (m, nm.1) ∈ ids.
Proof.
  unfold active. rewrite list_elem_of_In, in_flat_map. split.
  - intros ([m n] & Hin & Hnm). apply list_elem_of_In in Hin. cbn in Hnm.
    destruct (lengths !! n) as [M|] eqn:En; [|destruct Hnm].
    destruct (Z.of_nat m <? M) eqn:Em; [|destruct Hnm].
    destruct Hnm as [<-|[]]. cbn. split.
    + exists M. cbn. split; [exact En|]. lia.
    + exists m. done.
  - intros ((M & HM & Hr) & m & Hm & Hin). exists (m, nm.1).
    split; [by apply list_elem_of_In|]. cbn. rewrite HM.
    destruct (Z.of_nat m <? M) eqn:Em; [|lia].
    left. destruct nm as [n z]. cbn in *. by rewrite Hm.
Qed.

(** Work items of the 2-D grid, run in any order and any number of times,
    update their elements one after the other. *)
Lemma run_blocked_any k st0 ids :
  core_ok k → mem_ok k st0 →
  Forall (λ mn : nat * nat, (mn.2 < length (km_lengths st0))%nat) ids →
  ∀ st, same_shape st0 st →
    ∃ st',
      run_items (λ mn, blocked_item k (Z.of_nat mn.1) mn.2) ids st = Some st'
      ∧ same_shape st0 st'
      ∧ km_data st'
        = visit_all k st0 (active (km_lengths st0) ids) (km_data st).
Proof.
  intros Hcore Hmem Hids. induction Hids as [|[m n] ids Hn Hids IH];
    intros st Hsh.
  { exists st. by rewrite run_items_nil. }
  cbn [snd] in Hn. apply lookup_lt_is_Some_2 in Hn as [M HM].
  destruct (blocked_item_data k st0 st (Z.of_nat m) n M Hcore Hmem Hsh
              ltac:(lia) HM) as (st1 & Hrun & Hsh1 & Hd1 & _).
  destruct (IH st1 Hsh1) as (st' & Hrun' & Hsh' & Hd').
  exists st'. rewrite run_items_cons. cbn [fst snd]. rewrite Hrun.
  cbn [mbind option_bind]. split; [exact Hrun'|]. split; [exact Hsh'|].
  rewrite Hd', Hd1, active_cons, visit_all_app. f_equal.
  unfold active. cbn [flat_map fst snd]. rewrite HM, app_nil_r.
  destruct (decide (Z.of_nat m < M)) as [Hlt|Hge].
  - assert ((Z.of_nat m <? M) = true) as -> by lia. reflexivity.
  - assert ((Z.of_nat m <? M) = false) as -> by lia. reflexivity.
Qed.

(** The buffers after the updates of a list of elements depend on which
    elements the list holds, not on their order or number. *)
Lemma visit_all_same_elems k st l1 l2 :
  mem_ok k st →
  (∀ x, x ∈ keys (kn_ivariables k) → x ∉ keys (kn_ovariables k)) →
  Forall (is_elem (km_lengths st)) l1 →
  (∀ nm, nm ∈ l1 ↔ nm ∈ l2) →
  visit_all k st l1 (km_data st) = visit_all k st l2 (km_data st).
Proof.
  intros Hmem Hdisj Hl1 Hsame.
  assert (Hl2 : Forall (is_elem (km_lengths st)) l2).
  { rewrite Forall_forall in Hl1 |- *. intros nm Hnm.
    by apply Hl1, Hsame. }
  destruct (visit_all_inv k st Hmem Hdisj l1 Hl1) as (A1 & A2 & A3 & A4).
  destruct (visit_all_inv k st Hmem Hdisj l2 Hl2) as (B1 & B2 & B3 & B4).
  set (d1 := visit_all k st l1 (km_data st)) in *.
  set (d2 := visit_all k st l2 (km_data st)) in *.
  apply map_eq. intros x.
  destruct (decide (x ∈ keys (kn_ovariables k))) as [Hx|Hx];
    [|by rewrite A2, B2].
  assert (Hpeek : ∀ a, peek d1 x a = peek d2 x a).
  { intros a.
    destruct (decide (Exists
                (λ nm, at_addr (λ y, elem_addr st y nm.1 nm.2) x = a) l1))
      as [Hex|Hnex].
    - apply Exists_exists in Hex as (nm & Hnm & <-).
      rewrite A4, B4; [done|exact Hx|by apply Hsame|exact Hx|exact Hnm].
    - rewrite <- Forall_Exists_neg, Forall_forall in Hnex.
      rewrite A3, B3; [done|exact Hx| |exact Hx|exact Hnex].
      intros nm Hnm. by apply Hnex, Hsame. }
  pose proof (A1 x) as HA. pose proof (B1 x) as HB.
  destruct (km_data st !! x) as [b0|]; cycle 1.
  { destruct (d1 !! x), (d2 !! x); done. }
  destruct (d1 !! x) as [b1|] eqn:E1; [|done].
  destruct (d2 !! x) as [b2|] eqn:E2; [|done].
  cbn in HA, HB. injection HA as HA. injection HB as HB.
  f_equal. apply list_eq. intros i.
  destruct (decide (i < length b0)%nat) as [Hi|Hi].
  - specialize (Hpeek (Z.of_nat i)). unfold peek in Hpeek.
    rewrite E1, E2 in Hpeek. cbn [mbind option_bind] in Hpeek.
    unfold idx in Hpeek.
    assert ((Z.of_nat i <? 0) = false) as Hneg by lia.
    rewrite Hneg, Nat2Z.id in Hpeek.
    destruct (lookup_lt_is_Some_2 b1 i ltac:(lia)) as [q1 Hq1].
    destruct (lookup_lt_is_Some_2 b2 i ltac:(lia)) as [q2 Hq2].
    rewrite Hq1, Hq2 in Hpeek |- *. cbn in Hpeek. by rewrite Hpeek.
  - rewrite !lookup_ge_None_2; [done|lia|lia].
Qed.

End OrderFacts.


(** ** Arrays whose groups are all empty *)

Section EmptyGroups.

Import Template Kernel Plan.

Lemma np_sum_zero (l : list Z) : Forall (λ x, x = 0) l → np_sum l = 0.
Proof.
  induction 1 as [|x l -> _ IH]; [done|]. by rewrite np_sum_cons, IH.
Qed.

Lemma grid_0 g1 : grid 0 g1 = [].
Proof.
  induction g1 as [|g1 IH]; [done|]. by rewrite grid_S, IH.
Qed.

(** The binding of a built plan succeeds, whatever the arrays hold. *)
Lemma plan_bound name core tag n inputs outputs parameters p :
  plan_template name core tag n inputs outputs parameters = Ok p →
  is_Some (bound p).
Proof.
  intros Hp.
  apply plan_template_Ok in Hp
    as (base & su & vars & iv & ov & gs & _ & _ & Hres & Hiv & Hov & _ & ->).
  destruct (resolved_views _ _ _ _ _ _ _ Hres Hiv Hov) as (_ & Hdi & Hdo & _).
  unfold bound. cbn [plan_fn plan_full_args kn_ivariables kn_ovariables].
  unfold kernel_params.
  rewrite (var_params_same_dom true iv (su.2 ∪ inputs) Hdi),
          (var_params_same_dom false ov outputs Hdo).
  rewrite bind_full_args. eauto.
Qed.

End EmptyGroups.

(** X11. When every group of the reference is empty, a built plan launches
    no work item at all: the flattened work size is [(0,)], the 2-D work
    size is [(0, N)], and one invocation returns with the bound memory as
    it was, not even the length table having been read. *)
Theorem invoke_with_all_groups_empty
    name core tag n inputs outputs parameters p base :
  Plan.plan_template name core tag n inputs outputs parameters = Ok p →
  Plan.reference inputs = Ok base →
  Forall (λ l, l = 0) (shape0s base) →
  (0 < n → Plan.plan_gsize p = [0])
  ∧ (n ≤ 0 → Plan.plan_gsize p = [0; Z.of_nat (ra_len base)])
  ∧ ∃ st, Plan.bound p = Some st ∧ Plan.invoke p = Some st.
Proof.
  intros Hp Hbase Hzero.
  destruct (plan_bound _ _ _ _ _ _ _ _ Hp) as [st Hst].
  pose proof (plan_gsize_spec _ _ _ _ _ _ _ _ _ Hp Hbase) as Hg.
  assert (Hn : Kernel.kn_n_elements (Plan.plan_fn p) = n).
  { apply plan_template_Ok in Hp
      as (? & ? & ? & ? & ? & ? & _ & _ & _ & _ & _ & _ & ->).
    reflexivity. }
  unfold Template.gsize in Hg.
  destruct (0 <? n) eqn:E.
  - injection Hg as Hg.
    pose proof (Qceiling_div (Template.np_sum (shape0s base)) n ltac:(lia))
      as Hceil.
    rewrite (np_sum_zero _ Hzero) in Hceil, Hg.
    assert (Hg0 : Qceiling (inject_Z 0 / inject_Z n) = 0) by nia.
    rewrite Hg0 in Hg.
    split; [intros _; symmetry; exact Hg|]. split; [intros Hle; lia|].
    exists st. split; [exact Hst|].
    unfold Plan.invoke. rewrite Hst. cbn [mbind option_bind].
    unfold Kernel.launch. rewrite Hn, E, <- Hg. reflexivity.
  - destruct (Template.np_max (shape0s base)) as [mx|] eqn:Hmx;
      [|discriminate Hg].
    cbn [rbind] in Hg. injection Hg as Hg.
    destruct (np_max_spec _ _ Hmx) as [Hin _].
    rewrite Forall_forall in Hzero. rewrite (Hzero mx Hin) in Hg.
    split; [intros Hpos; lia|]. split; [intros _; symmetry; exact Hg|].
    exists st. split; [exact Hst|].
    unfold Plan.invoke. rewrite Hst. cbn [mbind option_bind].
    unfold Kernel.launch. rewrite Hn, E, <- Hg.
    change (Z.to_nat 0) with 0%nat. rewrite grid_0. reflexivity.
Qed.

Lemma invoke_with_all_groups_empty_witness :
  ∃ p, Sample.hollow_plan 4 = Ok p
       ∧ (0 < 4 → Plan.plan_gsize p = [0])
       ∧ (4 ≤ 0 → Plan.plan_gsize p = [0; Z.of_nat (ra_len Sample.hollow)])
       ∧ ∃ st, Plan.bound p = Some st ∧ Plan.invoke p = Some st.
Proof.
  assert (H : ∃ p, Sample.hollow_plan 4 = Ok p).
  { eexists. unfold Sample.hollow_plan.
    eapply plan_template_build; vm_compute; reflexivity. }
  destruct H as [p Hp]. exists p. split; [exact Hp|].
  apply (invoke_with_all_groups_empty "copy" _ None 4
           {[ "x"%string := Sample.hollow ]} {[ "y"%string := Sample.hollow ]}
           ∅ p Sample.hollow Hp).
  - vm_compute. reflexivity.
  - vm_compute. repeat constructor.
Defined.

(** ** The LIF body in floating point *)

Section FloatLaw.

Import LifFloat.

Lemma rdf_set_float_eq x rhs (e : fenv) : rdf (set_float x rhs e) x = rhs e.
Proof. unfold rdf, set_float. by rewrite lookup_insert_eq. Qed.

Lemma rdf_set_float_ne x y rhs (e : fenv) :
  x ≠ y → rdf (set_float x rhs e) y = rdf e y.
Proof. intros H. unfold rdf, set_float. by rewrite lookup_insert_ne. Qed.

Lemma rdf_set_char_ne x y rhs (e : fenv) :
  x ≠ y → rdf (set_char x rhs e) y = rdf e y.
Proof. intros H. unfold rdf, set_char. by rewrite lookup_insert_ne. Qed.

Lemma rdc_set_char_eq x rhs (e : fenv) : rdc (set_char x rhs e) x = rhs e.
Proof. unfold rdc, set_char. by rewrite lookup_insert_eq. Qed.

Lemma rdc_set_float_ne x y rhs (e : fenv) :
  x ≠ y → rdc (set_float x rhs e) y = rdc e y.
Proof. intros H. unfold rdc, set_float. by rewrite lookup_insert_ne. Qed.

End FloatLaw.

(** The test [spiked ? _ : _] on the two values [spiked] takes. *)
Lemma char_test_1 : (1 =? 0) = false.
Proof. reflexivity. Qed.

Lemma char_test_0 : (0 =? 0) = true.
Proof. reflexivity. Qed.

(** Reading a local variable after assignments to it or to others, and
    a test whose outcome is known. *)
Ltac float_reads :=
  repeat first
    [ rewrite rdf_set_float_eq
    | rewrite rdc_set_char_eq
    | rewrite rdf_set_float_ne by (intros ?; discriminate)
    | rewrite rdf_set_char_ne by (intros ?; discriminate)
    | rewrite rdc_set_float_ne by (intros ?; discriminate)
    | rewrite char_test_1
    | rewrite char_test_0
    | match goal with
      | H : ?b = _ |- context [if ?b then _ else _] => rewrite H
      end ].

(** Case analysis on the tests of the body, in program order. *)
Ltac float_cases :=
  repeat (float_reads;
          match goal with
          | |- context [if ?b then _ else _] =>
              lazymatch b with
              | context [LifFloat.set_float] => fail
              | context [LifFloat.set_char] => fail
              | _ => destruct b eqn:?
              end
          end);
  float_reads.




(** ** The order of parameters and arguments *)

(** C8 (as the code orders parameters and arguments).  The parameters of
    [fn] follow the iteration of [ivariables] and [ovariables], the
    arguments follow the iteration of [ivars] and [ovars]: dictionaries
    with the same keys, filled in different orders.  For the inputs
    [{'f': F, 'v': V}] the two names meet in one slot, so each dictionary
    yields them in the reverse order of the one it was filled from: the
    parameters are those of [v], then [f], the arguments those of [F],
    then [V], whichever way the caller filled the dictionary.  Bound by
    position, the kernel's [v] is the array passed as [f]: the plan that
    copies [v] to [y] leaves the values of [F] in [y]. *)
Theorem binding_order_differs_from_signature :
  Ordered.signature Sample.swap_inputs Sample.swap_outputs PyDict.empty
  = [Template.PStarts "v"; Template.PData "v" true;
     Template.PStarts "f"; Template.PData "f" true;
     Template.PStarts "y"; Template.PData "y" false; Template.PLengths]
  ∧ Ordered.arguments Sample.swap_inputs Sample.swap_outputs PyDict.empty
    = Some [Template.DevInt (starts Sample.swap_F);
            Template.DevData (buf Sample.swap_F);
            Template.DevInt (starts Sample.swap_V);
            Template.DevData (buf Sample.swap_V);
            Template.DevInt (starts Sample.swap_O);
            Template.DevData (buf Sample.swap_O);
            Template.DevInt (shape0s Sample.swap_V)]
  ∧ Ordered.signature Sample.swap_inputs_rev Sample.swap_outputs PyDict.empty
    = [Template.PStarts "f"; Template.PData "f" true;
       Template.PStarts "v"; Template.PData "v" true;
       Template.PStarts "y"; Template.PData "y" false; Template.PLengths]
  ∧ Ordered.arguments Sample.swap_inputs_rev Sample.swap_outputs PyDict.empty
    = Some [Template.DevInt (starts Sample.swap_V);
            Template.DevData (buf Sample.swap_V);
            Template.DevInt (starts Sample.swap_F);
            Template.DevData (buf Sample.swap_F);
            Template.DevInt (starts Sample.swap_O);
            Template.DevData (buf Sample.swap_O);
            Template.DevInt (shape0s Sample.swap_F)]
  ∧ match Ordered.bound Sample.swap_inputs Sample.swap_outputs PyDict.empty,
          Sample.swap_plan with
    | Some st, Ok p =>
        Kernel.km_data st !! "v"%string = Some (buf Sample.swap_F)
        ∧ Kernel.km_data st !! "f"%string = Some (buf Sample.swap_V)
        ∧ (Kernel.launch (Plan.plan_fn p) (Plan.plan_gsize p) st
             ≫= λ st', Kernel.km_data st' !! "y"%string)
          = Some (buf Sample.swap_F)
        ∧ buf Sample.swap_F ≠ buf Sample.swap_V
    | _, _ => False
    end.
Proof.
  split_and!; try (vm_compute; reflexivity).
  vm_compute. split_and!; try reflexivity. intros H. discriminate H.
Qed.

Section LifBinding.

Import Template Kernel Plan Words.

(** The memory a built plan is bound to, by name. *)
Lemma plan_bound_eq name core tag n inputs outputs parameters p base su :
  plan_template name core tag n inputs outputs parameters = Ok p →
  reference inputs = Ok base →
  classify parameters = Ok su →
  bound p
  = Some (bound_mem (map_to_list (su.2 ∪ inputs) ++ map_to_list outputs)
            base).
Proof.
  intros Hp Hbase Hcl.
  apply plan_template_Ok in Hp
    as (base' & su' & vars & iv & ov & gs & Hbase' & Hcl' & Hres & Hiv & Hov
        & _ & ->).
  rewrite Hbase in Hbase'. injection Hbase' as <-.
  rewrite Hcl in Hcl'. injection Hcl' as <-.
  destruct (resolved_views _ _ _ _ _ _ _ Hres Hiv Hov) as (_ & Hdi & Hdo & _).
  unfold bound. cbn [plan_fn plan_full_args kn_ivariables kn_ovariables].
  unfold kernel_params.
  rewrite (var_params_same_dom true iv (su.2 ∪ inputs) Hdi),
          (var_params_same_dom false ov outputs Hdo).
  apply bind_full_args.
Qed.

End LifBinding.

(** X12. For the names of [plan_lif] the order of the dictionaries does no
    harm: the six names, and [tau] and [ref] when they are arrays, fall
    into slots of their own, every dictionary yields them in the same
    order, and binding the arguments by position gives each kernel
    parameter the array of its own name, the memory that binding by name
    gives.  The read variables come in the order [tau], [j], [ref], [w],
    [v]: an array parameter before the inputs. *)
Theorem plan_lif_binds_by_name (J V W OV OW OS : CLRaggedArray)
    (ref tau : pyvalue) (dt0 : Q) tag p :
  Plan.plan_lif J V W OV OW OS ref tau dt0 tag = Ok p →
  Ordered.bound (Ordered.lif_inputs J V W) (Ordered.lif_outputs OV OW OS)
    (Ordered.lif_parameters tau ref)
  = Plan.bound p
  ∧ (Ordered.avars (Ordered.lif_inputs J V W) (Ordered.lif_outputs OV OW OS)
       (Ordered.lif_parameters tau ref)).*1
    = match tau with PyRagged _ => ["tau"%string] | _ => [] end
      ++ ["j"%string]
      ++ match ref with PyRagged _ => ["ref"%string] | _ => [] end
      ++ ["w"; "v"; "ow"; "ov"; "os"]%string.
Proof.
  intros Hp. apply plan_lif_Ok in Hp as (c & _ & Hp).
  set (inputs := py_dict [("j"%string, J); ("v"%string, V);
                          ("w"%string, W)]) in *.
  set (outputs := py_dict [("ov"%string, OV); ("ow"%string, OW);
                           ("os"%string, OS)]) in *.
  assert (Hbase : Plan.reference inputs = Ok W) by (vm_compute; reflexivity).
  pose proof Hp as Hp'.
  apply plan_template_Ok in Hp' as (base & su & _ & _ & _ & _ & _ & Hcl & _).
  pose proof (plan_vars_valid _ _ _ _ _ _ _ _ _ _ Hp Hbase Hcl) as Hval.
  pose proof (plan_bound_eq _ _ _ _ _ _ _ _ _ _ Hp Hbase Hcl) as Hb.
  assert (HJ : shape0s J = shape0s W).
  { destruct (Hval "j"%string J) as (_ & HsJ & _); [|exact HsJ].
    left. destruct tau, ref; vm_compute in Hcl;
      first [discriminate Hcl | injection Hcl as <-; vm_compute; reflexivity]. }
  rewrite Hb. clear Hb Hval Hp.
  unfold Plan.bound_mem. rewrite <- HJ.
  destruct tau, ref; vm_compute in Hcl;
    first [discriminate Hcl | injection Hcl as <-];
    split; vm_compute; reflexivity.
Qed.

Lemma plan_lif_binds_by_name_witness :
  ∃ p, Plan.plan_lif Sample.full_J Sample.full_V Sample.full_Z
         Sample.full_Z Sample.full_Z Sample.full_Z
         (PyNumber (1 # 500)) (PyNumber (1 # 50)) (1 # 1000) None = Ok p
       ∧ Ordered.bound
           (Ordered.lif_inputs Sample.full_J Sample.full_V Sample.full_Z)
           (Ordered.lif_outputs Sample.full_Z Sample.full_Z Sample.full_Z)
           (Ordered.lif_parameters (PyNumber (1 # 50)) (PyNumber (1 # 500)))
         = Plan.bound p.
Proof.
  assert (H : ∃ p, Plan.plan_lif Sample.full_J Sample.full_V Sample.full_Z
                     Sample.full_Z Sample.full_Z Sample.full_Z
                     (PyNumber (1 # 500)) (PyNumber (1 # 50)) (1 # 1000)
                     None = Ok p).
  { eexists. unfold Plan.plan_lif.
    change (Lif.lif_textconf (1 # 1000))
      with (Ok {| Lif.dt := 1 # 1000; Lif.dt_inv := 1 / (1 # 1000);
                  Lif.V_threshold := 1 |}).
    cbn [rbind].
    eapply plan_template_build; vm_compute; reflexivity. }
  destruct H as [p Hp]. exists p. split; [exact Hp|].
  apply (plan_lif_binds_by_name Sample.full_J Sample.full_V Sample.full_Z
           Sample.full_Z Sample.full_Z Sample.full_Z
           (PyNumber (1 # 500)) (PyNumber (1 # 50)) (1 # 1000) None p Hp).
Defined.

(** ** The start of a flattened work item *)

Section FlatStart.

Import Template Kernel Plan.

(** The memory a built plan is bound to holds the length table of the
    reference, and no access has been made yet. *)
Lemma plan_bound_lengths name core tag n inputs outputs parameters p base :
  plan_template name core tag n inputs outputs parameters = Ok p →
  reference inputs = Ok base →
  ∃ st, bound p = Some st ∧ km_lengths st = shape0s base ∧ km_log st = []
        ∧ kn_N (plan_fn p) = ra_len base ∧ kn_n_elements (plan_fn p) = n.
Proof.
  intros Hp Hbase.
  apply plan_template_Ok in Hp
    as (base' & su & vars & iv & ov & gs & Hbase' & _ & Hres & Hiv & Hov & _
        & ->).
  rewrite Hbase in Hbase'. injection Hbase' as <-.
  destruct (resolved_views _ _ _ _ _ _ _ Hres Hiv Hov) as (_ & Hdi & Hdo & _).
  unfold bound. cbn [plan_fn plan_full_args kn_ivariables kn_ovariables].
  unfold kernel_params.
  rewrite (var_params_same_dom true iv (su.2 ∪ inputs) Hdi),
          (var_params_same_dom false ov outputs Hdo).
  rewrite bind_full_args. eexists. split; [reflexivity|]. done.
Qed.

End FlatStart.



(** ** A built plan on any memory that fits its kernel *)

Section FittingMemory.

Import Template Kernel Plan Elementwise.

(** The bound length table has no negative entry, once one variable obeys
    the layout contract for it. *)
Lemma mem_ok_lengths_nonneg k st x :
  mem_ok k st → x ∈ keys (kn_ivariables k) ++ keys (kn_ovariables k) →
  Forall (λ l, 0 ≤ l) (km_lengths st).
Proof.
  intros (_ & Hok & Hcov) Hx. specialize (Hok x (Hcov x Hx)).
  unfold var_okb in Hok.
  destruct (km_starts st !! x) as [sts|]; [|done].
  destruct (km_data st !! x) as [b|]; [|done].
  by eapply layout_ok_nonneg.
Qed.

Lemma plan_reads_reference name core tag n inputs outputs parameters p base :
  plan_template name core tag n inputs outputs parameters = Ok p →
  reference inputs = Ok base →
  ∃ x, x ∈ keys (kn_ivariables (plan_fn p))
           ++ keys (kn_ovariables (plan_fn p)).
Proof.
  intros Hp Hbase.
  pose proof Hp as Hp'.
  apply plan_template_Ok in Hp' as (base' & su & _ & _ & _ & _ & _ & Hcl & _).
  destruct (plan_kernel_facts _ _ _ _ _ _ _ _ _ Hp Hcl) as (_ & Hki & _).
  destruct (reference_lookup _ _ Hbase) as [x Hx].
  exists x. apply elem_of_app. left. rewrite Hki. unfold keys.
  apply elem_of_keys. apply lookup_union_is_Some. right. by exists base.
Qed.

(** One launch of a built plan on a memory that fits its kernel updates
    the elements one after the other, in the order of the flat index. *)
Lemma plan_launch_visit_all
    name core tag n inputs outputs parameters p base st :
  plan_template name core tag n inputs outputs parameters = Ok p →
  reference inputs = Ok base →
  core_ok (plan_fn p) → mem_ok (plan_fn p) st →
  km_lengths st = shape0s base →
  n = 0 ∨ n = 1 ∨ (1 ≤ n ∧ Forall (λ l, 0 < l) (shape0s base)) →
  ∃ st',
    launch (plan_fn p) (plan_gsize p) st = Some st' ∧ same_shape st st'
    ∧ km_data st'
      = visit_all (plan_fn p) st (elems (shape0s base)) (km_data st)
    ∧ data_accesses (km_log st')
      = data_accesses (km_log st)
        ++ flat_map (elem_accesses (plan_fn p) st) (elems (shape0s base)).
Proof.
  intros Hp Hbase Hcore Hmem Hlen Hn.
  destruct (plan_reads_reference _ _ _ _ _ _ _ _ _ Hp Hbase) as [x Hx].
  pose proof (mem_ok_lengths_nonneg _ _ _ Hmem Hx) as Hnn.
  destruct (plan_bound_lengths _ _ _ _ _ _ _ _ _ Hp Hbase)
    as (_ & _ & _ & _ & _ & Hne).
  pose proof (plan_gsize_spec _ _ _ _ _ _ _ _ _ Hp Hbase) as Hg.
  unfold gsize in Hg. rewrite <- Hlen in Hg, Hn |- *.
  destruct Hn as [->|Hn].
  - cbn [Z.ltb Z.compare] in Hg.
    destruct (np_max (km_lengths st)) as [mx|] eqn:Hmx; [|done].
    cbn in Hg. injection Hg as Hg.
    destruct (np_max_spec _ _ Hmx) as [Hin Hle].
    destruct (launch_blocked (plan_fn p) st mx
                (Z.of_nat (ra_len base)) Hne Hcore Hmem)
      as (st' & Hl & Hsh & Hd & Ha).
    { apply Forall_forall. intros M HM. rewrite Forall_forall in Hnn, Hle.
      split; [by apply Hnn|by apply Hle]. }
    { unfold ra_len. by rewrite Hlen. }
    exists st'. rewrite <- Hg. split_and!; done.
  - assert (1 ≤ n) as H1 by (destruct Hn as [->|[? _]]; lia).
    destruct (0 <? n) eqn:E; [|lia]. injection Hg as Hg.
    pose proof (Qceiling_div (np_sum (km_lengths st)) n ltac:(lia)) as Hceil.
    destruct (launch_flattened (plan_fn p) st
                (Qceiling (inject_Z (np_sum (km_lengths st)) / inject_Z n)))
      as (st' & Hl & Hsh & Hd & Ha).
    { rewrite Hne. lia. }
    { exact Hcore. }
    { exact Hmem. }
    { rewrite Hne. destruct Hn as [->|[_ Hpos]]; [by left|by right]. }
    { exact Hnn. }
    { rewrite Hne. exact Hceil. }
    exists st'. rewrite <- Hg. split_and!; done.
Qed.

End FittingMemory.

Section SampleMemory.

Import Template Kernel Plan.

(** The memory the sample LIF plan is bound to fits its kernel. *)
Lemma sample_full_fits n p :
  Sample.full_plan n = Ok p →
  ∃ st, bound p = Some st ∧ mem_ok (plan_fn p) st
        ∧ km_lengths st = shape0s Sample.full_Z.
Proof.
  intros Hp.
  assert (Hbase : reference Sample.full_inputs = Ok Sample.full_Z)
    by (vm_compute; reflexivity).
  assert (Hcl : classify Sample.lif_parameters = Ok (Sample.lif_static, ∅))
    by (vm_compute; reflexivity).
  destruct (plan_bound_mem "lif_step" (Lif.lif_text Sample.conf) None n
              Sample.full_inputs Sample.full_outputs Sample.lif_parameters
              p Sample.full_Z (Sample.lif_static, ∅) Hp Hbase Hcl)
    as (Hb & Hmem & _).
  { intros x a [Hx|Hx]; revert x a Hx; apply sample_wf; vm_compute;
      reflexivity. }
  eexists. split; [exact Hb|]. split; [exact Hmem|reflexivity].
Qed.

End SampleMemory.

(** X2. One launch of a built plan on a memory that fits its kernel never
    faults and updates every element of every group: afterwards each
    write variable holds, at the place of element [m] of group [n], the
    value the update rule assigns to it when run on the constants and on
    the values of the read variables at the same element; the write
    buffers are unchanged at every other address (padding between groups
    included), all other buffers and all tables are unchanged.  This holds
    on the 2-D grid for any lengths, and on the flattened grid when its
    runs have one element or no group is empty.  The update rule must
    assign every write variable from the values read and the constants
    alone and leave the constants alone, no constant bearing the name of a
    read variable; the memory fits when the length table is that of the reference and every
    variable of the kernel is bound to a table of starts and a buffer in
    which every group that holds elements lies within the buffer and no
    two of them overlap. *)
Theorem launch_updates_every_element
    name core tag n inputs outputs parameters p base st :
  Plan.plan_template name core tag n inputs outputs parameters = Ok p →
  Plan.reference inputs = Ok base →
  Kernel.core_ok (Plan.plan_fn p) →
  Kernel.mem_ok (Plan.plan_fn p) st →
  Kernel.km_lengths st = shape0s base →
  n = 0 ∨ n = 1 ∨ (1 ≤ n ∧ Forall (λ l, 0 < l) (shape0s base)) →
  ∃ st',
    Kernel.launch (Plan.plan_fn p) (Plan.plan_gsize p) st = Some st'
    ∧ Kernel.same_shape st st'
    ∧ (∀ x, outputs !! x = None →
            Kernel.km_data st' !! x = Kernel.km_data st !! x)
    ∧ (∀ y nm, is_Some (outputs !! y) →
               Elementwise.is_elem (shape0s base) nm →
               ∃ a, Kernel.elem_addr st y nm.1 nm.2 = Some a
                    ∧ Kernel.peek (Kernel.km_data st') y a
                      = rd (core (Elementwise.elem_env (Plan.plan_fn p) st nm))
                          y)
    ∧ (∀ y a, is_Some (outputs !! y) →
              (∀ nm, Elementwise.is_elem (shape0s base) nm →
                     Kernel.elem_addr st y nm.1 nm.2 ≠ Some a) →
              Kernel.peek (Kernel.km_data st') y a
              = Kernel.peek (Kernel.km_data st) y a).
Proof.
  intros Hp Hbase Hcore Hmem Hlen Hn.
  destruct (plan_launch_visit_all _ _ _ _ _ _ _ _ _ _ Hp Hbase Hcore Hmem
              Hlen Hn) as (st' & Hrun & Hsh & Hd & _).
  pose proof Hp as Hp'.
  apply plan_template_Ok in Hp' as (base' & su & _ & _ & _ & _ & _ & Hcl & _).
  destruct (plan_kernel_facts _ _ _ _ _ _ _ _ _ Hp Hcl) as (Hc & _ & Hko & _).
  pose proof (plan_keys_disjoint _ _ _ _ _ _ _ _ Hp) as Hdisj.
  assert (Hel : Forall (Elementwise.is_elem (Kernel.km_lengths st))
                  (Kernel.elems (shape0s base))).
  { apply Forall_forall. intros nm Hnm. rewrite Hlen. by apply elem_of_elems. }
  destruct (visit_all_inv _ st Hmem Hdisj _ Hel) as (_ & I2 & I3 & I4).
  rewrite <- Hd in I2, I3, I4. rewrite Hc in I4.
  assert (Hout : ∀ y, is_Some (outputs !! y)
                      ↔ y ∈ Kernel.keys (Kernel.kn_ovariables (Plan.plan_fn p))).
  { intros y. rewrite Hko. unfold Kernel.keys. by rewrite elem_of_keys. }
  exists st'. split; [exact Hrun|]. split; [exact Hsh|].
  split; [|split].
  - intros x Hx. apply I2. rewrite <- Hout, Hx. by intros [? ?].
  - intros y nm Hy Hnm. apply Hout in Hy. rewrite <- Hlen in Hnm.
    destruct (mem_ok_elem _ st Hmem y nm) as (a & b & Ha & Ha' & _);
      [apply elem_of_app; by right|exact Hnm|].
    exists a. split; [exact Ha|]. rewrite <- Ha'. apply I4; [exact Hy|].
    apply elem_of_elems. by rewrite <- Hlen.
  - intros y a Hy Hne. apply Hout in Hy. apply I3; [exact Hy|].
    intros nm Hnm Heq. apply elem_of_elems in Hnm.
    destruct (mem_ok_elem _ st Hmem y nm) as (a' & b & Ha & Ha' & _);
      [apply elem_of_app; by right|by rewrite Hlen|].
    apply (Hne nm Hnm). congruence.
Qed.

Lemma launch_updates_every_element_witness :
  ∃ p st st',
    Sample.full_plan 4 = Ok p ∧ Plan.bound p = Some st
    ∧ Kernel.launch (Plan.plan_fn p) (Plan.plan_gsize p) st = Some st'
    ∧ Kernel.same_shape st st'
    ∧ (∀ x, Sample.full_outputs !! x = None →
            Kernel.km_data st' !! x = Kernel.km_data st !! x)
    ∧ (∀ y nm, is_Some (Sample.full_outputs !! y) →
               Elementwise.is_elem (shape0s Sample.full_Z) nm →
               ∃ a, Kernel.elem_addr st y nm.1 nm.2 = Some a
                    ∧ Kernel.peek (Kernel.km_data st') y a
                      = rd (Lif.lif_text Sample.conf
                              (Elementwise.elem_env (Plan.plan_fn p) st nm))
                          y).
Proof.
  assert (H : ∃ p, Sample.full_plan 4 = Ok p).
  { eexists. unfold Sample.full_plan.
    eapply plan_template_build; vm_compute; reflexivity. }
  destruct H as [p Hp].
  destruct (sample_full_fits 4 p Hp) as (st & Hb & Hmem & Hlen).
  destruct (launch_updates_every_element "lif_step"
              (Lif.lif_text Sample.conf) None 4 Sample.full_inputs
              Sample.full_outputs Sample.lif_parameters p Sample.full_Z st Hp)
    as (st' & H1 & H2 & H3 & H4 & _).
  - vm_compute. reflexivity.
  - exact (sample_lif_core_ok 4 p Hp).
  - exact Hmem.
  - exact Hlen.
  - right. right. split; [lia|]. vm_compute. repeat constructor.
  - exists p, st, st'. split; [exact Hp|]. split; [exact Hb|].
    split; [exact H1|]. split; [exact H2|]. split; [exact H3|exact H4].
Defined.

(** X1. Without empty groups, or with runs of a single element, the two
    strategies agree: a plan built for the 2-D grid and the same plan
    built for the flattened grid, launched on the same memory, both
    update every element once, in the order of the flat index, and leave
    the same buffers.  The update rule must assign every write
    variable from the values read and the constants alone and leave the
    constants alone, no constant bearing the name of a read variable; and
    the memory must fit the kernel: the length table is that of the reference, and every variable
    is bound to a table of starts and a buffer in which every group that
    holds elements lies within the buffer and no two of them overlap. *)
Theorem strategies_agree_without_empty_groups
    name core tag c inputs outputs parameters p0 pc base st :
  Plan.plan_template name core tag 0 inputs outputs parameters = Ok p0 →
  Plan.plan_template name core tag c inputs outputs parameters = Ok pc →
  1 ≤ c →
  Plan.reference inputs = Ok base →
  c = 1 ∨ Forall (λ l, 0 < l) (shape0s base) →
  Kernel.core_ok (Plan.plan_fn p0) →
  Kernel.mem_ok (Plan.plan_fn p0) st →
  Kernel.km_lengths st = shape0s base →
  ∃ st0 stc,
    Kernel.launch (Plan.plan_fn p0) (Plan.plan_gsize p0) st = Some st0
    ∧ Kernel.launch (Plan.plan_fn pc) (Plan.plan_gsize pc) st = Some stc
    ∧ Kernel.km_data st0 = Kernel.km_data stc
    ∧ Kernel.data_accesses (Kernel.km_log st0)
      = Kernel.data_accesses (Kernel.km_log st)
        ++ flat_map (Kernel.elem_accesses (Plan.plan_fn p0) st)
             (Kernel.elems (shape0s base))
    ∧ Kernel.data_accesses (Kernel.km_log stc)
      = Kernel.data_accesses (Kernel.km_log st)
        ++ flat_map (Kernel.elem_accesses (Plan.plan_fn p0) st)
             (Kernel.elems (shape0s base)).
Proof.
  intros Hp0 Hpc Hc Hbase Hpos Hcore Hmem Hlen.
  pose proof (plan_fn_n_elements _ _ _ _ _ _ _ _ _ _ Hp0 Hpc) as Hfn.
  destruct (plan_launch_visit_all _ _ _ _ _ _ _ _ _ _ Hp0 Hbase Hcore Hmem
              Hlen (or_introl eq_refl)) as (st0 & Hl0 & _ & Hd0 & Ha0).
  destruct (plan_launch_visit_all _ _ _ _ _ _ _ _ _ st Hpc Hbase)
    as (stc & Hlc & _ & Hdc & Hac).
  { rewrite Hfn. exact Hcore. }
  { rewrite Hfn. exact Hmem. }
  { exact Hlen. }
  { right. destruct Hpos as [->|Hpos]; [by left|right; by split]. }
  rewrite Hfn in Hdc, Hac.
  exists st0, stc. split; [exact Hl0|]. split; [exact Hlc|].
  split; [by rewrite Hd0, Hdc|]. split; [exact Ha0|exact Hac].
Qed.

Lemma strategies_agree_without_empty_groups_witness :
  ∃ p0 p4 st st0 st4,
    Sample.full_plan 0 = Ok p0 ∧ Sample.full_plan 4 = Ok p4
    ∧ Plan.bound p0 = Some st
    ∧ Kernel.launch (Plan.plan_fn p0) (Plan.plan_gsize p0) st = Some st0
    ∧ Kernel.launch (Plan.plan_fn p4) (Plan.plan_gsize p4) st = Some st4
    ∧ Kernel.km_data st0 = Kernel.km_data st4.
Proof.
  assert (H0 : ∃ p, Sample.full_plan 0 = Ok p).
  { eexists. unfold Sample.full_plan.
    eapply plan_template_build; vm_compute; reflexivity. }
  assert (H4 : ∃ p, Sample.full_plan 4 = Ok p).
  { eexists. unfold Sample.full_plan.
    eapply plan_template_build; vm_compute; reflexivity. }
  destruct H0 as [p0 Hp0], H4 as [p4 Hp4].
  destruct (sample_full_fits 0 p0 Hp0) as (st & Hb & Hmem & Hlen).
  destruct (strategies_agree_without_empty_groups "lif_step"
              (Lif.lif_text Sample.conf) None 4 Sample.full_inputs
              Sample.full_outputs Sample.lif_parameters p0 p4 Sample.full_Z
              st Hp0 Hp4 ltac:(lia))
    as (st0 & st4 & Hl0 & Hl4 & Hd & _).
  - vm_compute. reflexivity.
  - right. vm_compute. repeat constructor.
  - exact (sample_lif_core_ok 0 p0 Hp0).
  - exact Hmem.
  - exact Hlen.
  - exists p0, p4, st, st0, st4. split; [exact Hp0|]. split; [exact Hp4|].
    split; [exact Hb|]. split; [exact Hl0|]. split; [exact Hl4|exact Hd].
Defined.

(** X10. The result of the 2-D kernel does not depend on the order in
    which its work items run: on a memory that fits the kernel, running
    the items of the grid of a built plan in any order leaves the buffers
    that one launch, which runs them in the order of their ids, leaves.
    The update rule must assign every write variable from the values read
    and the constants alone and leave the constants alone, no constant
    bearing the name of a read variable; the memory fits when the length table is that of
    the reference and every variable is bound to a table of starts and a
    buffer in which every group that holds elements lies within the
    buffer and no two of them overlap. *)
Theorem blocked_order_irrelevant
    name core tag inputs outputs parameters p base st g0 g1
    (ids : list (nat * nat)) :
  Plan.plan_template name core tag 0 inputs outputs parameters = Ok p →
  Plan.reference inputs = Ok base →
  Kernel.core_ok (Plan.plan_fn p) →
  Kernel.mem_ok (Plan.plan_fn p) st →
  Kernel.km_lengths st = shape0s base →
  Plan.plan_gsize p = [g0; g1] →
  ids ≡ₚ Kernel.grid (Z.to_nat g0) (Z.to_nat g1) →
  ∃ st1 st',
    Kernel.launch (Plan.plan_fn p) (Plan.plan_gsize p) st = Some st'
    ∧ Kernel.run_items
        (λ mn, Kernel.blocked_item (Plan.plan_fn p) (Z.of_nat mn.1) mn.2)
        ids st = Some st1
    ∧ Kernel.km_data st1 = Kernel.km_data st'.
Proof.
  intros Hp Hbase Hcore Hmem Hlen Hgs Hperm.
  destruct (plan_bound_lengths _ _ _ _ _ _ _ _ _ Hp Hbase)
    as (_ & _ & _ & _ & _ & Hne).
  pose proof (plan_gsize_spec _ _ _ _ _ _ _ _ _ Hp Hbase) as Hg.
  pose proof (plan_keys_disjoint _ _ _ _ _ _ _ _ Hp) as Hdisj.
  assert (Hg1 : Z.to_nat g1 = length (Kernel.km_lengths st)).
  { unfold Template.gsize in Hg. cbn [Z.ltb Z.compare] in Hg.
    destruct (Template.np_max (shape0s base)) as [mx|]; [|discriminate Hg].
    cbn [rbind] in Hg. rewrite Hgs in Hg. injection Hg as _ <-.
    rewrite Hlen. unfold ra_len. apply Nat2Z.id. }
  assert (Hgrid : Forall (λ mn : nat * nat,
                            (mn.2 < length (Kernel.km_lengths st))%nat)
                    (Kernel.grid (Z.to_nat g0) (Z.to_nat g1))).
  { apply Forall_forall. intros [m n] Hmn. apply elem_of_grid in Hmn.
    cbn [snd]. rewrite <- Hg1. lia. }
  assert (Hids : Forall (λ mn : nat * nat,
                           (mn.2 < length (Kernel.km_lengths st))%nat) ids).
  { by rewrite Hperm. }
  destruct (run_blocked_any _ st _ Hcore Hmem Hgrid st (same_shape_refl st))
    as (st' & Hrun' & _ & Hd').
  destruct (run_blocked_any _ st _ Hcore Hmem Hids st (same_shape_refl st))
    as (st1 & Hrun1 & _ & Hd1).
  exists st1, st'. split.
  { unfold Kernel.launch. rewrite Hne, Hgs. cbn [Z.ltb Z.compare].
    exact Hrun'. }
  split; [exact Hrun1|].
  rewrite Hd1, Hd'. apply visit_all_same_elems; [exact Hmem|exact Hdisj| |].
  - apply Forall_forall. intros nm Hnm. by apply elem_of_active in Hnm as [? _].
  - intros nm. rewrite !elem_of_active. by setoid_rewrite Hperm.
Qed.

Lemma blocked_order_irrelevant_witness :
  ∃ p st st1 st',
    Sample.full_plan 0 = Ok p ∧ Plan.bound p = Some st
    ∧ Kernel.launch (Plan.plan_fn p) (Plan.plan_gsize p) st = Some st'
    ∧ Kernel.run_items
        (λ mn, Kernel.blocked_item (Plan.plan_fn p) (Z.of_nat mn.1) mn.2)
        (reverse (Kernel.grid 3 3)) st = Some st1
    ∧ Kernel.km_data st1 = Kernel.km_data st'.
Proof.
  assert (H : ∃ p, Sample.full_plan 0 = Ok p).
  { eexists. unfold Sample.full_plan.
    eapply plan_template_build; vm_compute; reflexivity. }
  destruct H as [p Hp].
  assert (Hbase : Plan.reference Sample.full_inputs = Ok Sample.full_Z)
    by (vm_compute; reflexivity).
  pose proof (plan_gsize_spec "lif_step" _ _ _ _ _ _ _ _ Hp Hbase) as Hg.
  vm_compute in Hg. injection Hg as Hg.
  destruct (sample_full_fits 0 p Hp) as (st & Hb & Hmem & Hlen).
  destruct (blocked_order_irrelevant "lif_step" (Lif.lif_text Sample.conf)
              None Sample.full_inputs Sample.full_outputs
              Sample.lif_parameters p Sample.full_Z st
              3 3 (reverse (Kernel.grid 3 3)) Hp Hbase)
    as (st1 & st' & H2 & H3 & H4).
  - exact (sample_lif_core_ok 0 p Hp).
  - exact Hmem.
  - exact Hlen.
  - symmetry. exact Hg.
  - apply reverse_Permutation.
  - exists p, st, st1, st'. split; [exact Hp|]. split; [exact Hb|].
    split; [exact H2|]. split; [exact H3|exact H4].
Defined.
